(** * Video-Scraper: the Collector (scrape_videos.py) and the Fetcher
    (download_videos.py), embedded and verified.

    Python values are modelled as follows.  A [str] is a [string]; an
    [int] is a [Z]; a DataFrame is the list of its rows, the default
    RangeIndex label of a row being its position in the list; an
    exception is a value of [exn] returned in place of a result, the
    state reached when it was raised being kept.

    What lies outside the two scripts is a parameter or a part of the
    state: the pages the browser shows and the download primitives are
    parameters; the ledger file and the directories below the output
    root are state.  The ledger file is read back as it was written.
    The output root holds class directories only, each with the names
    of its entries; paths are POSIX paths. *)

From Stdlib Require Import Ascii.
From stdpp Require Import gmap strings list sorting pretty.

Local Open Scope Z_scope.

(** ** Python built-ins used by the two scripts *)

Module Py.

Inductive exn : Set :=
| AssertionError
| TypeError
| ValueError
| IndexError
| UnboundLocalError
| FileNotFoundError
| KeyError
| OSError.

Inductive result (A : Type) : Type :=
| Ok (a : A)
| Raise (e : exn).
Global Arguments Ok {A} a.
Global Arguments Raise {A} e.

(** [len(s)] *)
Definition len (s : string) : Z := Z.of_nat (String.length s).

(** [sub in s] *)
Fixpoint contains (sub s : string) : bool :=
  String.prefix sub s ||
  match s with
  | EmptyString => false
  | String _ s' => contains sub s'
  end.

(** [s.find(sub)]: the lowest index at which [sub] starts, or -1.
    [find_from] carries the index of the first character of what is
    left of [s]. *)
Fixpoint find_from (sub s : string) (i : Z) : Z :=
  if String.prefix sub s then i
  else match s with
       | EmptyString => -1
       | String _ s' => find_from sub s' (i + 1)
       end.

Definition find (sub s : string) : Z := find_from sub s 0.

(** A slice bound is brought into [0, len(s)] the way CPython does it:
    a negative bound counts from the end. *)
Definition clip (n i : Z) : Z :=
  if i <? 0 then Z.max 0 (i + n) else Z.min i n.

(** [s[lo:hi]] *)
Definition slice (s : string) (lo hi : Z) : string :=
  let lo' := clip (len s) lo in
  let hi' := clip (len s) hi in
  String.substring (Z.to_nat lo') (Z.to_nat (hi' - lo')) s.

(** [s[lo:]] *)
Definition slice_from (s : string) (lo : Z) : string :=
  slice s lo (len s).

(** [s.split(sep)[0]] for a one-character separator: what precedes the
    first [sep], the whole of [s] when there is none. *)
Fixpoint split_head (sep : Ascii.ascii) (s : string) : string :=
  match s with
  | EmptyString => EmptyString
  | String c s' =>
      if Ascii.eqb c sep then EmptyString else String c (split_head sep s')
  end.

(** [s.rstrip('/')] *)
Fixpoint rstrip_slash (s : string) : string :=
  match s with
  | EmptyString => EmptyString
  | String c s' =>
      match rstrip_slash s' with
      | EmptyString => if Ascii.eqb c "/"%char then EmptyString else String c EmptyString
      | t => String c t
      end
  end.

(** [s.rfind('/') + 1], as a number of characters. *)
Fixpoint after_last_slash (s : string) : nat :=
  match s with
  | EmptyString => O
  | String c s' =>
      match after_last_slash s' with
      | O => if Ascii.eqb c "/"%char then 1%nat else O
      | S k => S (S k)
      end
  end.

(** [os.path.split] of posixpath:
<<
    i = p.rfind('/') + 1
    head, tail = p[:i], p[i:]
    if head and head != '/'*len(head): head = head.rstrip('/')
>>
    A head made of slashes only is the one [rstrip] would empty. *)
Definition path_split (p : string) : string * string :=
  let i := Z.of_nat (after_last_slash p) in
  let head := slice p 0 i in
  let tail := slice_from p i in
  (match rstrip_slash head with
   | EmptyString => head
   | stripped => stripped
   end, tail).

(** [s.lower()] on ASCII letters. *)
Definition lower_ascii (c : Ascii.ascii) : Ascii.ascii :=
  let n := Ascii.nat_of_ascii c in
  if (65 <=? n)%nat && (n <=? 90)%nat then Ascii.ascii_of_nat (n + 32) else c.

Fixpoint lower (s : string) : string :=
  match s with
  | EmptyString => EmptyString
  | String c s' => String (lower_ascii c) (lower s')
  end.

(** [s.replace(" ", by)] *)
Fixpoint replace_space (by_ s : string) : string :=
  match s with
  | EmptyString => EmptyString
  | String c s' =>
      if Ascii.eqb c " "%char then by_ +:+ replace_space by_ s'
      else String c (replace_space by_ s')
  end.

End Py.

Import Py.

(** ** The state-and-exception monad shared by the two scripts

    A computation takes the world [W] it runs in and gives back a result,
    or the exception it raised, with the world it left behind: what was
    mutated before a [raise] stays mutated. *)

Definition M (W A : Type) : Type := W → result A * W.

Global Instance M_ret {W} : MRet (M W) := λ A a w, (Ok a, w).

Global Instance M_bind {W} : MBind (M W) := λ A B k m w,
  match m w with
  | (Ok a, w') => k a w'
  | (Raise e, w') => (Raise e, w')
  end.

Definition raise {W A} (e : exn) : M W A := λ w, (Raise e, w).

Definition gets {W A} (f : W → A) : M W A := λ w, (Ok (f w), w).

Definition modify {W} (f : W → W) : M W unit := λ w, (Ok tt, f w).

(** [df.drop_duplicates()]: the first occurrence of every row is kept, in
    the order of the frame. *)
Fixpoint drop_duplicates `{EqDecision K} (seen l : list K) : list K :=
  match l with
  | [] => []
  | x :: l' =>
      if decide (x ∈ seen) then drop_duplicates seen l'
      else x :: drop_duplicates (x :: seen) l'
  end.

(** ** download_videos.py *)

Module Fetcher.

(** One row of the ledger, with the two columns the Fetcher adds. *)
Record video : Set := Video {
  class_id : Z;
  class : string;
  video_id : Z;
  video_title : string;
  video_url : string;
  video_name : string;
  download : bool;
}.

Global Instance video_eq_dec : EqDecision video.
Proof. solve_decision. Defined.

Definition set_download (d : bool) (r : video) : video :=
  Video (class_id r) (class r) (video_id r) (video_title r)
        (video_url r) (video_name r) d.

Definition set_video_name (s : string) (r : video) : video :=
  Video (class_id r) (class r) (video_id r) (video_title r)
        (video_url r) s (download r).

(** The dict built by [new_record(cid_, cls_, count)]. *)
Record count_record : Set := new_record {
  count_class_id : Z;
  count_class : string;
  count : Z;
}.

(** A call of a download primitive: the index label of the row it was
    made for, its three arguments and what it returned. *)
Record request : Set := Request {
  req_index : nat;
  req_url : string;
  req_file : string;
  req_dir : string;
  req_ok : bool;
}.

(** The ledger file on disk: its rows, and whether it has a
    [video_name] column. *)
Record csv_table : Set := Csv {
  csv_rows : list video;
  has_video_name : bool;
}.

(** What a run of the Fetcher reads and writes: the DataFrame [videos]
    (mutated in place), the output root (absent, or the class
    directories it holds with the names of their entries), the calls
    made to the download primitives, the per-class tables printed, and
    the ledger file. *)
Record world : Type := World {
  videos : list video;
  output_root : option (gmap string (list string));
  requests : list request;
  stdout : list (list count_record);
  file : csv_table;
}.

Definition set_videos (vs : list video) (w : world) : world :=
  World vs (output_root w) (requests w) (stdout w) (file w).
Definition set_output_root (t : option (gmap string (list string))) (w : world) : world :=
  World (videos w) t (requests w) (stdout w) (file w).
Definition log_request (q : request) (w : world) : world :=
  World (videos w) (output_root w) (requests w ++ [q]) (stdout w) (file w).
Definition print (t : list count_record) (w : world) : world :=
  World (videos w) (output_root w) (requests w) (stdout w ++ [t]) (file w).
Definition to_csv (vs : list video) (w : world) : world :=
  World (videos w) (output_root w) (requests w) (stdout w) (Csv vs true).

(** *** The file system calls *)

(** [if not os.path.isdir(output_root): os.makedirs(output_root)] *)
Definition makedirs_root : M world unit :=
  modify (λ w, match output_root w with
               | None => set_output_root (Some ∅) w
               | Some _ => w
               end).

(** [if not os.path.isdir(output_dir): os.makedirs(output_dir)];
    [makedirs] creates the missing parents as well. *)
Definition makedirs (output_dir : string) : M world unit :=
  modify (λ w, match output_root w with
               | None => set_output_root (Some {[output_dir := []]}) w
               | Some t =>
                   match t !! output_dir with
                   | None => set_output_root (Some (<[output_dir := []]> t)) w
                   | Some _ => w
                   end
               end).

(** [try: os.rmdir(output_dir) except: pass]: only an empty directory
    is removed. *)
Definition try_rmdir (output_dir : string) : M world unit :=
  modify (λ w, match output_root w with
               | None => w
               | Some t =>
                   match t !! output_dir with
                   | Some [] => set_output_root (Some (delete output_dir t)) w
                   | _ => w
                   end
               end).

(** [os.rmdir(output_root)], outside any [try]. *)
Definition rmdir_root : M world unit :=
  λ w, match output_root w with
       | None => (Raise FileNotFoundError, w)
       | Some t =>
           if decide (t = ∅) then (Ok tt, set_output_root None w)
           else (Raise OSError, w)
       end.

(** *** The video id taken from a URL *)

(** [host, video_id = os.path.split(video_url)], taken once more on
    [host] when [video_id] is empty. *)
Definition last_component (video_url : string) : string :=
  let '(host, video_id) := path_split video_url in
  if len video_id =? 0 then snd (path_split host) else video_id.

Definition _get_youtube_video_id (video_url : string) : result string :=
  if negb (contains "youtube" video_url) then Raise AssertionError
  else
    let video_id := last_component video_url in
    let ss := find "v=" video_id + len "v=" in
    let ee := ss + find "&" (slice_from video_id ss) in
    Ok (slice video_id ss ee).

Definition _get_bilibili_video_id (video_url : string) : result string :=
  if negb (contains "bilibili" video_url) then Raise AssertionError
  else Ok (last_component video_url).

(** *** The download loop

    The two download primitives are outside the repository's own logic:
    [_download_youtube_video] and [_download_bilibili_video] catch
    every exception and return a boolean.  Each is a parameter here,
    applied to the URL, the file name, the name of the class directory
    and the entries that directory holds, and returning its boolean
    together with the entries the directory holds afterwards. *)

Section Download.

Variable _download_youtube_video : string → string → string → list string → bool * list string.
Variable _download_bilibili_video : string → string → string → list string → bool * list string.

Definition call (prim : string → string → string → list string → bool * list string)
    (i : nat) (video_url video_file output_dir : string) : M world bool :=
  λ w, let t := default ∅ (output_root w) in
       let '(ok, entries) :=
         prim video_url video_file output_dir (default [] (t !! output_dir)) in
       (Ok ok,
        log_request (Request i video_url video_file output_dir ok)
          (set_output_root (Some (<[output_dir := entries]> t)) w)).

(** Lines 50-53.  With any other platform name the variable
    [download] is never bound, and line 55 raises. *)
Definition attempt (platform ext output_dir : string) (i : nat) (row : video)
    : M world bool :=
  if decide (platform = "youtube") then
    call _download_youtube_video i (video_url row) (video_name row +:+ ext) output_dir
  else if decide (platform = "bilibili") then
    call _download_bilibili_video i (video_url row) (video_name row) output_dir
  else raise UnboundLocalError.

(** [cap is not None and count_by_class >= cap] *)
Definition cap_reached (cap : option Z) (count_by_class : Z) : bool :=
  match cap with
  | None => false
  | Some k => k <=? count_by_class
  end.

(** [videos.loc[i, 'download'] = download] *)
Definition loc_set_download (i : nat) (d : bool) : M world unit :=
  modify (λ w, set_videos (alter (set_download d) i (videos w)) w).

(** [for i, row in videos_by_class.iterrows(): ...], returning the
    final [count_by_class].  The rows are those of the copy
    [videos_by_class]; the writes go to [videos]. *)
Fixpoint iterrows (cap : option Z) (platform ext output_dir : string)
    (rows : list (nat * video)) (count_by_class : Z) : M world Z :=
  match rows with
  | [] => mret count_by_class
  | (i, row) :: rows' =>
      if cap_reached cap count_by_class then mret count_by_class
      else if download row then
        iterrows cap platform ext output_dir rows' count_by_class
      else
        d ← attempt platform ext output_dir i row;
        loc_set_download i d;;
        iterrows cap platform ext output_dir rows' (count_by_class + Z.b2z d)
  end.

(** [videos[videos['class_id']==cid_]], each row with its index label *)
Definition by_class (cid_ : Z) (vs : list video) : list (nat * video) :=
  filter (λ ir, class_id ir.2 = cid_) (imap pair vs).

(** [sum(videos_by_class['download'])] *)
Definition sum_download (rows : list (nat * video)) : Z :=
  foldr (λ ir acc, Z.b2z (download ir.2) + acc) 0 rows.

(** [videos[['class_id', 'class']].drop_duplicates()....tolist()] *)
Definition classes_of (vs : list video) : list (Z * string) :=
  drop_duplicates [] ((λ r, (class_id r, class r)) <$> vs).

(** [for cid_, cls_ in classes: ...], returning [count_tracker]. *)
Fixpoint for_classes (cap : option Z) (platform ext : string)
    (classes : list (Z * string)) (count_tracker : list count_record)
    : M world (list count_record) :=
  match classes with
  | [] => mret count_tracker
  | (cid_, cls_) :: classes' =>
      vs ← gets videos;
      let videos_by_class := by_class cid_ vs in
      let output_dir := pretty cid_ in
      makedirs output_dir;;
      count_by_class ←
        iterrows cap platform ext output_dir videos_by_class
          (sum_download videos_by_class);
      let count_tracker := count_tracker ++ [new_record cid_ cls_ count_by_class] in
      try_rmdir output_dir;;
      for_classes cap platform ext classes' count_tracker
  end.

(** [np.sum([ct['count'] for ct in count_tracker])] *)
Definition total (count_tracker : list count_record) : Z :=
  foldr (λ ct acc, count ct + acc) 0 count_tracker.

Definition download_videos (cap : option Z) (platform ext : string)
    : M world (list video) :=
  makedirs_root;;
  vs ← gets videos;
  count_tracker ← for_classes cap platform ext (classes_of vs) [];
  modify (print count_tracker);;
  (if 0 <? total count_tracker then mret tt else rmdir_root);;
  gets videos.

(** *** main *)

(** [videos['video_url'].apply(f)], stopping at the first assertion
    that fails. *)
Fixpoint apply_video_name (f : string → result string) (vs : list video)
    : M world (list video) :=
  match vs with
  | [] => mret []
  | r :: vs' =>
      match f (video_url r) with
      | Raise e => raise e
      | Ok s => named ← apply_video_name f vs'; mret (set_video_name s r :: named)
      end
  end.

(** [videos.loc[videos['video_name'] == video_file.split('.')[0], 'download'] = True] *)
Definition mark (video_file : string) (vs : list video) : list video :=
  (λ r, if decide (video_name r = split_head "." video_file)
        then set_download true r else r) <$> vs.

(** [for video_file in os.listdir(...)]; without a [video_name]
    column the comparison raises. *)
Fixpoint for_files (has_name : bool) (files : list string) : M world unit :=
  match files with
  | [] => mret tt
  | video_file :: files' =>
      (if has_name then modify (λ w, set_videos (mark video_file (videos w)) w)
       else raise KeyError);;
      for_files has_name files'
  end.

(** [for class_id in os.listdir(args.output_path)] *)
Fixpoint for_dirs (has_name : bool) (dirs : list (string * list string))
    : M world unit :=
  match dirs with
  | [] => mret tt
  | (_, files) :: dirs' => for_files has_name files;; for_dirs has_name dirs'
  end.

(** Lines 177-182, under the comment "check if videos are
    downloaded". *)
Definition check_downloaded (has_name : bool) : M world unit :=
  modify (λ w, set_videos (set_download false <$> videos w) w);;
  root ← gets output_root;
  match root with
  | None => raise FileNotFoundError
  | Some t => for_dirs has_name (map_to_list t)
  end.

Definition main (platform : string) (cap : option Z) : M world unit :=
  f ← gets file;
  modify (set_videos (csv_rows f));;
  has_name ←
    (if has_video_name f then mret true
     else if decide (platform = "youtube") then
       vs ← apply_video_name _get_youtube_video_id (csv_rows f);
       modify (set_videos vs);; mret true
     else if decide (platform = "bilibili") then
       vs ← apply_video_name _get_bilibili_video_id (csv_rows f);
       modify (set_videos vs);; mret true
     else mret false);
  check_downloaded has_name;;
  if decide (platform = "youtube") then
    vs ← download_videos cap "youtube" ".mp4"; modify (to_csv vs)
  else if decide (platform = "bilibili") then
    vs ← download_videos cap "bilibili" ".mp4"; modify (to_csv vs)
  else mret tt.

End Download.

End Fetcher.

(** ** scrape_videos.py *)

Module Collector.

(** One row of the ledger as the Collector writes it. *)
Record url_record : Set := UrlRecord {
  class_id : Z;
  class : string;
  video_id : Z;
  video_title : string;
  video_url : string;
}.

Global Instance url_record_eq_dec : EqDecision url_record.
Proof. solve_decision. Defined.

(** An element of a result page, with the attributes the two search
    functions read: [href] may be missing, [title] is read on YouTube
    and [text] on Bilibili. *)
Record element : Set := Element {
  href : option string;
  title : string;
  text : string;
}.

(** The argument [num_videos]: an int, a list, or a value of another
    type. *)
Inductive num : Set :=
| NumInt (n : Z)
| NumList (l : list Z)
| NumOther.

(** What a run of the Collector reads and writes: the ledger file
    ([None] while it does not exist) and the pages the driver was sent
    to, in order. *)
Record world : Type := World {
  ledger : option (list url_record);
  visited : list string;
}.

Definition set_ledger (rows : list url_record) (w : world) : world :=
  World (Some rows) (visited w).
Definition visit (page : string) (w : world) : world :=
  World (ledger w) (visited w ++ [page]).

(** *** The two search functions

    What the browser shows is outside the repository: the elements
    with id [video-title] of a YouTube page, and the [a] elements of
    each [bili-video-card] of a Bilibili page, are parameters. *)

Section Search.

Variable video_titles : string → list element.
Variable bili_video_cards : string → list (list element).

(** The loop of [get_youtube_urls], lines 49-66. *)
Fixpoint youtube_loop (n : Z) (omit_videos : list (string * string))
    (elements : list element) (videos : list (string * string)) (count : Z)
    : list (string * string) :=
  match elements with
  | [] => videos
  | elem_ :: elements' =>
      match href elem_ with
      | None => youtube_loop n omit_videos elements' videos count
      | Some url_ =>
          let video_ := (title elem_, url_) in
          if decide (video_ ∈ omit_videos) then
            youtube_loop n omit_videos elements' videos count
          else
            let videos := videos ++ [video_] in
            let count := count + 1 in
            if n <=? count then videos
            else youtube_loop n omit_videos elements' videos count
      end
  end.

(** The page [driver.get] is sent to. *)
Definition youtube_page (keywords : string) : string :=
  "https://www.youtube.com/results?search_query=" +:+ replace_space "+" keywords.

Definition get_youtube_urls (keywords : string) (n : Z)
    (omit_videos : list (string * string)) : M world (list (string * string)) :=
  modify (visit (youtube_page keywords));;
  mret (youtube_loop n omit_videos (video_titles (youtube_page keywords)) [] 0).

(** The loop of [get_bilibili_urls], lines 96-114.  In
    [(url_ is None) | ('video' not in url_)] both operands are
    evaluated, and [in] raises on [None]. *)
Fixpoint bilibili_loop (n : Z) (omit_videos : list (string * string))
    (elements : list element) (videos : list (string * string)) (count : Z)
    : result (list (string * string)) :=
  match elements with
  | [] => Ok videos
  | elem_ :: elements' =>
      match href elem_ with
      | None => Raise TypeError
      | Some url_ =>
          if negb (contains "video" url_) then
            bilibili_loop n omit_videos elements' videos count
          else
            let video_ := (text elem_, url_) in
            if decide (video_ ∈ omit_videos) then
              bilibili_loop n omit_videos elements' videos count
            else
              let videos := videos ++ [video_] in
              let count := count + 1 in
              if n <=? count then Ok videos
              else bilibili_loop n omit_videos elements' videos count
      end
  end.

(** [[elem_.find_elements(By.TAG_NAME, 'a')[1] for elem_ in elements]] *)
Fixpoint second_anchors (cards : list (list element)) : result (list element) :=
  match cards with
  | [] => Ok []
  | anchors :: cards' =>
      match anchors !! 1%nat with
      | None => Raise IndexError
      | Some a =>
          match second_anchors cards' with
          | Ok l => Ok (a :: l)
          | Raise e => Raise e
          end
      end
  end.

Definition lift {A} (r : result A) : M world A := λ w, (r, w).

Definition bilibili_page (keywords : string) : string :=
  "https://search.bilibili.com/all?keyword=" +:+ replace_space "%20" keywords.

Definition get_bilibili_urls (keywords : string) (n : Z)
    (omit_videos : list (string * string)) : M world (list (string * string)) :=
  modify (visit (bilibili_page keywords));;
  elements ← lift (second_anchors (bili_video_cards (bilibili_page keywords)));
  lift (bilibili_loop n omit_videos elements [] 0).

(** *** get_urls *)

(** [urls.loc[urls['class_id'] == cid_, ['video_title', 'video_url']].values.tolist()] *)
Definition omit_of (cid_ : Z) (urls : list url_record) : list (string * string) :=
  (λ r, (video_title r, video_url r)) <$> filter (λ r, class_id r = cid_) urls.

(** The rows added for a class: [video_id] is [range(n_exg, n)]. *)
Definition new_rows (cid_ : Z) (cls_ : string) (n_exg : Z)
    (urls_by_cls : list (string * string)) : list url_record :=
  imap (λ k v, UrlRecord cid_ cls_ (n_exg + Z.of_nat k) v.1 v.2) urls_by_cls.

(** [for cid_, cls_ in enumerate(classes): ...], returning [urls]. *)
Fixpoint for_classes (num_videos : list Z) (additional_keywords platform : string)
    (classes : list (nat * string)) (urls : list url_record)
    : M world (list url_record) :=
  match classes with
  | [] => mret urls
  | (i, cls_) :: classes' =>
      let cid_ := Z.of_nat i in
      let omit_videos := omit_of cid_ urls in
      match num_videos !! i with
      | None => raise IndexError
      | Some n =>
          let n_exg := Z.of_nat (length omit_videos) in
          if n <=? n_exg then
            for_classes num_videos additional_keywords platform classes' urls
          else
            let keywords := cls_ +:+ " " +:+ additional_keywords in
            let n_new := n - n_exg in
            urls_by_cls ←
              (if decide (lower platform = "youtube") then
                 get_youtube_urls keywords n_new omit_videos
               else if decide (lower platform = "bilibili") then
                 get_bilibili_urls keywords n_new omit_videos
               else raise ValueError);
            for_classes num_videos additional_keywords platform classes'
              (urls ++ new_rows cid_ cls_ n_exg urls_by_cls)
      end
  end.

(** [urls.sort_values(['class_id', 'video_id'])]: a stable sort on the
    two columns, here by insertion. *)
Definition key_le (a b : url_record) : bool :=
  (class_id a <? class_id b)
  || ((class_id a =? class_id b) && (video_id a <=? video_id b)).

Fixpoint insert (r : url_record) (l : list url_record) : list url_record :=
  match l with
  | [] => [r]
  | x :: l' => if key_le r x then r :: l else x :: insert r l'
  end.

Definition sort_values (urls : list url_record) : list url_record :=
  foldr insert [] urls.

Definition get_urls (classes : list string) (num_videos : num)
    (additional_keywords platform : string) : M world unit :=
  file ← gets ledger;
  urls ← match file with
         | Some rows => mret rows
         | None => modify (set_ledger []);; mret []
         end;
  num_videos ← match num_videos with
               | NumInt n => mret (replicate (length classes) n)
               | NumList l =>
                   if decide (length l = length classes) then mret l
                   else raise AssertionError
               | NumOther => raise TypeError
               end;
  urls ← for_classes num_videos additional_keywords platform (imap pair classes) urls;
  modify (set_ledger (sort_values urls)).

End Search.

(** *** The script

    Lines 208-234, run when the file is the main module.  The lines of
    the classes file are given as [f.read().splitlines()] returns
    them, and the values of the options as argparse leaves them in
    [args]. *)

(** [s.strip(' ')] *)
Fixpoint lstrip_space (s : string) : string :=
  match s with
  | EmptyString => EmptyString
  | String c s' => if Ascii.eqb c " "%char then lstrip_space s' else s
  end.

Fixpoint rstrip_space (s : string) : string :=
  match s with
  | EmptyString => EmptyString
  | String c s' =>
      match rstrip_space s' with
      | EmptyString => if Ascii.eqb c " "%char then EmptyString else String c EmptyString
      | t => String c t
      end
  end.

Definition strip_space (s : string) : string := rstrip_space (lstrip_space s).

(** [classes.sort()]: strings are compared character by character, by
    code; equal strings are the same string, so that any sort gives
    the list that insertion gives. *)
Fixpoint insert_class (cls_ : string) (classes : list string) : list string :=
  match classes with
  | [] => [cls_]
  | x :: classes' =>
      if String.leb cls_ x then cls_ :: classes else x :: insert_class cls_ classes'
  end.

Definition sort (classes : list string) : list string := foldr insert_class [] classes.

(** How the script ends: it returns, or an exception leaves it.  The
    name [num_videos] is bound on one branch only (line 227); where it
    is not, evaluating the arguments of [get_urls] raises
    [NameError]. *)
Inductive ending : Set :=
| Returned
| NameError
| Uncaught (e : exn).

Section Script.

Variable video_titles : string → list element.
Variable bili_video_cards : string → list (list element).

Definition __main__ (lines : list string) (args_num_videos : list Z)
    (args_additional_keywords args_platform : string) : world → ending * world :=
  λ w,
    let classes := sort (strip_space <$> lines) in
    match args_num_videos with
    | [n] =>
        let additional_keywords := strip_space args_additional_keywords in
        match get_urls video_titles bili_video_cards classes (NumInt n)
                additional_keywords args_platform w with
        | (Ok _, w') => (Returned, w')
        | (Raise e, w') => (Uncaught e, w')
        end
    | _ =>
        if decide (length args_num_videos = length classes) then (NameError, w)
        else (Uncaught AssertionError, w)
    end.

End Script.

End Collector.

(** * Verification *)

(** ** Facts about the Python string operations *)

Module PyFacts.

Local Arguments ascii_dec : simpl never.

Example path_split_watch :
  path_split "https://www.youtube.com/watch?v=abc123"
  = ("https://www.youtube.com", "watch?v=abc123").
Proof. reflexivity. Qed.

Example path_split_trailing :
  path_split "https://www.bilibili.com/video/BV1/" = ("https://www.bilibili.com/video/BV1", "").
Proof. reflexivity. Qed.

Example path_split_root : path_split "//" = ("//", "").
Proof. reflexivity. Qed.

Example find_examples :
  find "v=" "watch?v=abc" = 6 /\ find "&" "abc" = -1 /\ find "" "" = 0.
Proof. repeat split. Qed.

Example slice_examples :
  slice "abcdef" 2 4 = "cd" /\ slice "abcdef" 4 2 = "" /\ slice "abcdef" (-2) 9 = "ef".
Proof. repeat split. Qed.

(** [sdrop n s] is [s] without its first [n] characters. *)
Fixpoint sdrop (n : nat) (s : string) : string :=
  match n, s with
  | O, _ => s
  | S _, EmptyString => EmptyString
  | S n', String _ s' => sdrop n' s'
  end.

(** [after sub s] is what follows the first occurrence of [sub] in [s]. *)
Fixpoint after (sub s : string) : option string :=
  if String.prefix sub s then Some (sdrop (String.length sub) s)
  else match s with
       | EmptyString => None
       | String _ s' => after sub s'
       end.

(** [sfx t s]: [t] is a suffix of [s]. *)
Inductive sfx (t : string) : string → Prop :=
| sfx_refl : sfx t t
| sfx_cons c s : sfx t s → sfx t (String c s).

Fixpoint all_slash (s : string) : bool :=
  match s with
  | EmptyString => true
  | String c s' => Ascii.eqb c "/"%char && all_slash s'
  end.

Lemma sdrop_empty n : sdrop n "" = "".
Proof. by destruct n. Qed.

Lemma sdrop_sdrop n m s : sdrop n (sdrop m s) = sdrop (m + n) s.
Proof.
  revert s; induction m as [|m IH]; intros s; [done|].
  destruct s; simpl; [apply sdrop_empty | apply IH].
Qed.

Lemma sfx_sdrop n s : sfx (sdrop n s) s.
Proof.
  revert s; induction n as [|n IH]; intros [|c s]; simpl; try constructor.
  apply IH.
Qed.

Lemma sfx_is_sdrop t s : sfx t s → ∃ n, t = sdrop n s.
Proof.
  induction 1 as [|c s _ [n ->]]; [by exists 0%nat | by exists (S n)].
Qed.

Lemma sfx_trans r t s : sfx r t → sfx t s → sfx r s.
Proof. intros Hrt; induction 1; [done | by constructor]. Qed.

Lemma sfx_sdrop_mono n t s : sfx t s → sfx (sdrop n t) (sdrop n s).
Proof.
  intros [m ->]%sfx_is_sdrop. rewrite sdrop_sdrop.
  replace (m + n)%nat with (n + m)%nat by lia.
  rewrite <- sdrop_sdrop. apply sfx_sdrop.
Qed.

Lemma sfx_sdrop_le n m s : (n ≤ m)%nat → sfx (sdrop m s) (sdrop n s).
Proof.
  intros Hle. replace m with (n + (m - n))%nat by lia.
  rewrite <- sdrop_sdrop. apply sfx_sdrop.
Qed.

(** *** Slices *)

Lemma substring_nil n s : String.substring n 0 s = "".
Proof. revert s; induction n as [|n IH]; intros [|c s]; simpl; auto. Qed.

Lemma substring_all s : String.substring 0 (String.length s) s = s.
Proof. induction s as [|c s IH]; simpl; [done | by rewrite IH]. Qed.

Lemma substring_sdrop n s :
  (n ≤ String.length s)%nat →
  String.substring n (String.length s - n) s = sdrop n s.
Proof.
  revert s; induction n as [|n IH]; intros s Hn.
  - rewrite Nat.sub_0_r. apply substring_all.
  - destruct s as [|c s]; simpl in *; [lia|]. apply IH. lia.
Qed.

Lemma sdrop_ge n s : (String.length s ≤ n)%nat → sdrop n s = "".
Proof.
  revert s; induction n as [|n IH]; intros [|c s] Hn; simpl in *; try done; try lia.
  apply IH. lia.
Qed.

Lemma slice_from_sdrop s lo : 0 ≤ lo → slice_from s lo = sdrop (Z.to_nat lo) s.
Proof.
  intros Hlo. unfold slice_from, slice, clip, len.
  destruct (Z.ltb_spec lo 0) as [?|_]; [lia|].
  destruct (Z.ltb_spec (Z.of_nat (String.length s)) 0) as [?|_]; [lia|].
  rewrite Z.min_id.
  destruct (Z.le_gt_cases lo (Z.of_nat (String.length s))) as [Hle|Hgt].
  - rewrite Z.min_l by done.
    replace (Z.to_nat (Z.of_nat (String.length s) - lo))
      with (String.length s - Z.to_nat lo)%nat by lia.
    apply substring_sdrop. lia.
  - rewrite Z.min_r by lia. rewrite Z.sub_diag. simpl.
    rewrite substring_nil. symmetry. apply sdrop_ge. lia.
Qed.

Lemma slice_empty s lo hi : 0 ≤ hi → hi ≤ lo → slice s lo hi = "".
Proof.
  intros Hhi Hlo. unfold slice, clip.
  destruct (Z.ltb_spec lo 0) as [?|_]; [lia|].
  destruct (Z.ltb_spec hi 0) as [?|_]; [lia|].
  set (n := len s).
  assert (Z.to_nat (Z.min hi n - Z.min lo n) = 0%nat) as -> by lia.
  apply substring_nil.
Qed.

(** *** Searching *)

Lemma after_cons sub c s :
  after sub (String c s)
  = if String.prefix sub (String c s)
    then Some (sdrop (String.length sub) (String c s)) else after sub s.
Proof. done. Qed.

Lemma find_from_cons sub c s i :
  find_from sub (String c s) i
  = if String.prefix sub (String c s) then i else find_from sub s (i + 1).
Proof. done. Qed.

Lemma contains_cons sub c s :
  contains sub (String c s) = String.prefix sub (String c s) || contains sub s.
Proof. done. Qed.

Lemma find_from_after sub s i :
  match after sub s with
  | None => find_from sub s i = -1
  | Some r => ∃ k : nat, find_from sub s i = i + Z.of_nat k
                        ∧ r = sdrop (k + String.length sub) s
  end.
Proof.
  revert i; induction s as [|c s IH]; intros i.
  - destruct sub; [|done].
    exists 0%nat. split; [simpl; lia | done].
  - rewrite after_cons, find_from_cons.
    destruct (String.prefix sub (String c s)).
    + exists 0%nat. split; [lia | done].
    + specialize (IH (i + 1)). destruct (after sub s) as [r|]; [|done].
      destruct IH as (k & Hk & ->). exists (S k). split; [lia | done].
Qed.

Lemma contains_after sub s : contains sub s = false ↔ after sub s = None.
Proof.
  induction s as [|c s IH].
  - by destruct sub.
  - rewrite after_cons, contains_cons.
    by destruct (String.prefix sub (String c s)).
Qed.


Lemma contains_sfx sub t s : sfx t s → contains sub s = false → contains sub t = false.
Proof.
  induction 1 as [|c s _ IH]; [done|]. rewrite contains_cons.
  intros [_ H]%orb_false_elim. by apply IH.
Qed.

Lemma prefix_nil s : String.prefix "" s = true.
Proof. by destruct s. Qed.

Lemma prefix_app sub r b : String.prefix sub r = true → String.prefix sub (r +:+ b) = true.
Proof.
  revert r; induction sub as [|a sub IH]; intros [|c r]; simpl; try done.
  - by destruct b.
  - destruct (ascii_dec a c); [apply IH | done].
Qed.

Lemma contains_app_l sub r b : contains sub (r +:+ b) = false → contains sub r = false.
Proof.
  induction r as [|c r IH].
  - intros H. destruct sub; [|done]. by destruct b.
  - change (String c r +:+ b) with (String c (r +:+ b)).
    rewrite !contains_cons. intros [H1 H2]%orb_false_elim.
    rewrite (IH H2), orb_false_r.
    destruct (String.prefix sub (String c r)) eqn:Hp; [|done].
    apply (prefix_app _ _ b) in Hp.
    change (String c r +:+ b) with (String c (r +:+ b)) in Hp. congruence.
Qed.

(** The first occurrence in a string ends no later than the first
    occurrence in any of its suffixes. *)
Lemma after_of_sfx sub t s r :
  sfx t s → after sub t = Some r →
  ∃ post, after sub s = Some post ∧ sfx r post.
Proof.
  intros Hts Hr. induction Hts as [|c s Hts (post & Hpost & Hsfx)].
  - exists r. split; [done | constructor].
  - rewrite after_cons.
    destruct (String.prefix sub (String c s)); [|by exists post].
    eexists; split; [done|].
    pose proof (find_from_after sub s 0) as H. rewrite Hpost in H.
    destruct H as (k & _ & ->).
    eapply sfx_trans; [exact Hsfx|].
    destruct (String.length sub) as [|m]; simpl.
    + constructor. apply sfx_sdrop.
    + apply sfx_sdrop_le. lia.
Qed.

(** When a suffix holds no occurrence, the first occurrence starts
    before the suffix does. *)
Lemma after_before_sfx sub t s post :
  sfx t s → after sub t = None → after sub s = Some post →
  sfx (sdrop (String.length sub - 1) t) post.
Proof.
  intros Hts Hnone. induction Hts as [|c s Hts IH]; [congruence|].
  rewrite after_cons. destruct (String.prefix sub (String c s)); [|done].
  intros [= <-]. destruct (String.length sub) as [|m]; simpl.
  - constructor. done.
  - rewrite Nat.sub_0_r. by apply sfx_sdrop_mono.
Qed.

(** *** Paths *)

Lemma append_empty_r s : s +:+ "" = s.
Proof.
  induction s as [|c s IH]; [done|].
  change (String c (s +:+ "") = String c s). by rewrite IH.
Qed.

Lemma length_sdrop n s : String.length (sdrop n s) = (String.length s - n)%nat.
Proof.
  revert s; induction n as [|n IH]; intros [|c s]; simpl; try done; lia.
Qed.

Lemma after_last_slash_le s : (after_last_slash s ≤ String.length s)%nat.
Proof.
  induction s as [|c s IH]; simpl; [lia|].
  destruct (after_last_slash s); [destruct (Ascii.eqb c "/")|]; lia.
Qed.

Lemma rstrip_slash_spec s :
  ∃ sl, all_slash sl = true ∧ s = rstrip_slash s +:+ sl.
Proof.
  induction s as [|c s (sl & Hsl & IH)]; [by exists ""|].
  simpl. destruct (rstrip_slash s) as [|c' t].
  - change (s = sl) in IH. subst sl. destruct (Ascii.eqb c "/") eqn:Hc.
    + exists (String c s). split; [simpl; by rewrite Hc, Hsl | done].
    + by exists s.
  - exists sl. split; [done|].
    change (String c s = String c (String c' t +:+ sl)). by rewrite <- IH.
Qed.

Lemma slice_whole s : slice s 0 (len s) = s.
Proof.
  unfold slice, clip, len.
  destruct (Z.ltb_spec (Z.of_nat (String.length s)) 0) as [?|_]; [lia|].
  simpl. rewrite Z.min_id, Z.min_l by lia.
  rewrite Z.sub_0_r, Nat2Z.id. apply substring_all.
Qed.

Lemma tail_sfx s : sfx (slice_from s (Z.of_nat (after_last_slash s))) s.
Proof. rewrite slice_from_sdrop by lia. apply sfx_sdrop. Qed.

(** The component [last_component] selects ends where the URL ends, up
    to trailing slashes. *)
Lemma last_component_spec video_url :
  ∃ h sl, video_url = h +:+ sl ∧ all_slash sl = true
          ∧ sfx (Fetcher.last_component video_url) h.
Proof.
  unfold Fetcher.last_component, path_split.
  set (i := after_last_slash video_url).
  destruct (Z.eqb_spec (len (slice_from video_url (Z.of_nat i))) 0) as [Hz|_].
  - assert (i = String.length video_url) as Hi.
    { pose proof (after_last_slash_le video_url).
      rewrite slice_from_sdrop in Hz by lia. unfold len in Hz.
      rewrite length_sdrop, Nat2Z.id in Hz. lia. }
    rewrite Hi. fold (len video_url). rewrite slice_whole.
    destruct (rstrip_slash_spec video_url) as (sl & Hsl & Heq).
    destruct (rstrip_slash video_url) as [|c t] eqn:Hstrip.
    + exists video_url, "". rewrite append_empty_r. repeat split. apply tail_sfx.
    + exists (String c t), sl. repeat split; [done..|]. apply tail_sfx.
  - exists video_url, "". rewrite append_empty_r. repeat split. apply tail_sfx.
Qed.

Lemma after_slashes sl : all_slash sl = true → after "v=" sl = None.
Proof.
  induction sl as [|c sl IH]; [done|]. simpl all_slash.
  intros [Hc Hsl]%andb_prop. apply Ascii.eqb_eq in Hc as ->.
  rewrite after_cons. simpl. by apply IH.
Qed.

Lemma after_app_slashes h sl :
  all_slash sl = true →
  after "v=" (h +:+ sl) = (λ r, r +:+ sl) <$> after "v=" h.
Proof.
  intros Hsl. induction h as [|c h IH]; [by rewrite after_slashes|].
  change (String c h +:+ sl) with (String c (h +:+ sl)).
  rewrite !after_cons, IH.
  destruct h as [|c' h].
  - change ("" +:+ sl) with sl. destruct sl as [|d sl].
    + simpl. by destruct (ascii_dec "v" c).
    + simpl in Hsl. apply andb_prop in Hsl as [Hd _].
      apply Ascii.eqb_eq in Hd as ->.
      simpl. by destruct (ascii_dec "v" c).
  - change (String c' h +:+ sl) with (String c' (h +:+ sl)).
    simpl. destruct (ascii_dec "v" c); [|done].
    destruct (ascii_dec "=" c'); [|done]. by rewrite !prefix_nil.
Qed.

(** No ampersand follows the first "v=" of the selected component when
    none follows the first "v=" of the URL. *)
Lemma component_amp_free video_url post :
  after "v=" video_url = Some post → contains "&" post = false →
  let video_id := Fetcher.last_component video_url in
  contains "&" (slice_from video_id (find "v=" video_id + 2)) = false.
Proof.
  intros Hpost Hamp video_id.
  destruct (last_component_spec video_url) as (h & sl & -> & Hsl & Hsfx).
  fold video_id in Hsfx.
  rewrite after_app_slashes in Hpost by done.
  destruct (after "v=" h) as [ph|] eqn:Hph; [|done].
  injection Hpost as <-. apply contains_app_l in Hamp.
  pose proof (find_from_after "v=" video_id 0) as Hfind. fold (find "v=" video_id) in Hfind.
  destruct (after "v=" video_id) as [r|] eqn:Hr.
  - destruct Hfind as (k & -> & ->).
    rewrite slice_from_sdrop by lia.
    destruct (after_of_sfx _ _ _ _ Hsfx Hr) as (post & Hpost & Hrp).
    rewrite Hph in Hpost. injection Hpost as <-.
    replace (Z.to_nat (0 + Z.of_nat k + 2)) with (k + String.length "v=")%nat
      by (simpl; lia).
    by eapply contains_sfx.
  - rewrite Hfind. rewrite slice_from_sdrop by lia.
    eapply contains_sfx; [|exact Hamp].
    apply (after_before_sfx "v=" _ _ _ Hsfx Hr Hph).
Qed.

(** *** Concatenations *)

Lemma sdrop_app a b : sdrop (String.length a) (a +:+ b) = b.
Proof. induction a as [|c a IH]; [done | exact IH]. Qed.

Lemma length_append a b :
  String.length (a +:+ b) = (String.length a + String.length b)%nat.
Proof.
  induction a as [|c a IH]; [done|].
  change (String c a +:+ b) with (String c (a +:+ b)). simpl. by rewrite IH.
Qed.

Lemma substring_app a b c :
  String.substring (String.length a) (String.length b) (a +:+ b +:+ c) = b.
Proof.
  induction a as [|x a IH]; [|exact IH].
  change ("" +:+ b +:+ c) with (b +:+ c). simpl String.length.
  induction b as [|y b IHb]; [apply substring_nil|].
  change (String y b +:+ c) with (String y (b +:+ c)). simpl. by rewrite IHb.
Qed.

(** [s[len(a) : len(a) + len(b)]] of [s = a + b + c] *)
Lemma slice_app a b c :
  slice (a +:+ b +:+ c) (len a) (len a + len b) = b.
Proof.
  unfold slice, clip, len. rewrite !length_append.
  destruct (Z.ltb_spec (Z.of_nat (String.length a)) 0) as [?|_]; [lia|].
  destruct (Z.ltb_spec (Z.of_nat (String.length a) + Z.of_nat (String.length b)) 0)
    as [?|_]; [lia|].
  rewrite !Z.min_l by lia.
  replace (Z.to_nat (Z.of_nat (String.length a) + Z.of_nat (String.length b)
                     - Z.of_nat (String.length a))) with (String.length b) by lia.
  rewrite Nat2Z.id. apply substring_app.
Qed.

Lemma slice_from_app a b : slice_from (a +:+ b) (len a) = b.
Proof.
  rewrite slice_from_sdrop by (unfold len; lia).
  unfold len. rewrite Nat2Z.id. apply sdrop_app.
Qed.

(** The first "v=" of [pre + "v=" + s] is the one written, when [pre]
    holds none; and likewise for the first "&". *)
Lemma find_from_before_v pre s i :
  contains "v=" pre = false →
  find_from "v=" (pre +:+ "v=" +:+ s) i = i + len pre.
Proof.
  revert i; induction pre as [|c pre IH]; intros i Hpre.
  - change ("" +:+ "v=" +:+ s) with (String "v" (String "=" s)).
    rewrite find_from_cons. simpl.
    destruct (ascii_dec "v" "v"); [|done]. destruct (ascii_dec "=" "="); [|done].
    rewrite prefix_nil. unfold len. simpl. lia.
  - rewrite contains_cons in Hpre. apply orb_false_elim in Hpre as [Hp Hrest].
    change (String c pre +:+ "v=" +:+ s) with (String c (pre +:+ "v=" +:+ s)).
    rewrite find_from_cons.
    assert (String.prefix "v=" (String c (pre +:+ "v=" +:+ s)) = false) as ->.
    { destruct pre as [|c' pre].
      - change ("" +:+ "v=" +:+ s) with (String "v" (String "=" s)). simpl.
        destruct (ascii_dec "v" c); [|done]. by destruct (ascii_dec "=" "v").
      - change (String c' pre +:+ "v=" +:+ s) with (String c' (pre +:+ "v=" +:+ s)).
        simpl in Hp |- *. destruct (ascii_dec "v" c); [|done].
        destruct (ascii_dec "=" c'); [|done]. by rewrite prefix_nil in Hp. }
    rewrite IH by done. unfold len. simpl String.length. lia.
Qed.

Lemma find_from_before_amp pre s i :
  contains "&" pre = false →
  find_from "&" (pre +:+ "&" +:+ s) i = i + len pre.
Proof.
  revert i; induction pre as [|c pre IH]; intros i Hpre.
  - change ("" +:+ "&" +:+ s) with (String "&" s).
    rewrite find_from_cons. simpl. destruct (ascii_dec "&" "&"); [|done].
    rewrite prefix_nil. unfold len. simpl. lia.
  - rewrite contains_cons in Hpre. apply orb_false_elim in Hpre as [Hp Hrest].
    change (String c pre +:+ "&" +:+ s) with (String c (pre +:+ "&" +:+ s)).
    rewrite find_from_cons.
    assert (String.prefix "&" (String c (pre +:+ "&" +:+ s)) = false) as ->.
    { simpl in Hp |- *. destruct (ascii_dec "&" c); [|done].
      by rewrite prefix_nil in Hp. }
    rewrite IH by done. unfold len. simpl String.length. lia.
Qed.

(** *** Path components *)

(** Whether a string holds the character [a]. *)
Lemma contains_char_cons a c s :
  contains (String a "") (String c s) = Ascii.eqb c a || contains (String a "") s.
Proof.
  rewrite contains_cons. f_equal. simpl. rewrite prefix_nil.
  destruct (ascii_dec a c) as [<-|Hne]; [by rewrite Ascii.eqb_refl|].
  symmetry. apply Ascii.eqb_neq. congruence.
Qed.

Lemma contains_char_app a s t :
  contains (String a "") (s +:+ t) = contains (String a "") s || contains (String a "") t.
Proof.
  induction s as [|c s IH]; [done|].
  change (String c s +:+ t) with (String c (s +:+ t)).
  by rewrite !contains_char_cons, IH, orb_assoc.
Qed.

Lemma contains_slash_cons c s :
  contains "/" (String c s) = Ascii.eqb c "/" || contains "/" s.
Proof. apply contains_char_cons. Qed.

(** What [replace] writes holds a space only if what it writes in the
    place of one does. *)
Lemma replace_space_no_space by_ s :
  contains " " by_ = false → contains " " (replace_space by_ s) = false.
Proof.
  intros Hby. induction s as [|c s IH]; [done|]. simpl.
  destruct (Ascii.eqb c " ") eqn:Hc.
  - by rewrite contains_char_app, Hby, IH.
  - by rewrite contains_char_cons, Hc, IH.
Qed.

Lemma after_last_slash_none s : contains "/" s = false → after_last_slash s = 0%nat.
Proof.
  induction s as [|c s IH]; [done|]. rewrite contains_slash_cons.
  intros [Hc Hs]%orb_false_elim. simpl. by rewrite (IH Hs), Hc.
Qed.

Lemma after_last_slash_app host comp :
  contains "/" comp = false →
  after_last_slash (host +:+ "/" +:+ comp) = S (String.length host).
Proof.
  intros Hcomp. induction host as [|c host IH].
  - change ("" +:+ "/" +:+ comp) with (String "/" comp). simpl.
    by rewrite (after_last_slash_none comp Hcomp).
  - change (String c host +:+ "/" +:+ comp) with (String c (host +:+ "/" +:+ comp)).
    simpl. by rewrite IH.
Qed.

(** What follows the last slash holds no slash. *)
Lemma tail_no_slash p : contains "/" (sdrop (after_last_slash p) p) = false.
Proof.
  induction p as [|c p IH]; [done|]. simpl.
  destruct (after_last_slash p) as [|k].
  - simpl in IH. destruct (Ascii.eqb c "/") eqn:Hc; [done|].
    simpl sdrop. by rewrite contains_slash_cons, Hc, IH.
  - exact IH.
Qed.

Lemma substring_no_slash n m s :
  contains "/" s = false → contains "/" (String.substring n m s) = false.
Proof.
  revert n m; induction s as [|c s IH]; intros n m.
  - by destruct n, m.
  - rewrite contains_slash_cons. intros [Hc Hs]%orb_false_elim.
    destruct n as [|n]; simpl; [|by apply IH].
    destruct m as [|m]; [done|]. by rewrite contains_slash_cons, Hc, IH.
Qed.

Lemma path_split_tail p :
  (path_split p).2 = sdrop (after_last_slash p) p.
Proof.
  unfold path_split. simpl. rewrite slice_from_sdrop by lia. by rewrite Nat2Z.id.
Qed.

Lemma last_component_no_slash video_url :
  contains "/" (Fetcher.last_component video_url) = false.
Proof.
  unfold Fetcher.last_component.
  destruct (path_split video_url) as [host video_id] eqn:Hsplit.
  destruct (len video_id =? 0).
  - rewrite path_split_tail. apply tail_no_slash.
  - replace video_id with (path_split video_url).2 by by rewrite Hsplit.
    rewrite path_split_tail. apply tail_no_slash.
Qed.

(** The component selected from [host/comp] is [comp]. *)
Lemma last_component_app host comp :
  contains "/" comp = false → comp ≠ "" →
  Fetcher.last_component (host +:+ "/" +:+ comp) = comp.
Proof.
  intros Hcomp Hne. unfold Fetcher.last_component.
  destruct (path_split (host +:+ "/" +:+ comp)) as [h video_id] eqn:Hsplit.
  assert (video_id = comp) as ->.
  { replace video_id with (path_split (host +:+ "/" +:+ comp)).2 by by rewrite Hsplit.
    rewrite path_split_tail, after_last_slash_app by done.
    clear. induction host as [|c host IH]; [done | exact IH]. }
  destruct (Z.eqb_spec (len comp) 0) as [Hz|_]; [|done].
  destruct comp; [done|]. unfold len in Hz. simpl in Hz. lia.
Qed.

Lemma append_assoc a b c : (a +:+ b) +:+ c = a +:+ b +:+ c.
Proof.
  induction a as [|x a IH]; [done|].
  change (String x ((a +:+ b) +:+ c) = String x (a +:+ b +:+ c)). by rewrite IH.
Qed.

(** *** Trailing slashes *)

Lemma after_last_slash_slashes s sl :
  all_slash sl = true → sl ≠ "" →
  after_last_slash (s +:+ sl) = String.length (s +:+ sl).
Proof.
  intros Hsl Hne. induction s as [|c s IH].
  - change ("" +:+ sl) with sl. clear Hne.
    induction sl as [|d sl IH]; [done|]. simpl in Hsl.
    apply andb_prop in Hsl as [Hd Hsl]. simpl. rewrite Hd.
    destruct sl as [|d' sl]; [done|]. by rewrite (IH Hsl).
  - change (String c s +:+ sl) with (String c (s +:+ sl)). simpl. rewrite IH.
    destruct (s +:+ sl) eqn:Hs; [|done]. destruct s; [|done]. by destruct sl.
Qed.

Lemma rstrip_slash_slashes s sl :
  all_slash sl = true → rstrip_slash (s +:+ sl) = rstrip_slash s.
Proof.
  intros Hsl. induction s as [|c s IH].
  - change ("" +:+ sl) with sl. induction sl as [|d sl IH]; [done|].
    simpl in Hsl. apply andb_prop in Hsl as [Hd Hsl]. simpl. by rewrite (IH Hsl), Hd.
  - change (String c s +:+ sl) with (String c (s +:+ sl)). simpl. by rewrite IH.
Qed.

Lemma rstrip_slash_component comp :
  contains "/" comp = false → rstrip_slash comp = comp.
Proof.
  induction comp as [|c comp IH]; [done|]. rewrite contains_slash_cons.
  intros [Hc Hcomp]%orb_false_elim. simpl. rewrite (IH Hcomp), Hc. by destruct comp.
Qed.

Lemma rstrip_slash_app s comp :
  contains "/" comp = false → comp ≠ "" → rstrip_slash (s +:+ comp) = s +:+ comp.
Proof.
  intros Hcomp Hne. induction s as [|c s IH]; [by apply rstrip_slash_component|].
  change (String c s +:+ comp) with (String c (s +:+ comp)). simpl. rewrite IH.
  destruct (s +:+ comp) eqn:Hs; [|done]. destruct s; [|done]. by destruct comp.
Qed.

(** The component selected from [host/comp] followed by slashes is
    [comp]. *)
Lemma last_component_trailing host comp sl :
  contains "/" comp = false → comp ≠ "" → all_slash sl = true →
  Fetcher.last_component (host +:+ "/" +:+ comp +:+ sl) = comp.
Proof.
  intros Hcomp Hne Hsl. destruct sl as [|d sl'] eqn:Hd.
  { rewrite append_empty_r. by apply last_component_app. }
  rewrite <- Hd in *. assert (sl ≠ "") as Hsl' by (by rewrite Hd). clear Hd.
  set (p := host +:+ "/" +:+ comp).
  assert (host +:+ "/" +:+ comp +:+ sl = p +:+ sl) as ->.
  { unfold p. by rewrite !append_assoc. }
  unfold Fetcher.last_component, path_split.
  rewrite after_last_slash_slashes by done.
  fold (len (p +:+ sl)). rewrite slice_whole.
  assert (slice_from (p +:+ sl) (len (p +:+ sl)) = "") as ->.
  { rewrite slice_from_sdrop by (unfold len; lia). unfold len. rewrite Nat2Z.id.
    apply sdrop_ge. lia. }
  rewrite rstrip_slash_slashes by done.
  assert (rstrip_slash p = p) as Hp.
  { unfold p. rewrite <- append_assoc. by apply rstrip_slash_app. }
  rewrite Hp. assert (p ≠ "") as Hpne by (unfold p; by destruct host).
  destruct p as [|c p'] eqn:Hpeq; [done|]. rewrite <- Hpeq. simpl (len "" =? 0).
  cbv iota. rewrite slice_from_sdrop by lia. rewrite Nat2Z.id.
  unfold p. rewrite after_last_slash_app by done.
  clear. induction host as [|c host IH]; [done | exact IH].
Qed.

End PyFacts.

(** ** Facts about download_videos.py *)

Module FetcherFacts.
Import Fetcher PyFacts.

Lemma find_ge sub s : -1 ≤ find sub s.
Proof.
  pose proof (find_from_after sub s 0) as H. unfold find.
  destruct (after sub s); [destruct H as (k & -> & _)|]; lia.
Qed.

Lemma find_not_found sub s : contains sub s = false → find sub s = -1.
Proof.
  intros H%contains_after. pose proof (find_from_after sub s 0) as H'.
  by rewrite H in H'.
Qed.

(** C10: for a YouTube URL in which no '&' follows the first "v=",
    [_get_youtube_video_id] returns the empty string, and so the
    [video_name] that [main] derives for a row with that URL is
    empty. *)
Theorem get_youtube_video_id_no_ampersand (video_url : string) :
  contains "youtube" video_url = true →
  0 ≤ find "v=" video_url →
  contains "&" (slice_from video_url (find "v=" video_url + len "v=")) = false →
  _get_youtube_video_id video_url = Ok ""
  ∧ ∀ (r : video) (w : world),
      Fetcher.video_url r = video_url →
      apply_video_name _get_youtube_video_id [r] w = (Ok [set_video_name "" r], w).
Proof.
  intros Hyt Hfound Hamp.
  assert (_get_youtube_video_id video_url = Ok "") as Hid.
  { unfold _get_youtube_video_id. rewrite Hyt. simpl negb. cbv iota.
    set (video_id := last_component video_url).
    assert (contains "&" (slice_from video_id (find "v=" video_id + len "v=")) = false)
      as Hfree.
    { pose proof (find_from_after "v=" video_url 0) as H.
      fold (find "v=" video_url) in H.
      destruct (after "v=" video_url) as [post|] eqn:Hpost; [|lia].
      destruct H as (k & Hk & ->).
      apply (component_amp_free _ _ Hpost).
      rewrite Hk, slice_from_sdrop in Hamp by (unfold len; lia).
      replace (Z.to_nat (0 + Z.of_nat k + len "v=")) with (k + String.length "v=")%nat
        in Hamp by (unfold len; simpl; lia).
      done. }
    rewrite (find_not_found _ _ Hfree). f_equal.
    pose proof (find_ge "v=" video_id).
    apply slice_empty; unfold len; simpl; lia. }
  split; [done|]. intros r w <-. simpl. by rewrite Hid.
Qed.

Lemma get_youtube_video_id_no_ampersand_witness :
  _get_youtube_video_id "https://www.youtube.com/watch?v=abc123" = Ok ""
  ∧ ∀ (r : video) (w : world),
      Fetcher.video_url r = "https://www.youtube.com/watch?v=abc123" →
      apply_video_name _get_youtube_video_id [r] w = (Ok [set_video_name "" r], w).
Proof.
  apply get_youtube_video_id_no_ampersand;
    [reflexivity | by vm_compute | reflexivity].
Defined.

(** *** The scan of the output root *)

Ltac run :=
  repeat (progress (simpl in *; unfold mbind, M_bind, mret, M_ret, modify, gets, raise in *)).

Lemma set_videos_id w : set_videos (videos w) w = w.
Proof. by destruct w. Qed.

Definition mark_row (video_file : string) (r : video) : video :=
  if decide (video_name r = split_head "." video_file) then set_download true r else r.

(** Whether some name of [files] has the stem [name]. *)
Definition stem_among (name : string) (files : list string) : bool :=
  bool_decide (Exists (λ f, name = split_head "." f) files).

Lemma for_files_true files w :
  for_files true files w
  = (Ok tt, set_videos (foldl (λ vs f, mark f vs) (videos w) files) w).
Proof.
  revert w; induction files as [|f files IH]; intros w; run.
  - by rewrite set_videos_id.
  - by rewrite IH.
Qed.


Lemma for_dirs_true dirs w :
  for_dirs true dirs w
  = (Ok tt, set_videos (foldl (λ vs f, mark f vs) (videos w) (dirs.*2 ≫= id)) w).
Proof.
  revert w; induction dirs as [|[d files] dirs IH]; intros w; run.
  - by rewrite set_videos_id.
  - rewrite for_files_true, IH. simpl. by rewrite foldl_app.
Qed.

Lemma mark_rows files vs :
  foldl (λ vs f, mark f vs) vs files
  = (λ r, foldl (λ r f, mark_row f r) r files) <$> vs.
Proof.
  revert vs; induction files as [|f files IH]; intros vs; simpl.
  - by rewrite list_fmap_id.
  - rewrite IH. unfold mark. by rewrite <- list_fmap_compose.
Qed.

Lemma mark_row_all files r :
  foldl (λ r f, mark_row f r) r files
  = set_download (download r || stem_among (video_name r) files) r.
Proof.
  revert r; induction files as [|f files IH]; intros r; simpl.
  - unfold stem_among. rewrite bool_decide_eq_false_2 by (by intros ?%Exists_nil).
    rewrite orb_false_r. by destruct r.
  - rewrite IH. unfold mark_row, stem_among.
    destruct (decide (video_name r = split_head "." f)) as [Heq|Hne]; simpl.
    + rewrite bool_decide_eq_true_2 by (by left).
      by rewrite orb_true_r.
    + destruct r as [? ? ? ? ? name d]; simpl in *. unfold set_download; simpl.
      do 2 f_equal. apply bool_decide_ext. rewrite Exists_cons. tauto.
Qed.

Lemma elem_of_entries (t : gmap string (list string)) f :
  f ∈ (map_to_list t).*2 ≫= id ↔ ∃ d files, t !! d = Some files ∧ f ∈ files.
Proof.
  rewrite list_elem_of_bind. split.
  - intros (files & Hf & ([d files'] & -> & Hd)%list_elem_of_fmap).
    apply elem_of_map_to_list in Hd. by exists d, files'.
  - intros (d & files & Hd & Hf). exists files. split; [done|].
    apply list_elem_of_fmap. exists (d, files). split; [done|].
    by apply elem_of_map_to_list.
Qed.

(** The scan, in a world whose output root exists. *)
Lemma check_downloaded_true w (t : gmap string (list string)) :
  output_root w = Some t →
  check_downloaded true w
  = (Ok tt,
     set_videos ((λ r, set_download (stem_among (video_name r) ((map_to_list t).*2 ≫= id)) r)
                   <$> videos w) w).
Proof.
  intros Hroot. unfold check_downloaded. run. rewrite Hroot.
  rewrite for_dirs_true. simpl. rewrite mark_rows, <- list_fmap_compose.
  f_equal. unfold set_videos. simpl. f_equal.
  apply list_fmap_ext. intros _ r _. simpl. by rewrite mark_row_all.
Qed.

Lemma stem_among_entries (t : gmap string (list string)) name :
  stem_among name ((map_to_list t).*2 ≫= id) = true
  ↔ ∃ d files video_file,
      t !! d = Some files ∧ video_file ∈ files ∧ name = split_head "." video_file.
Proof.
  unfold stem_among. rewrite bool_decide_eq_true, Exists_exists. split.
  - intros (f & (d & files & Hd & Hf)%elem_of_entries & Heq). by exists d, files, f.
  - intros (d & files & f & Hd & Hf & Heq). exists f. split; [|done].
    apply elem_of_entries. by exists d, files.
Qed.


(** A ledger of two classes whose file holds a stale [download] column,
    and an output root where the file of the second class sits in the
    directory of the first. *)
Definition sample_videos : list video :=
  [Video 0 "cat" 0 "a cat" "https://www.youtube.com/watch?v=c1&t=1" "c1" true;
   Video 1 "dog" 0 "a dog" "https://www.youtube.com/watch?v=d1&t=1" "d1" false].

Definition sample_root : gmap string (list string) := {[ "0" := ["d1.mp4"] ]}.

Definition sample_world : world :=
  World sample_videos (Some sample_root) [] [] (Csv sample_videos true).


Example check_downloaded_sample :
  download <$> videos (check_downloaded true sample_world).2 = [false; true].
Proof. reflexivity. Qed.

(** *** Rows of a class and their count *)

(** The number of rows of class [cid] marked as downloaded. *)
Definition downloaded (cid : Z) (vs : list video) : Z :=
  sum_download (by_class cid vs).

Lemma by_class_spec cid vs i r :
  (i, r) ∈ by_class cid vs ↔ vs !! i = Some r ∧ class_id r = cid.
Proof.
  unfold by_class. rewrite list_elem_of_filter, elem_of_lookup_imap. simpl.
  split.
  - intros (Hc & j & y & [= -> ->] & Hj). done.
  - intros [Hi Hc]. split; [done|]. by exists i, r.
Qed.

Lemma imap_pair_fst {A B} (g : nat → B) (l : list A) :
  (imap (λ i x, (g i, x)) l).*1 = g <$> seq 0 (length l).
Proof.
  revert g; induction l as [|x l IH]; intros g; [done|].
  simpl. f_equal. etrans; [exact (IH (g ∘ S))|].
  by rewrite <- fmap_S_seq, <- list_fmap_compose.
Qed.

Lemma by_class_NoDup cid vs : NoDup (by_class cid vs).*1.
Proof.
  assert ((imap pair vs).*1 = seq 0 (length vs)) as Hseq.
  { pose proof (imap_pair_fst id vs) as H. by rewrite list_fmap_id in H. }
  unfold by_class. apply (sublist_NoDup _ (imap pair vs).*1).
  - rewrite Hseq. apply NoDup_seq.
  - apply fmap_sublist, sublist_filter.
Qed.

Definition count_row (cid : Z) (r : video) : Z :=
  if decide (class_id r = cid) then Z.b2z (download r) else 0.

Lemma downloaded_sum cid vs :
  downloaded cid vs = foldr (λ r acc, count_row cid r + acc) 0 vs.
Proof.
  unfold downloaded, by_class.
  change pair with (λ (i : nat) (x : video), (id i, x)).
  generalize (@id nat). induction vs as [|r vs IH]; intros g; [done|].
  simpl. rewrite filter_cons. unfold count_row at 1. simpl.
  destruct (decide (class_id r = cid)); simpl; [f_equal|]; exact (IH (g ∘ S)).
Qed.

Lemma count_row_bounds cid r : 0 ≤ count_row cid r ≤ 1.
Proof. unfold count_row. destruct (decide _), (download r); simpl; lia. Qed.


Lemma downloaded_alter_le cid d i vs :
  downloaded cid (alter (set_download d) i vs) ≤ downloaded cid vs + Z.b2z d.
Proof.
  rewrite !downloaded_sum. revert i; induction vs as [|r vs IH]; intros i.
  - simpl. destruct d; simpl; lia.
  - destruct i as [|i]; simpl.
    + unfold count_row at 1 3; simpl.
      destruct (decide _), d, (download r); simpl; lia.
    + specialize (IH i). unfold alter in IH. lia.
Qed.

Lemma downloaded_alter_other cid d i r vs :
  vs !! i = Some r → class_id r ≠ cid →
  downloaded cid (alter (set_download d) i vs) = downloaded cid vs.
Proof.
  rewrite !downloaded_sum. revert i; induction vs as [|r' vs IH]; intros i Hi Hc; [done|].
  destruct i as [|i]; simpl in *.
  - injection Hi as ->. unfold count_row at 1 3; simpl. by rewrite !decide_False.
  - f_equal. by apply IH.
Qed.

Lemma downloaded_alter_exact cid d i r vs :
  vs !! i = Some r → class_id r = cid → download r = false →
  downloaded cid (alter (set_download d) i vs) = downloaded cid vs + Z.b2z d.
Proof.
  rewrite !downloaded_sum.
  revert i; induction vs as [|r' vs IH]; intros i Hi Hc Hd; [done|].
  destruct i as [|i]; simpl in *.
  - injection Hi as ->. unfold count_row at 1 3; simpl.
    rewrite !decide_True by done. rewrite Hd. simpl. lia.
  - specialize (IH i Hi Hc Hd). unfold alter in IH. lia.
Qed.

Lemma set_download_id r : set_download (download r) r = r.
Proof. by destruct r. Qed.

Lemma elem_of_fst_rows (rows : list (nat * video)) i row :
  (i, row) ∈ rows → i ∈ rows.*1.
Proof. intros H. apply list_elem_of_fmap. by exists (i, row). Qed.

Lemma alter_fixed {A} (f : A → A) (l : list A) i x :
  l !! i = Some x → f x = x → alter f i l = l.
Proof.
  intros Hi Hf. apply list_eq. intros j. destruct (decide (i = j)) as [<-|Hne].
  - by rewrite list_lookup_alter_eq, Hi; simpl; rewrite Hf.
  - by rewrite list_lookup_alter_ne.
Qed.


(** [marks r r']: [r'] is [r] with its flag possibly raised. *)
Definition marks (r r' : video) : Prop :=
  r' = set_download (download r') r ∧ (download r = true → download r' = true).

Lemma marks_refl r : marks r r.
Proof. split; [by rewrite set_download_id | done]. Qed.

Lemma marks_trans r1 r2 r3 : marks r1 r2 → marks r2 r3 → marks r1 r3.
Proof.
  intros [H12 H12'] [H23 H23']. split; [|auto].
  rewrite H23 at 1. rewrite H12. done.
Qed.

Lemma marks_class_id r r' : marks r r' → class_id r' = class_id r.
Proof. by intros [-> _]. Qed.

Lemma Forall2_marks_refl vs : Forall2 marks vs vs.
Proof. apply Forall_Forall2_diag, Forall_forall. intros. apply marks_refl. Qed.

Lemma Forall2_marks_trans vs1 vs2 vs3 :
  Forall2 marks vs1 vs2 → Forall2 marks vs2 vs3 → Forall2 marks vs1 vs3.
Proof.
  intros H12. revert vs3. induction H12 as [|r1 r2 l1 l2 Hr _ IH]; intros vs3 H23.
  - by inversion H23.
  - inversion H23 as [|? r3 ? l3 Hr' Hl']; subst. constructor; [|by apply IH].
    by eapply marks_trans.
Qed.

(** Rows that agree on a class have the same count for it. *)
Lemma downloaded_agree cid vs vs' :
  Forall2 (λ r r', class_id r' = class_id r ∧ (class_id r = cid → r' = r)) vs vs' →
  downloaded cid vs' = downloaded cid vs.
Proof.
  rewrite !downloaded_sum. induction 1 as [|r r' l l' [Hc Hr] _ IH]; [done|].
  simpl. rewrite IH. f_equal. unfold count_row. rewrite Hc.
  case_decide; [by rewrite Hr|done].
Qed.

(** *** The download loop *)

Section Loop.

Variable yt bl : string → string → string → list string → bool * list string.

(** The primitive a platform name selects, with the file name it is
    given for a row. *)
Definition chosen (platform ext : string) (row : video)
    : option ((string → string → string → list string → bool * list string) * string) :=
  if decide (platform = "youtube") then Some (yt, video_name row +:+ ext)
  else if decide (platform = "bilibili") then Some (bl, video_name row)
  else None.

Lemma attempt_eq platform ext dir i row :
  attempt yt bl platform ext dir i row
  = match chosen platform ext row with
    | Some (prim, video_file) => call prim i (video_url row) video_file dir
    | None => raise UnboundLocalError
    end.
Proof. unfold attempt, chosen. by repeat case_decide. Qed.

Lemma call_videos prim i u f dir w : videos (call prim i u f dir w).2 = videos w.
Proof. unfold call. by destruct (prim _ _ _ _). Qed.

Lemma attempt_videos platform ext dir i row w :
  videos (attempt yt bl platform ext dir i row w).2 = videos w.
Proof.
  rewrite attempt_eq. destruct (chosen _ _ _) as [[prim f]|]; [|done].
  apply call_videos.
Qed.


Lemma iterrows_nil cap platform ext dir c w :
  iterrows yt bl cap platform ext dir [] c w = (Ok c, w).
Proof. done. Qed.

Lemma iterrows_cons cap platform ext dir i row rows c w :
  iterrows yt bl cap platform ext dir ((i, row) :: rows) c w
  = if cap_reached cap c then (Ok c, w)
    else if download row then iterrows yt bl cap platform ext dir rows c w
    else match attempt yt bl platform ext dir i row w with
         | (Ok d, w1) =>
             iterrows yt bl cap platform ext dir rows (c + Z.b2z d)
               (set_videos (alter (set_download d) i (videos w1)) w1)
         | (Raise e, w1) => (Raise e, w1)
         end.
Proof.
  simpl. destruct (cap_reached cap c); [done|]. destruct (download row); [done|].
  unfold mbind, M_bind at 1. destruct (attempt _ _ _ _ _ _ _ _) as [[d|e] w1]; done.
Qed.

(** The tracked count bounds the rows marked, and is itself bounded
    by the cap or by where it started. *)
Lemma iterrows_bound k platform ext dir cid rows c bound w :
  k ≤ bound → c ≤ bound → downloaded cid (videos w) ≤ c →
  downloaded cid (videos (iterrows yt bl (Some k) platform ext dir rows c w).2) ≤ bound.
Proof.
  intros Hk. revert c w. induction rows as [|[i row] rows IH]; intros c w Hc Hw.
  - rewrite iterrows_nil. simpl. lia.
  - rewrite iterrows_cons. simpl.
    destruct (Z.leb_spec k c) as [?|Hlt]; [simpl; lia|].
    destruct (download row); [by apply IH|].
    pose proof (attempt_videos platform ext dir i row w) as Hvs.
    destruct (attempt _ _ _ _ _ _ _ _) as [[d|e] w1]; simpl in Hvs.
    + apply IH; simpl.
      * destruct d; simpl; lia.
      * rewrite Hvs. pose proof (downloaded_alter_le cid d i (videos w)). lia.
    + simpl. rewrite Hvs. lia.
Qed.

(** The rows of another class are left as they are. *)
Lemma iterrows_other cap platform ext dir cid cid' rows c w :
  cid' ≠ cid →
  (∀ i row, (i, row) ∈ rows → ∃ r, videos w !! i = Some r ∧ class_id r = cid) →
  downloaded cid' (videos (iterrows yt bl cap platform ext dir rows c w).2)
  = downloaded cid' (videos w).
Proof.
  intros Hne. revert c w. induction rows as [|[i row] rows IH]; intros c w Hrows.
  - done.
  - rewrite iterrows_cons.
    assert (∀ j row', (j, row') ∈ rows →
              ∃ r, videos w !! j = Some r ∧ class_id r = cid) as Hrest.
    { intros j row' Hj. apply (Hrows j row'). by right. }
    destruct (cap_reached cap c); [done|].
    destruct (download row); [by apply IH|].
    pose proof (attempt_videos platform ext dir i row w) as Hvs.
    destruct (attempt _ _ _ _ _ _ _ _) as [[d|e] w1]; simpl in Hvs.
    + destruct (Hrows i row) as (r & Hi & Hr); [by left|].
      rewrite IH; simpl; rewrite Hvs.
      * apply (downloaded_alter_other _ _ _ r); [done | congruence].
      * intros j row' Hj. destruct (Hrest j row' Hj) as (r' & Hj' & Hr').
        destruct (decide (i = j)) as [->|Hij].
        -- rewrite list_lookup_alter_eq, Hj'. simpl. by eexists.
        -- rewrite list_lookup_alter_ne by done. by eexists.
    + simpl. by rewrite Hvs.
Qed.

Lemma makedirs_videos dir w : videos (makedirs dir w).2 = videos w.
Proof.
  unfold makedirs, modify. simpl.
  destruct (output_root w) as [t|]; [destruct (t !! dir)|]; done.
Qed.

Lemma try_rmdir_videos dir w : videos (try_rmdir dir w).2 = videos w.
Proof.
  unfold try_rmdir, modify. simpl.
  destruct (output_root w) as [t|]; [destruct (t !! dir) as [[|??]|]|]; done.
Qed.

Lemma makedirs_root_videos w : videos (makedirs_root w).2 = videos w.
Proof. unfold makedirs_root, modify. simpl. by destruct (output_root w). Qed.

Lemma rmdir_root_videos w : videos (rmdir_root w).2 = videos w.
Proof.
  unfold rmdir_root. destruct (output_root w) as [t|]; [case_decide|]; done.
Qed.

Lemma for_classes_cons cap platform ext cid_ cls_ classes count_tracker w :
  for_classes yt bl cap platform ext ((cid_, cls_) :: classes) count_tracker w
  = let videos_by_class := by_class cid_ (videos w) in
    match iterrows yt bl cap platform ext (pretty cid_) videos_by_class
            (sum_download videos_by_class) (makedirs (pretty cid_) w).2 with
    | (Ok count_by_class, w') =>
        for_classes yt bl cap platform ext classes
          (count_tracker ++ [new_record cid_ cls_ count_by_class])
          (try_rmdir (pretty cid_) w').2
    | (Raise e, w') => (Raise e, w')
    end.
Proof.
  simpl. unfold mbind, M_bind at 1 2 3. simpl.
  destruct (iterrows _ _ _ _ _ _ _ _ _) as [[c|e] w']; done.
Qed.

Lemma download_videos_eq cap platform ext w :
  download_videos yt bl cap platform ext w
  = match for_classes yt bl cap platform ext (classes_of (videos w)) []
            (makedirs_root w).2 with
    | (Ok count_tracker, w') =>
        if 0 <? total count_tracker then
          (Ok (videos w'), print count_tracker w')
        else
          match rmdir_root (print count_tracker w') with
          | (Ok _, w'') => (Ok (videos w''), w'')
          | (Raise e, w'') => (Raise e, w'')
          end
    | (Raise e, w') => (Raise e, w')
    end.
Proof.
  unfold download_videos, mbind, M_bind, gets, mret, M_ret.
  pose proof (makedirs_root_videos w) as Hvs.
  destruct (makedirs_root w) as [r w0] eqn:Hroot.
  assert (r = Ok tt) as -> by (unfold makedirs_root, modify in Hroot; congruence).
  simpl in *. rewrite Hvs.
  destruct (for_classes _ _ _ _ _ _ _ _) as [[tr|e] w']; [|done].
  unfold modify. destruct (0 <? total tr); [done|].
  by destruct (rmdir_root _) as [[[]|e] w''].
Qed.

(** What [download_videos] leaves in the frame is what its loop over
    the classes left there. *)
Lemma download_videos_videos cap platform ext w :
  videos (download_videos yt bl cap platform ext w).2
  = videos (for_classes yt bl cap platform ext (classes_of (videos w)) []
              (makedirs_root w).2).2.
Proof.
  rewrite download_videos_eq.
  destruct (for_classes _ _ _ _ _ _ _ _) as [[tr|e] w']; [|done].
  destruct (0 <? total tr); [done|].
  pose proof (rmdir_root_videos (print tr w')) as H.
  by destruct (rmdir_root _) as [[[]|e] w''].
Qed.

Lemma for_classes_bound k platform ext cid bound classes count_tracker w :
  k ≤ bound → downloaded cid (videos w) ≤ bound →
  downloaded cid
    (videos (for_classes yt bl (Some k) platform ext classes count_tracker w).2)
  ≤ bound.
Proof.
  intros Hk. revert count_tracker w.
  induction classes as [|[cid_ cls_] classes IH]; intros tr w Hw; [done|].
  rewrite for_classes_cons. cbv zeta.
  assert (downloaded cid
            (videos (iterrows yt bl (Some k) platform ext (pretty cid_)
                       (by_class cid_ (videos w))
                       (sum_download (by_class cid_ (videos w)))
                       (makedirs (pretty cid_) w).2).2) ≤ bound) as Hpass.
  { destruct (decide (cid = cid_)) as [->|Hne].
    - apply iterrows_bound; [done|exact Hw|].
      rewrite makedirs_videos. done.
    - rewrite (iterrows_other _ _ _ _ cid_); [by rewrite makedirs_videos|done|].
      intros i row [Hi Hc]%by_class_spec. rewrite makedirs_videos. by exists row. }
  destruct (iterrows _ _ _ _ _ _ _ _ _) as [[c|e] w']; [|done].
  apply IH. by rewrite try_rmdir_videos.
Qed.

(** **** The calls that a run makes *)

Definition supported (platform : string) : Prop :=
  platform = "youtube" ∨ platform = "bilibili".

(** What the primitive chosen for [row] answers in a directory that
    holds [entries]. *)
Definition outcome_at (platform ext dir : string) (entries : list string)
    (row : video) : bool :=
  match chosen platform ext row with
  | Some (prim, video_file) => (prim (video_url row) video_file dir entries).1
  | None => false
  end.

Lemma outcome_at_set_download platform ext dir entries d row :
  outcome_at platform ext dir entries (set_download d row)
  = outcome_at platform ext dir entries row.
Proof. done. Qed.

Lemma attempt_supported platform ext dir i row w :
  supported platform →
  ∃ d w1, attempt yt bl platform ext dir i row w = (Ok d, w1)
        ∧ videos w1 = videos w
        ∧ ∃ entries, d = outcome_at platform ext dir entries row.
Proof.
  intros Hp. rewrite attempt_eq. unfold outcome_at.
  destruct (chosen platform ext row) as [[prim f]|] eqn:Hch.
  - unfold call. set (es := default [] _).
    destruct (prim (video_url row) f dir es) as [d es'] eqn:Hprim.
    eexists _, _. split; [done|]. split; [done|]. exists es. by rewrite Hprim.
  - unfold chosen in Hch. destruct Hp as [-> | ->]; by repeat case_decide.
Qed.


(** Every call of a pass is made for a row that the copy of the frame
    shows as not downloaded. *)
Lemma iterrows_requests cap platform ext dir rows c w :
  ∃ new, requests (iterrows yt bl cap platform ext dir rows c w).2 = requests w ++ new
       ∧ Forall (λ q, ∃ row, (req_index q, row) ∈ rows ∧ download row = false
                           ∧ req_dir q = dir) new.
Proof.
  revert c w. induction rows as [|[i row] rows IH]; intros c w.
  - exists []. by rewrite app_nil_r.
  - rewrite iterrows_cons.
    assert (∀ new : list request,
              Forall (λ q, ∃ row, (req_index q, row) ∈ rows ∧ download row = false
                                ∧ req_dir q = dir) new →
              Forall (λ q, ∃ row0, (req_index q, row0) ∈ (i, row) :: rows
                                 ∧ download row0 = false ∧ req_dir q = dir) new)
      as Hweaken.
    { intros new Hall. eapply Forall_impl; [exact Hall|].
      intros q (row0 & Hq & Hd). exists row0. split; [by right|done]. }
    destruct (cap_reached cap c); [exists []; by rewrite app_nil_r|].
    destruct (download row) eqn:Hrow.
    { destruct (IH c w) as (new & Hnew & Hall). exists new. auto. }
    rewrite attempt_eq. destruct (chosen _ _ _) as [[prim f]|];
      [|exists []; by rewrite app_nil_r].
    unfold call. destruct (prim _ _ _ _) as [d es'].
    match goal with |- context [iterrows _ _ _ _ _ _ _ ?c' ?w'] =>
      destruct (IH c' w') as (new & Hnew & Hall) end.
    exists (Request i (video_url row) f dir d :: new). split.
    + rewrite Hnew. simpl. by rewrite <- app_assoc.
    + constructor; [|auto]. exists row. simpl. split; [by left|done].
Qed.

(** A pass over the rows of a class, on a supported platform: it ends
    without an exception; the count it returns has grown by the
    number of rows newly marked; rows outside the pass are not
    touched; a row marked as downloaded stays so; and unless the cap
    stopped the pass, every row that was not downloaded carries the
    answer of its primitive. *)
Lemma iterrows_settles cap platform ext dir cid rows c w :
  supported platform →
  NoDup rows.*1 →
  (∀ i row, (i, row) ∈ rows → videos w !! i = Some row ∧ class_id row = cid) →
  ∃ c' w',
    iterrows yt bl cap platform ext dir rows c w = (Ok c', w')
    ∧ c ≤ c'
    ∧ c' - c = downloaded cid (videos w') - downloaded cid (videos w)
    ∧ (∀ j, j ∉ rows.*1 → videos w' !! j = videos w !! j)
    ∧ (∀ i row, (i, row) ∈ rows →
         ∃ d, videos w' !! i = Some (set_download d row)
            ∧ (download row = true → d = true)
            ∧ (cap_reached cap c' = false → download row = false →
               ∃ entries, d = outcome_at platform ext dir entries row)).
Proof.
  intros Hp. revert c w.
  induction rows as [|[i row] rows IH]; intros c w Hnd Hsnap.
  { exists c, w. repeat split; [lia..|]. intros i row []%elem_of_nil. }
  apply NoDup_cons in Hnd as [Hi Hnd]. simpl in Hi.
  destruct (Hsnap i row) as [Hrow Hcid]; [by left|].
  rewrite iterrows_cons.
  destruct (cap_reached cap c) eqn:Hcap.
  { exists c, w. repeat split; [lia..|]. intros i0 row0 Hin.
    exists (download row0). rewrite set_download_id.
    split; [by apply Hsnap|]. split; [done|congruence]. }
  destruct (download row) eqn:Hdl.
  { destruct (IH c w Hnd) as (c' & w' & -> & Hle & Hcount & Hframe & Hrows).
    { intros j row' Hj. apply Hsnap. by right. }
    exists c', w'. repeat split; [done..| |].
    - intros j Hj. apply Hframe. intros Hj'. apply Hj. by right.
    - intros i0 row0 [[= -> ->]|Hin]%elem_of_cons; [|by apply Hrows].
      exists true. rewrite Hframe, Hrow by done.
      rewrite <- Hdl at 1. rewrite set_download_id.
      split; [done|]. split; [done|congruence]. }
  destruct (attempt_supported platform ext dir i row w Hp)
    as (d & w1 & -> & Hvs & es & Hd).
  set (w2 := set_videos (alter (set_download d) i (videos w1)) w1).
  assert (∀ j, j ≠ i → videos w2 !! j = videos w !! j) as Hother.
  { intros j Hj. simpl. rewrite Hvs. by apply list_lookup_alter_ne. }
  assert (videos w2 !! i = Some (set_download d row)) as Hhead.
  { simpl. rewrite Hvs, list_lookup_alter_eq, Hrow. done. }
  destruct (IH (c + Z.b2z d) w2 Hnd) as (c' & w' & -> & Hle & Hcount & Hframe & Hrows).
  { intros j row' Hj. rewrite Hother.
    - apply Hsnap. by right.
    - intros ->. by apply Hi, (elem_of_fst_rows _ _ row'). }
  exists c', w'. split; [done|]. split; [destruct d; simpl in *; lia|].
  split.
  { assert (downloaded cid (videos w2) = downloaded cid (videos w) + Z.b2z d) as Hw2.
    { simpl. rewrite Hvs. by apply (downloaded_alter_exact _ _ _ row). }
    lia. }
  split.
  - intros j Hj. rewrite Hframe.
    + apply Hother. intros ->. apply Hj. by left.
    + intros Hj'. apply Hj. by right.
  - intros i0 row0 [[= -> ->]|Hin]%elem_of_cons; [|by apply Hrows].
    exists d. rewrite Hframe, Hhead by done.
    split; [done|]. split; [congruence|]. intros _ _. by exists es.
Qed.

Lemma iterrows_length cap platform ext dir rows c w :
  length (videos (iterrows yt bl cap platform ext dir rows c w).2) = length (videos w).
Proof.
  revert c w. induction rows as [|[i row] rows IH]; intros c w; [done|].
  rewrite iterrows_cons. destruct (cap_reached cap c); [done|].
  destruct (download row); [apply IH|].
  pose proof (attempt_videos platform ext dir i row w) as Hvs.
  destruct (attempt _ _ _ _ _ _ _ _) as [[d|e] w1]; simpl in Hvs.
  - rewrite IH. simpl. by rewrite length_alter, Hvs.
  - simpl. by rewrite Hvs.
Qed.

(** **** Primitives whose answer does not depend on the directory *)

Definition deterministic
    (prim : string → string → string → list string → bool * list string) : Prop :=
  ∀ u f dir entries entries', (prim u f dir entries).1 = (prim u f dir entries').1.

Lemma outcome_at_deterministic platform ext dir entries entries' row :
  deterministic yt → deterministic bl →
  outcome_at platform ext dir entries row = outcome_at platform ext dir entries' row.
Proof.
  intros Hyt Hbl. unfold outcome_at, chosen. repeat case_decide; auto.
Qed.

(** A pass that has nothing to gain changes nothing: the cap is
    reached, or every row still to fetch is one its primitive
    fails on. *)
Lemma iterrows_stable cap platform ext dir rows c w :
  supported platform → deterministic yt → deterministic bl →
  (∀ i row, (i, row) ∈ rows → videos w !! i = Some row) →
  cap_reached cap c = true
  ∨ (∀ i row, (i, row) ∈ rows → download row = false →
       outcome_at platform ext dir [] row = false) →
  ∃ w', iterrows yt bl cap platform ext dir rows c w = (Ok c, w')
      ∧ videos w' = videos w.
Proof.
  intros Hp Hyt Hbl. revert w.
  induction rows as [|[i row] rows IH]; intros w Hsnap Hq; [by exists w|].
  rewrite iterrows_cons.
  destruct (cap_reached cap c) eqn:Hcap; [by exists w|].
  destruct Hq as [?|Hq]; [done|].
  destruct (download row) eqn:Hdl.
  { apply IH; [intros j row' Hj; apply Hsnap; by right|].
    right. intros j row' Hj. apply (Hq j). by right. }
  destruct (attempt_supported platform ext dir i row w Hp)
    as (d & w1 & -> & Hvs & es & Hd).
  rewrite (outcome_at_deterministic _ _ _ _ [] _ Hyt Hbl) in Hd.
  rewrite (Hq i row) in Hd by (done || by left).
  subst d. simpl. rewrite Z.add_0_r.
  assert (alter (set_download false) i (videos w1) = videos w) as Hsame.
  { rewrite Hvs. apply (alter_fixed _ _ _ row); [apply Hsnap; by left|].
    rewrite <- Hdl. apply set_download_id. }
  rewrite Hsame.
  destruct (IH (set_videos (videos w) w1)) as (w' & -> & Hw').
  - intros j row' Hj. simpl. apply Hsnap. by right.
  - right. intros j row' Hj. apply (Hq j). by right.
  - by exists w'.
Qed.

(** **** A class that a further pass cannot change *)

Definition settled (cap : option Z) (platform ext : string) (cid : Z)
    (vs : list video) : Prop :=
  cap_reached cap (downloaded cid vs) = true
  ∨ ∀ i r, vs !! i = Some r → class_id r = cid → download r = false →
      outcome_at platform ext (pretty cid) [] r = false.

(** The pass over one class, started in any world that holds the
    frame the copy was taken from. *)
Lemma pass_spec cap platform ext cid_ w w0 :
  supported platform →
  videos w0 = videos w →
  let rows := by_class cid_ (videos w) in
  ∃ c' w',
    iterrows yt bl cap platform ext (pretty cid_) rows (sum_download rows) w0
    = (Ok c', w')
    ∧ c' = downloaded cid_ (videos w')
    ∧ Forall2 (λ r r', marks r r' ∧ (class_id r ≠ cid_ → r' = r))
        (videos w) (videos w')
    ∧ (deterministic yt → deterministic bl →
       settled cap platform ext cid_ (videos w')
       ∧ (settled cap platform ext cid_ (videos w) → videos w' = videos w)).
Proof.
  intros Hp Hw0 rows.
  assert (∀ i row, (i, row) ∈ rows → videos w0 !! i = Some row ∧ class_id row = cid_)
    as Hsnap.
  { intros i row Hin%by_class_spec. by rewrite Hw0. }
  destruct (iterrows_settles cap platform ext (pretty cid_) cid_ rows
              (sum_download rows) w0 Hp (by_class_NoDup _ _) Hsnap)
    as (c' & w' & Hrun & Hle & Hcount & Hframe & Hrows).
  exists c', w'. split; [done|].
  assert (c' = downloaded cid_ (videos w')) as Hc'.
  { assert (sum_download rows = downloaded cid_ (videos w)) as Hsum by done.
    rewrite Hw0 in Hcount. lia. }
  assert (Forall2 (λ r r', marks r r' ∧ (class_id r ≠ cid_ → r' = r))
            (videos w) (videos w')) as Hmarks.
  { apply Forall2_same_length_lookup. split.
    { pose proof (iterrows_length cap platform ext (pretty cid_) rows
                    (sum_download rows) w0) as Hlen.
      rewrite Hrun in Hlen. simpl in Hlen. by rewrite Hlen, Hw0. }
    intros i r r' Hr Hr'. destruct (decide (class_id r = cid_)) as [Hc|Hc].
    - destruct (Hrows i r) as (d & Hd & Hmono & _); [by apply by_class_spec|].
      rewrite Hr' in Hd. injection Hd as ->. split; [|done]. by split.
    - rewrite Hframe, Hw0, Hr in Hr'.
      + injection Hr' as <-. split; [apply marks_refl|done].
      + intros (ir & -> & Hin)%list_elem_of_fmap. destruct ir as [j row].
        apply by_class_spec in Hin as [Hj Hrow]. simpl in *. congruence. }
  split; [done|]. split; [done|]. intros Hyt Hbl. split.
  - destruct (cap_reached cap c') eqn:Hcap; [left; by rewrite <- Hc'|].
    right. intros i r' Hr' Hcid Hdl.
    destruct (Forall2_lookup_r _ _ _ _ _ Hmarks Hr') as (r & Hr & Hm & _).
    destruct (Hrows i r) as (d & Hd & Hmono & Hout).
    { apply by_class_spec. split; [done|]. by rewrite <- (marks_class_id r r'). }
    rewrite Hr' in Hd. injection Hd as ->. simpl in Hdl. subst d.
    destruct (download r) eqn:Hr0; [by specialize (Hmono eq_refl)|].
    destruct (Hout eq_refl eq_refl) as (es & Hes).
    rewrite outcome_at_set_download.
    by rewrite (outcome_at_deterministic _ _ _ [] es).
  - intros Hset.
    destruct (iterrows_stable cap platform ext (pretty cid_) rows
                (sum_download rows) w0 Hp Hyt Hbl) as (w'' & Hrun' & Hw'').
    + intros i row Hin. by apply Hsnap.
    + destruct Hset as [Hcap|Hall]; [by left|]. right.
      intros i row [Hi Hc]%by_class_spec Hdl. by apply (Hall i).
    + rewrite Hrun in Hrun'. injection Hrun' as _ <-. by rewrite Hw''.
Qed.

Lemma makedirs_frame dir w :
  requests (makedirs dir w).2 = requests w ∧ stdout (makedirs dir w).2 = stdout w.
Proof.
  unfold makedirs, modify. simpl.
  destruct (output_root w) as [t|]; [destruct (t !! dir)|]; done.
Qed.

Lemma try_rmdir_frame dir w :
  requests (try_rmdir dir w).2 = requests w ∧ stdout (try_rmdir dir w).2 = stdout w.
Proof.
  unfold try_rmdir, modify. simpl.
  destruct (output_root w) as [t|]; [destruct (t !! dir) as [[|??]|]|]; done.
Qed.

Lemma iterrows_stdout cap platform ext dir rows c w :
  stdout (iterrows yt bl cap platform ext dir rows c w).2 = stdout w.
Proof.
  revert c w. induction rows as [|[i row] rows IH]; intros c w; [done|].
  rewrite iterrows_cons. destruct (cap_reached cap c); [done|].
  destruct (download row); [apply IH|].
  rewrite attempt_eq. destruct (chosen _ _ _) as [[prim f]|]; [|done].
  unfold call. destruct (prim _ _ _ _) as [d es']. by rewrite IH.
Qed.

Lemma settled_agree cap platform ext cid vs vs' :
  Forall2 (λ r r', class_id r' = class_id r ∧ (class_id r = cid → r' = r)) vs vs' →
  settled cap platform ext cid vs → settled cap platform ext cid vs'.
Proof.
  intros Hag [Hcap|Hall]; [left; by rewrite (downloaded_agree cid vs vs')|].
  right. intros i r' Hr' Hc Hdl.
  destruct (Forall2_lookup_r _ _ _ _ _ Hag Hr') as (r & Hr & Hcr & Heq).
  assert (r' = r) as -> by (apply Heq; congruence). by apply (Hall i).
Qed.

(** The loop over the classes, on a supported platform. *)
Lemma for_classes_spec cap platform ext classes count_tracker w :
  supported platform →
  ∃ count_tracker' w',
    for_classes yt bl cap platform ext classes count_tracker w
    = (Ok count_tracker', w')
    ∧ Forall2 marks (videos w) (videos w')
    ∧ stdout w' = stdout w
    ∧ (∃ new, requests w' = requests w ++ new
            ∧ Forall (λ q, ∃ r, videos w !! req_index q = Some r
                              ∧ download r = false) new)
    ∧ (deterministic yt → deterministic bl →
       (∀ cid, settled cap platform ext cid (videos w) →
          settled cap platform ext cid (videos w')
          ∧ downloaded cid (videos w') = downloaded cid (videos w))
       ∧ (∀ cid, cid ∈ classes.*1 → settled cap platform ext cid (videos w'))
       ∧ count_tracker'
         = count_tracker
           ++ ((λ cc, new_record cc.1 cc.2 (downloaded cc.1 (videos w'))) <$> classes)
       ∧ ((∀ cid, cid ∈ classes.*1 → settled cap platform ext cid (videos w)) →
          videos w' = videos w)).
Proof.
  intros Hp. revert count_tracker w.
  induction classes as [|[cid_ cls_] classes IH]; intros tr w.
  { exists tr, w. split; [done|]. split; [apply Forall2_marks_refl|].
    split; [done|]. split; [exists []; by rewrite app_nil_r|]. intros _ _.
    split; [done|]. split; [by intros cid []%elem_of_nil|].
    split; [by rewrite app_nil_r|done]. }
  rewrite for_classes_cons. cbv zeta.
  destruct (pass_spec cap platform ext cid_ w (makedirs (pretty cid_) w).2
              Hp (makedirs_videos _ _))
    as (c' & wa & Hrun & Hc' & Hmarks & Hdet).
  rewrite Hrun.
  pose proof (iterrows_stdout cap platform ext (pretty cid_)
                (by_class cid_ (videos w)) (sum_download (by_class cid_ (videos w)))
                (makedirs (pretty cid_) w).2) as Hout.
  destruct (iterrows_requests cap platform ext (pretty cid_)
                (by_class cid_ (videos w)) (sum_download (by_class cid_ (videos w)))
                (makedirs (pretty cid_) w).2) as (new_a & Hreq & Hnew_a).
  destruct (makedirs_frame (pretty cid_) w) as [Hreq0 Hout0].
  rewrite Hrun, Hreq0 in Hreq. rewrite Hrun, Hout0 in Hout.
  simpl in Hout, Hreq.
  set (wb := (try_rmdir (pretty cid_) wa).2).
  assert (videos wb = videos wa) as Hwb by apply try_rmdir_videos.
  destruct (try_rmdir_frame (pretty cid_) wa) as [Hreqb Houtb]. fold wb in Hreqb, Houtb.
  destruct (IH (tr ++ [new_record cid_ cls_ c']) wb)
    as (tr' & w' & Hrun' & Hm' & Hout' & (new_b & Hreq' & Hnew_b) & Hdet').
  rewrite Hwb in Hm', Hdet', Hnew_b.
  assert (Forall2 marks (videos w) (videos wa)) as Hm.
  { eapply Forall2_impl; [exact Hmarks|]. by intros r r' [? _]. }
  exists tr', w'. split; [done|].
  split; [by eapply Forall2_marks_trans|].
  split; [congruence|].
  split.
  { exists (new_a ++ new_b). split.
    { rewrite Hreq', Hreqb, Hreq. by rewrite app_assoc. }
    apply Forall_app. split.
    - eapply Forall_impl; [exact Hnew_a|]. intros q (row & [Hi _]%by_class_spec & Hdl & _).
      by exists row.
    - eapply Forall_impl; [exact Hnew_b|]. intros q (rb & Hrb & Hdl).
      destruct (Forall2_lookup_r _ _ _ _ _ Hm Hrb) as (r & Hr & _ & Hmono).
      exists r. split; [done|]. destruct (download r); [|done].
      rewrite Hmono in Hdl; done. }
  intros Hyt Hbl.
  destruct (Hdet Hyt Hbl) as [Hset Hstable].
  destruct (Hdet' Hyt Hbl) as (Hpres' & Hest' & Htr' & Hstab').
  assert (∀ cid, settled cap platform ext cid (videos w) →
            settled cap platform ext cid (videos wa)
            ∧ downloaded cid (videos wa) = downloaded cid (videos w)) as Hpres.
  { intros cid Hcid. destruct (decide (cid = cid_)) as [->|Hne].
    - by rewrite (Hstable Hcid).
    - assert (Forall2 (λ r r', class_id r' = class_id r ∧ (class_id r = cid → r' = r))
                (videos w) (videos wa)) as Hag.
      { eapply Forall2_impl; [exact Hmarks|]. intros r r' [Hmk Heq]. split.
        - by apply marks_class_id.
        - intros Hc. apply Heq. congruence. }
      split; [by eapply settled_agree | by apply downloaded_agree]. }
  split.
  { intros cid Hcid. destruct (Hpres cid Hcid) as [Ha Hda].
    destruct (Hpres' cid Ha) as [Hb Hdb]. split; [done|congruence]. }
  split.
  { intros cid [->|Hin]%elem_of_cons; [by apply Hpres'|by apply Hest']. }
  split.
  { rewrite Htr', <- app_assoc. simpl. do 3 f_equal.
    destruct (Hpres' cid_ Hset) as [_ ->]. done. }
  intros Hall. rewrite Hstab'.
  - apply Hstable, Hall. by left.
  - intros cid Hin. apply Hpres; apply Hall. by right.
Qed.

(** **** A whole run *)

Lemma drop_duplicates_elem `{EqDecision K} (seen l : list K) x :
  x ∈ l → x ∈ seen ∨ x ∈ drop_duplicates seen l.
Proof.
  revert seen; induction l as [|y l IH]; intros seen; [by intros ?%elem_of_nil|].
  intros [->|Hin]%elem_of_cons; simpl.
  - case_decide; [by left | right; by left].
  - case_decide; [by apply IH|].
    destruct (IH (y :: seen) Hin) as [[->|?]%elem_of_cons|?];
      [right; by left | by left | right; by right].
Qed.

Lemma classes_of_elem vs r : r ∈ vs → class_id r ∈ (classes_of vs).*1.
Proof.
  intros Hr. unfold classes_of.
  destruct (drop_duplicates_elem [] ((λ r, (class_id r, class r)) <$> vs)
              (class_id r, class r)) as [[]%elem_of_nil|Hin].
  - apply list_elem_of_fmap. by exists r.
  - apply list_elem_of_fmap. by exists (class_id r, class r).
Qed.

Lemma classes_of_marks vs vs' : Forall2 marks vs vs' → classes_of vs' = classes_of vs.
Proof.
  intros H. unfold classes_of. f_equal.
  induction H as [|r r' l l' [Heq _] _ IH]; [done|].
  rewrite !fmap_cons. f_equal; [by rewrite Heq | exact IH].
Qed.

(** The table a run prints for the frame it leaves. *)
Definition table (vs : list video) : list count_record :=
  (λ cc, new_record cc.1 cc.2 (downloaded cc.1 vs)) <$> classes_of vs.

Lemma rmdir_root_frame w :
  requests (rmdir_root w).2 = requests w ∧ stdout (rmdir_root w).2 = stdout w.
Proof.
  unfold rmdir_root. destruct (output_root w) as [t|]; [case_decide|]; done.
Qed.

Lemma download_videos_spec cap platform ext w :
  supported platform →
  let w1 := (download_videos yt bl cap platform ext w).2 in
  Forall2 marks (videos w) (videos w1)
  ∧ (∃ new, requests w1 = requests w ++ new
          ∧ Forall (λ q, ∃ r, videos w !! req_index q = Some r
                            ∧ download r = false) new)
  ∧ (deterministic yt → deterministic bl →
     (∀ cid, cid ∈ (classes_of (videos w)).*1 →
        settled cap platform ext cid (videos w1))
     ∧ ((∀ cid, cid ∈ (classes_of (videos w)).*1 →
           settled cap platform ext cid (videos w)) → videos w1 = videos w)
     ∧ stdout w1 = stdout w ++ [table (videos w1)]).
Proof.
  intros Hp. cbv zeta. rewrite download_videos_eq.
  destruct (for_classes_spec cap platform ext (classes_of (videos w)) []
              (makedirs_root w).2 Hp)
    as (tr & w' & -> & Hm & Hout & (new & Hreq & Hnew) & Hdet).
  rewrite makedirs_root_videos in Hm, Hdet, Hnew.
  assert (requests (makedirs_root w).2 = requests w
          ∧ stdout (makedirs_root w).2 = stdout w) as [Hr0 Ho0].
  { unfold makedirs_root, modify. simpl. by destruct (output_root w). }
  rewrite Hr0 in Hreq. rewrite Ho0 in Hout.
  set (w2 := print tr w').
  assert (∀ wf, videos wf = videos w' → requests wf = requests w' →
            stdout wf = stdout w' ++ [tr] →
            Forall2 marks (videos w) (videos wf)
            ∧ (∃ new, requests wf = requests w ++ new
                    ∧ Forall (λ q, ∃ r, videos w !! req_index q = Some r
                                      ∧ download r = false) new)
            ∧ (deterministic yt → deterministic bl →
               (∀ cid, cid ∈ (classes_of (videos w)).*1 →
                  settled cap platform ext cid (videos wf))
               ∧ ((∀ cid, cid ∈ (classes_of (videos w)).*1 →
                     settled cap platform ext cid (videos w)) → videos wf = videos w)
               ∧ stdout wf = stdout w ++ [table (videos wf)])) as Hfinal.
  { intros wf Hv Hr Ho. rewrite Hv, Hr, Ho, Hout. split; [done|].
    split; [by exists new|]. intros Hyt Hbl.
    destruct (Hdet Hyt Hbl) as (_ & Hest & Htr & Hstab).
    split; [done|]. split; [done|].
    rewrite Htr. unfold table. by rewrite (classes_of_marks _ _ Hm). }
  destruct (0 <? total tr); [by apply Hfinal|].
  destruct (rmdir_root_frame w2) as [Hr2 Ho2].
  pose proof (rmdir_root_videos w2) as Hv2.
  destruct (rmdir_root w2) as [[[]|e] w3]; by apply Hfinal.
Qed.

End Loop.

(** *** Primitives to run the loop with *)

(** A primitive that always succeeds and writes the file it is asked
    for, and one that always fails and writes nothing. *)
Definition write (video_file : string) (entries : list string) : list string :=
  if decide (video_file ∈ entries) then entries else entries ++ [video_file].
Definition succeed (_ video_file _ : string) (entries : list string) : bool * list string :=
  (true, write video_file entries).
Definition give_way (_ _ _ : string) (entries : list string) : bool * list string :=
  (false, entries).

(** A primitive that fails on one URL and fetches every other one; and
    one that names its file as you-get does, adding the extension. *)
Definition unless_gone (video_url video_file _ : string) (entries : list string)
    : bool * list string :=
  if decide (video_url = "https://www.youtube.com/watch?v=gone&t=1") then (false, entries)
  else (true, write video_file entries).
Definition you_get (_ video_file _ : string) (entries : list string) : bool * list string :=
  (true, write (video_file +:+ ".mp4") entries).

(** *** The cap *)

(** The number of rows of class [cid] not yet marked as downloaded. *)
Definition undownloaded (cid : Z) (vs : list video) : Z :=
  Z.of_nat (length (filter (λ ir, download ir.2 = false) (by_class cid vs))).

(** C1 (as amended): with a cap [k] set, the rows of a class marked as
    downloaded after a run of [download_videos] number at most the
    larger of [k] and the number already marked when the run started;
    so at most [k] when no more than [k] were marked at the start. *)
Theorem download_videos_cap yt bl (k : Z) (platform ext : string) (w : world) (cid : Z) :
  downloaded cid (videos (download_videos yt bl (Some k) platform ext w).2)
  ≤ Z.max k (downloaded cid (videos w)).
Proof.
  rewrite download_videos_videos. apply for_classes_bound; [lia|].
  rewrite makedirs_root_videos. lia.
Qed.

(** Two rows of class 0 are already on disk, one is not, and the cap is 1. *)
Definition capped_videos : list video :=
  [Video 0 "cat" 0 "t0" "u0" "a" true;
   Video 0 "cat" 1 "t1" "u1" "b" true;
   Video 0 "cat" 2 "t2" "u2" "c" false].

Definition capped_world : world :=
  World capped_videos (Some {[ "0" := ["a.mp4"; "b.mp4"] ]}) [] [] (Csv capped_videos true).

(** C1 as stated fails: one undownloaded row is there for a cap of 1,
    and two rows of the class are marked as downloaded after the run. *)
Lemma download_videos_cap_exceeded :
  1 ≤ undownloaded 0 (videos capped_world)
  ∧ ¬ downloaded 0
        (videos (download_videos succeed succeed (Some 1) "youtube" ".mp4" capped_world).2)
      ≤ 1.
Proof. split; by vm_compute. Qed.

(** *** Running twice *)

(** C4: on a supported platform, with primitives whose answer for a
    URL, a file name and a directory is always the same, a second run
    of [download_videos] leaves the frame as the first run left it,
    makes no call for a row the first run left marked as downloaded,
    and prints the table the first run printed. *)
Theorem download_videos_idempotent yt bl (cap : option Z) (platform ext : string)
    (w : world) :
  supported platform → deterministic yt → deterministic bl →
  let w1 := (download_videos yt bl cap platform ext w).2 in
  let w2 := (download_videos yt bl cap platform ext w1).2 in
  videos w2 = videos w1
  ∧ (∃ new, requests w2 = requests w1 ++ new
          ∧ Forall (λ q, ∃ r, videos w1 !! req_index q = Some r
                            ∧ download r = false) new)
  ∧ last (stdout w2) = last (stdout w1).
Proof.
  intros Hp Hyt Hbl w1 w2.
  destruct (download_videos_spec yt bl cap platform ext w Hp) as (Hm1 & _ & Hdet1).
  destruct (Hdet1 Hyt Hbl) as (Hset1 & _ & Hout1). fold w1 in Hm1, Hset1, Hout1.
  destruct (download_videos_spec yt bl cap platform ext w1 Hp) as (_ & Hreq2 & Hdet2).
  destruct (Hdet2 Hyt Hbl) as (_ & Hstab2 & Hout2). fold w2 in Hstab2, Hout2, Hreq2.
  assert (videos w2 = videos w1) as Hsame.
  { apply Hstab2. intros cid Hcid. apply Hset1.
    by rewrite <- (classes_of_marks _ _ Hm1). }
  split; [done|]. split; [done|].
  by rewrite Hout2, Hout1, Hsame, !last_snoc.
Qed.

(** Three rows of two classes, one of them at a URL that cannot be
    fetched. *)
Definition mixed_videos : list video :=
  [Video 0 "cat" 0 "t0" "https://www.youtube.com/watch?v=c0&t=1" "c0" false;
   Video 0 "cat" 1 "t1" "https://www.youtube.com/watch?v=gone&t=1" "gone" false;
   Video 1 "dog" 0 "t2" "https://www.youtube.com/watch?v=d0&t=1" "d0" false].

Definition mixed_world : world :=
  World mixed_videos None [] [] (Csv mixed_videos true).

Lemma download_videos_idempotent_witness :
  let w1 := (download_videos unless_gone you_get None "youtube" ".mp4" mixed_world).2 in
  let w2 := (download_videos unless_gone you_get None "youtube" ".mp4" w1).2 in
  videos w2 = videos w1
  ∧ (∃ new, requests w2 = requests w1 ++ new
          ∧ Forall (λ q, ∃ r, videos w1 !! req_index q = Some r
                            ∧ download r = false) new)
  ∧ last (stdout w2) = last (stdout w1).
Proof.
  apply download_videos_idempotent.
  - by left.
  - intros u f dir es es'. unfold unless_gone. by case_decide.
  - intros u f dir es es'. reflexivity.
Defined.

Example download_videos_mixed :
  download <$> videos (download_videos unless_gone you_get None "youtube" ".mp4"
                         mixed_world).2
  = [true; false; true].
Proof. reflexivity. Qed.

(** *** Resuming *)

Lemma split_head_dot name rest :
  contains "." name = false → split_head "." (name +:+ "." +:+ rest) = name.
Proof.
  induction name as [|c name IH]; [done|].
  rewrite PyFacts.contains_cons. intros [Hc Hname]%orb_false_elim.
  change (String c name +:+ "." +:+ rest) with (String c (name +:+ "." +:+ rest)).
  simpl. destruct (Ascii.eqb_spec c ".") as [->|_].
  - simpl in Hc. by rewrite PyFacts.prefix_nil in Hc.
  - by rewrite IH.
Qed.

Lemma main_with_names yt bl platform cap w (t : gmap string (list string)) :
  supported platform → has_video_name (file w) = true → output_root w = Some t →
  main yt bl platform cap w
  = match download_videos yt bl cap platform ".mp4"
            (check_downloaded true (set_videos (csv_rows (file w)) w)).2 with
    | (Ok vs, w') => (Ok tt, to_csv vs w')
    | (Raise e, w') => (Raise e, w')
    end.
Proof.
  intros Hp Hname Hroot.
  unfold main, mbind, M_bind, gets, modify, mret, M_ret. rewrite Hname.
  rewrite (check_downloaded_true _ t) by done.
  by destruct Hp as [-> | ->].
Qed.

(** What holds of C3: a row whose [video_name] is the part before the
    first '.' of an entry of the output root is marked by the scan, and
    [main] makes no call for it. *)
Lemma main_skips_rows_on_disk yt bl platform cap w (t : gmap string (list string)) i r :
  supported platform → has_video_name (file w) = true → output_root w = Some t →
  csv_rows (file w) !! i = Some r →
  (∃ d files video_file, t !! d = Some files ∧ video_file ∈ files
                       ∧ video_name r = split_head "." video_file) →
  videos (check_downloaded true (set_videos (csv_rows (file w)) w)).2 !! i
  = Some (set_download true r)
  ∧ ∃ new, requests (main yt bl platform cap w).2 = requests w ++ new
         ∧ Forall (λ q, req_index q ≠ i) new.
Proof.
  intros Hp Hname Hroot Hi Hdisk.
  rewrite (main_with_names yt bl platform cap w t) by done.
  rewrite (check_downloaded_true _ t) by done. simpl.
  assert (((λ r, set_download (stem_among (video_name r) ((map_to_list t).*2 ≫= id)) r)
             <$> csv_rows (file w)) !! i = Some (set_download true r)) as Hmarked.
  { rewrite list_lookup_fmap, Hi. simpl.
    by rewrite (proj2 (stem_among_entries t (video_name r)) Hdisk). }
  split; [done|].
  match goal with |- context [download_videos _ _ _ _ _ ?x] => set (w1 := x) end.
  destruct (download_videos_spec yt bl cap platform ".mp4" w1 Hp)
    as (_ & (new & Hreq & Hnew) & _).
  exists new. split.
  - destruct (download_videos _ _ _ _ _ _) as [[vs|e] w']; exact Hreq.
  - eapply Forall_impl; [exact Hnew|]. intros q (r' & Hr' & Hdl) Hq.
    subst w1. simpl in Hr'. rewrite Hq, Hmarked in Hr'. by injection Hr' as <-.
Qed.

(** So it is for the file [main] itself would have written, when the
    name has no '.' in it. *)
Lemma main_resumes_dot_free_names yt bl platform cap w (t : gmap string (list string))
    i r d files ext :
  supported platform → has_video_name (file w) = true → output_root w = Some t →
  csv_rows (file w) !! i = Some r →
  contains "." (video_name r) = false →
  t !! d = Some files → (video_name r +:+ "." +:+ ext) ∈ files →
  ∃ new, requests (main yt bl platform cap w).2 = requests w ++ new
       ∧ Forall (λ q, req_index q ≠ i) new.
Proof.
  intros Hp Hname Hroot Hi Hdot Hd Hf.
  apply (main_skips_rows_on_disk yt bl platform cap w t i r); try done.
  exists d, files, (video_name r +:+ "." +:+ ext). by rewrite split_head_dot.
Qed.

(** **** Names with a dot *)

Definition dotted_url : string :=
  "https://www.bilibili.com/video/BV1xx411c7mD?spm_id_from=333.337".

(** A ledger without a [video_name] column, fetched once already: the
    file you-get wrote for its only row is in the class directory. *)
Definition dotted_world : world :=
  World []
    (Some {[ "0" := ["BV1xx411c7mD?spm_id_from=333.337.mp4"] ]}) [] []
    (Csv [Video 0 "cat" 0 "a cat" dotted_url "" false] false).

(** The same with a [video_name] column and the YouTube primitive,
    which is given [video_name + ext]. *)
Definition dotted_name_world : world :=
  World []
    (Some {[ "0" := ["mr.bean.mp4"] ]}) [] []
    (Csv [Video 0 "cat" 0 "Mr. Bean" "https://www.youtube.com/watch?v=abc&t=1"
            "mr.bean" false] true).

(** C3 (failing input): the class directory holds the file named
    [video_name] followed by ".mp4", and [main] still calls the
    download primitive for the row: the scan compares [video_name]
    with what precedes the first '.' of the file name, which cuts a
    name that has a dot in it. *)
Theorem main_fetches_dotted_name_again :
  requests (main succeed you_get "bilibili" None dotted_world).2
  = [Request 0 dotted_url "BV1xx411c7mD?spm_id_from=333.337" "0" true]
  ∧ requests (main succeed you_get "youtube" None dotted_name_world).2
    = [Request 0 "https://www.youtube.com/watch?v=abc&t=1" "mr.bean.mp4" "0" true].
Proof. split; reflexivity. Qed.

(** *** The class directories *)



Section Directories.

Variable yt bl : string → string → string → list string → bool * list string.












End Directories.

(** *** Cleaning up *)








(** *** The video id taken from a URL, continued *)

(** Without an '&' to find, [ee] is [ss - 1] and the slice is empty,
    wherever [ss] is. *)
Lemma youtube_id_empty video_url :
  contains "youtube" video_url = true → contains "&" video_url = false →
  _get_youtube_video_id video_url = Ok "".
Proof.
  intros Hyt Hamp. unfold _get_youtube_video_id. rewrite Hyt. simpl negb. cbv iota zeta.
  set (video_id := last_component video_url).
  assert (contains "&" video_id = false) as Hcomp.
  { destruct (last_component_spec video_url) as (h & sl & Hurl & _ & Hsfx).
    rewrite Hurl in Hamp. apply contains_app_l in Hamp. by eapply contains_sfx. }
  pose proof (find_ge "v=" video_id) as Hge.
  set (ss := find "v=" video_id + len "v=").
  assert (1 ≤ ss) as Hss by (unfold ss, len; simpl; lia).
  assert (find "&" (slice_from video_id ss) = -1) as ->.
  { apply find_not_found. rewrite slice_from_sdrop by lia.
    eapply contains_sfx; [apply sfx_sdrop | done]. }
  f_equal. apply slice_empty; lia.
Qed.

(** X1: for a URL [host/pre v= id & rest] whose last component
    [pre v= id & rest] holds no earlier "v=" and whose [id] holds no
    '&', [_get_youtube_video_id] returns [id]. *)
Theorem get_youtube_video_id_between (host pre id rest : string) :
  contains "youtube" (host +:+ "/" +:+ pre +:+ "v=" +:+ id +:+ "&" +:+ rest) = true →
  contains "/" (pre +:+ "v=" +:+ id +:+ "&" +:+ rest) = false →
  contains "v=" pre = false →
  contains "&" id = false →
  _get_youtube_video_id (host +:+ "/" +:+ pre +:+ "v=" +:+ id +:+ "&" +:+ rest) = Ok id.
Proof.
  intros Hyt Hslash Hpre Hid. unfold _get_youtube_video_id. rewrite Hyt. simpl negb.
  cbv iota zeta. rewrite (last_component_app host) by (done || by destruct pre).
  unfold find. rewrite find_from_before_v by done.
  assert (0 + len pre + len "v=" = len (pre +:+ "v=")) as ->.
  { unfold len. rewrite length_append. simpl. lia. }
  rewrite <- (append_assoc pre "v=").
  rewrite slice_from_app, find_from_before_amp by done.
  rewrite Z.add_0_l. f_equal. apply (slice_app (pre +:+ "v=") id ("&" +:+ rest)).
Qed.

Lemma get_youtube_video_id_between_witness :
  _get_youtube_video_id "https://www.youtube.com/watch?v=dQw4w9WgXcQ&t=42s"
  = Ok "dQw4w9WgXcQ".
Proof.
  apply (get_youtube_video_id_between "https://www.youtube.com" "watch?"
           "dQw4w9WgXcQ" "t=42s"); reflexivity.
Defined.

(** X2: for a URL that holds no '&' at all, with or without "v=",
    [_get_youtube_video_id] returns the empty string. *)
Theorem get_youtube_video_id_without_ampersand (video_url : string) :
  contains "youtube" video_url = true → contains "&" video_url = false →
  _get_youtube_video_id video_url = Ok "".
Proof. apply youtube_id_empty. Qed.

Lemma get_youtube_video_id_without_ampersand_witness :
  _get_youtube_video_id "https://www.youtube.com/shorts/abc123" = Ok "".
Proof.
  apply (get_youtube_video_id_without_ampersand "https://www.youtube.com/shorts/abc123");
    reflexivity.
Defined.

(** X3: the name either function derives from a URL holds no '/': it
    names an entry of the class directory, never a path below it. *)
Theorem video_ids_hold_no_slash (video_url name : string) :
  _get_youtube_video_id video_url = Ok name ∨ _get_bilibili_video_id video_url = Ok name →
  contains "/" name = false.
Proof.
  unfold _get_youtube_video_id, _get_bilibili_video_id. intros [H|H].
  - destruct (negb _); [done|]. injection H as <-. unfold slice.
    apply substring_no_slash, last_component_no_slash.
  - destruct (negb _); [done|]. injection H as <-. apply last_component_no_slash.
Qed.

Lemma video_ids_hold_no_slash_witness :
  _get_bilibili_video_id "https://www.bilibili.com/video/BV1xx411c7mD/" = Ok "BV1xx411c7mD"
  ∧ contains "/" "BV1xx411c7mD" = false.
Proof.
  split; [reflexivity|].
  apply (video_ids_hold_no_slash "https://www.bilibili.com/video/BV1xx411c7mD/").
  right. reflexivity.
Defined.

(** X4: for a URL [host/comp] that ends in any number of slashes,
    [_get_bilibili_video_id] returns [comp], the last component that
    is not empty. *)
Theorem get_bilibili_video_id_component (host comp sl : string) :
  contains "bilibili" (host +:+ "/" +:+ comp +:+ sl) = true →
  contains "/" comp = false → comp ≠ "" → all_slash sl = true →
  _get_bilibili_video_id (host +:+ "/" +:+ comp +:+ sl) = Ok comp.
Proof.
  intros Hbili Hcomp Hne Hsl. unfold _get_bilibili_video_id. rewrite Hbili. simpl negb.
  cbv iota. by rewrite last_component_trailing.
Qed.

Lemma get_bilibili_video_id_component_witness :
  _get_bilibili_video_id "https://www.bilibili.com/video/BV1xx411c7mD//"
  = Ok "BV1xx411c7mD".
Proof.
  apply (get_bilibili_video_id_component "https://www.bilibili.com/video"
           "BV1xx411c7mD" "//"); done.
Defined.

(** *** The calls of a run, and the flags they set *)

(** The file name a platform's primitive is given for a row. *)
Definition video_file (platform ext : string) (row : video) : string :=
  if decide (platform = "youtube") then video_name row +:+ ext else video_name row.

(** [q] is a call made for [row]. *)
Definition request_for (platform ext : string) (row : video) (q : request) : Prop :=
  download row = false
  ∧ req_url q = video_url row
  ∧ req_file q = video_file platform ext row
  ∧ req_dir q = pretty (class_id row).

Section Log.

Variable yt bl : string → string → string → list string → bool * list string.

Lemma chosen_video_file platform ext row prim f :
  chosen yt bl platform ext row = Some (prim, f) → f = video_file platform ext row.
Proof.
  unfold chosen, video_file. repeat case_decide; by intros [= _ <-].
Qed.

Lemma chosen_supported platform ext row :
  supported platform → chosen yt bl platform ext row ≠ None.
Proof. unfold chosen. intros [-> | ->]; by repeat case_decide. Qed.

(** One pass over rows that the frame still holds as the copy shows
    them: at most one call per row; a call is made for a row the copy
    shows as not downloaded, and that row then carries the answer;
    the rows no call was made for are as they were; and without a cap
    every row not downloaded gets its call. *)
Lemma iterrows_log cap platform ext dir rows c w :
  NoDup rows.*1 →
  (∀ i row, (i, row) ∈ rows → videos w !! i = Some row) →
  let w' := (iterrows yt bl cap platform ext dir rows c w).2 in
  ∃ new, requests w' = requests w ++ new
    ∧ NoDup (req_index <$> new)
    ∧ (∀ q, q ∈ new →
         ∃ row, (req_index q, row) ∈ rows ∧ download row = false
              ∧ req_url q = video_url row
              ∧ req_file q = video_file platform ext row
              ∧ req_dir q = dir
              ∧ videos w' !! req_index q = Some (set_download (req_ok q) row))
    ∧ (∀ i, i ∉ req_index <$> new → videos w' !! i = videos w !! i)
    ∧ (cap = None → supported platform →
       ∀ i row, (i, row) ∈ rows → download row = false → i ∈ req_index <$> new).
Proof.
  revert c w. induction rows as [|[i row] rows IH]; intros c w Hnd Hsnap; cbv zeta.
  { exists []. rewrite app_nil_r. repeat split; [constructor|..].
    - by intros q ?%elem_of_nil.
    - by intros _ _ i row ?%elem_of_nil. }
  rewrite iterrows_cons. apply NoDup_cons in Hnd as [Hi Hnd].
  assert (∀ j row', (j, row') ∈ rows → j ≠ i) as Hne.
  { intros j row' Hin ->. by apply Hi, (elem_of_fst_rows _ _ row'). }
  destruct (cap_reached cap c) eqn:Hcap.
  { exists []. rewrite app_nil_r. repeat split; [constructor|..].
    - by intros q ?%elem_of_nil.
    - intros -> _. done. }
  destruct (download row) eqn:Hrow.
  { destruct (IH c w Hnd) as (new & Hreq & Hnd' & Hnew & Hframe & Hall).
    { intros j row' Hin. apply Hsnap. by right. }
    exists new. repeat split; [done..| | done |].
    - intros q Hq. destruct (Hnew q Hq) as (row' & Hin & Hrest).
      exists row'. split; [by right|done].
    - intros Hc Hp j row' [[= -> ->]|Hin]%elem_of_cons Hd; [congruence|].
      by apply (Hall Hc Hp j row'). }
  rewrite attempt_eq. destruct (chosen yt bl platform ext row) as [[prim f]|] eqn:Hch.
  2:{ exists []. rewrite app_nil_r. repeat split; [constructor|..].
      - by intros q ?%elem_of_nil.
      - intros _ Hp. by destruct (chosen_supported platform ext row Hp). }
  apply chosen_video_file in Hch as Hf.
  unfold call. destruct (prim _ _ _ _) as [d es'] eqn:Hprim.
  match goal with |- context [iterrows _ _ _ _ _ _ _ ?c' ?w'] =>
    set (c1 := c'); set (w1 := w') end.
  assert (videos w1 = alter (set_download d) i (videos w)) as Hw1 by done.
  assert (requests w1 = requests w ++ [Request i (video_url row) f dir d]) as Hr1 by done.
  destruct (IH c1 w1 Hnd) as (new & Hreq & Hnd' & Hnew & Hframe & Hall).
  { intros j row' Hin. rewrite Hw1, list_lookup_alter_ne by (symmetry; by eapply Hne).
    apply Hsnap. by right. }
  assert (i ∉ req_index <$> new) as Hinew.
  { intros (q & Hq & Hin)%list_elem_of_fmap.
    destruct (Hnew q Hin) as (row' & Hin' & _). rewrite <- Hq in Hin'.
    by eapply Hne. }
  exists (Request i (video_url row) f dir d :: new). repeat split.
  - rewrite Hreq, Hr1. by rewrite <- app_assoc.
  - rewrite fmap_cons. by apply NoDup_cons.
  - intros q [->|Hq]%elem_of_cons.
    + exists row. simpl. repeat split; [by left|done..|].
      rewrite (Hframe i Hinew), Hw1, list_lookup_alter_eq.
      by rewrite (Hsnap i row) by (by left).
    + destruct (Hnew q Hq) as (row' & Hin & Hrest). exists row'. split; [by right|done].
  - intros j Hj. rewrite fmap_cons in Hj. apply not_elem_of_cons in Hj as [Hji Hj].
    rewrite (Hframe j Hj), Hw1. by apply list_lookup_alter_ne.
  - intros Hc Hp j row' [[= -> ->]|Hin]%elem_of_cons Hd; rewrite fmap_cons.
    + by left.
    + right. by apply (Hall Hc Hp j row').
Qed.

(** The rows before and after some calls [new]. *)
Definition logged (platform ext : string) (classes : list Z)
    (vs vs' : list video) (new : list request) : Prop :=
  length vs' = length vs
  ∧ (∀ q, q ∈ new → ∃ r, vs !! req_index q = Some r ∧ class_id r ∈ classes
                        ∧ request_for platform ext r q)
  ∧ (∀ i, i ∉ req_index <$> new → vs' !! i = vs !! i)
  ∧ (∀ i r, vs !! i = Some r → i ∈ req_index <$> new →
       ∃ q, q ∈ new ∧ req_index q = i ∧ vs' !! i = Some (set_download (req_ok q) r)).

Lemma logged_row platform ext classes vs vs' new i r :
  logged platform ext classes vs vs' new → vs !! i = Some r →
  ∃ d, vs' !! i = Some (set_download d r) ∧ (download r = true → d = true).
Proof.
  intros (_ & Hnew & Hframe & Hflag) Hi.
  destruct (decide (i ∈ req_index <$> new)) as [Hin|Hout].
  - destruct (Hflag i r Hi Hin) as (q & Hq & Hqi & Hr'). exists (req_ok q).
    split; [done|]. intros Hd. destruct (Hnew q Hq) as (r0 & Hr0 & _ & Hd0 & _).
    rewrite Hqi, Hi in Hr0. injection Hr0 as <-. congruence.
  - exists (download r). by rewrite (Hframe i Hout), Hi, set_download_id.
Qed.

Lemma for_classes_log cap platform ext classes count_tracker w :
  let w' := (for_classes yt bl cap platform ext classes count_tracker w).2 in
  ∃ new, requests w' = requests w ++ new
    ∧ logged platform ext classes.*1 (videos w) (videos w') new
    ∧ (NoDup classes.*1 → NoDup (req_index <$> new))
    ∧ (cap = None → supported platform →
       ∀ i r, videos w !! i = Some r → class_id r ∈ classes.*1 → download r = false →
         i ∈ req_index <$> new).
Proof.
  revert count_tracker w.
  induction classes as [|[cid_ cls_] classes IH]; intros count_tracker w; cbv zeta.
  { exists []. rewrite app_nil_r. unfold logged. split_and!; [done..| | | |constructor|].
    - by intros q ?%elem_of_nil.
    - done.
    - by intros i r _ ?%elem_of_nil.
    - by intros _ _ i r _ ?%elem_of_nil. }
  rewrite for_classes_cons. cbv zeta.
  set (rows := by_class cid_ (videos w)).
  set (w0 := (makedirs (pretty cid_) w).2).
  assert (videos w0 = videos w) as Hw0 by apply makedirs_videos.
  assert (requests w0 = requests w) as Hr0 by apply makedirs_frame.
  destruct (iterrows_log cap platform ext (pretty cid_) rows (sum_download rows) w0)
    as (new1 & Hreq1 & Hnd1 & Hnew1 & Hframe1 & Hall1).
  { apply by_class_NoDup. }
  { intros i row Hin%by_class_spec. rewrite Hw0. tauto. }
  rewrite Hw0 in Hframe1. rewrite Hr0 in Hreq1.
  pose proof (iterrows_length yt bl cap platform ext (pretty cid_) rows (sum_download rows) w0)
    as Hlen1. rewrite Hw0 in Hlen1.
  assert (logged platform ext [cid_] (videos w)
            (videos (iterrows yt bl cap platform ext (pretty cid_) rows
                       (sum_download rows) w0).2) new1) as Hlog1.
  { split; [done|]. split; [|split; [done|]].
    - intros q Hq. destruct (Hnew1 q Hq) as (row & [Hi Hc]%by_class_spec & Hd & Hu & Hf & Hdir & _).
      exists row. split; [done|]. split; [rewrite Hc; by left|].
      by rewrite <- Hc in Hdir.
    - intros i r Hi (q & Hqi & Hq)%list_elem_of_fmap.
      destruct (Hnew1 q Hq) as (row & [Hi' Hc]%by_class_spec & _ & _ & _ & _ & Hr').
      rewrite <- Hqi, Hi in Hi'. injection Hi' as <-.
      exists q. by rewrite <- Hqi in Hr'. }
  destruct (iterrows _ _ _ _ _ _ _ _ _) as [[c'|e] w1] eqn:Hrun; cbn [snd] in *.
  2:{ exists new1. split; [done|]. split; [|split].
      - destruct Hlog1 as (Hl & Hn & Hfr & Hfl). split; [done|]. split; [|done].
        intros q Hq. destruct (Hn q Hq) as (r & Hr & [Hc|[]%elem_of_nil]%elem_of_cons & Hrest).
        exists r. split; [done|]. split; [apply elem_of_cons; by left|done].
      - done.
      - intros Hc Hp i r Hi _ Hd.
        (* without a cap, a pass on a supported platform ends normally *)
        exfalso.
        destruct (iterrows_settles yt bl cap platform ext (pretty cid_) cid_ rows
                    (sum_download rows) w0 Hp (by_class_NoDup _ _))
          as (c2 & w2 & Hok & _).
        { intros j row Hin%by_class_spec. by rewrite Hw0. }
        fold rows in Hrun. congruence. }
  set (w2 := (try_rmdir (pretty cid_) w1).2).
  assert (videos w2 = videos w1) as Hw2 by apply try_rmdir_videos.
  assert (requests w2 = requests w1) as Hr2 by apply try_rmdir_frame.
  destruct (IH (count_tracker ++ [new_record cid_ cls_ c']) w2)
    as (new2 & Hreq2 & Hlog2 & Hnd2 & Hall2).
  rewrite Hw2 in Hlog2, Hall2. rewrite Hr2, Hreq1 in Hreq2.
  exists (new1 ++ new2). split; [by rewrite Hreq2, app_assoc|].
  set (vs' := videos (for_classes yt bl cap platform ext classes
                        (count_tracker ++ [new_record cid_ cls_ c']) w2).2) in *.
  assert (∀ q, q ∈ new2 →
            ∃ r, videos w !! req_index q = Some r ∧ class_id r ∈ classes.*1
               ∧ request_for platform ext r q) as Hnew2.
  { intros q Hq. destruct Hlog2 as (_ & Hn & _).
    destruct (Hn q Hq) as (r1 & Hr1 & Hc1 & Hd1 & Hrest).
    destruct (lookup_lt_is_Some_2 (videos w) (req_index q)) as [r Hr].
    { destruct Hlog1 as (<- & _). by eapply lookup_lt_Some. }
    destruct (logged_row _ _ _ _ _ _ _ _ Hlog1 Hr) as (d & Hr1' & Hmono).
    rewrite Hr1 in Hr1'. injection Hr1' as ->.
    exists r. split; [done|]. split; [done|]. split; [|done].
    simpl in Hd1. destruct (download r); [by rewrite Hmono in Hd1|done]. }
  split; [|split].
  - destruct Hlog1 as (Hl1 & Hn1 & Hfr1 & Hfl1).
    destruct Hlog2 as (Hl2 & Hn2 & Hfr2 & Hfl2).
    split; [congruence|]. split; [|split].
    + intros q [Hq|Hq]%elem_of_app.
      * destruct (Hn1 q Hq) as (r & Hr & [Hc|[]%elem_of_nil]%elem_of_cons & Hrest).
        exists r. split; [done|]. split; [apply elem_of_cons; by left|done].
      * destruct (Hnew2 q Hq) as (r & Hr & Hc & Hrest).
        exists r. split; [done|]. split; [by right|done].
    + intros i Hi. rewrite fmap_app in Hi. apply not_elem_of_app in Hi as [Hi1 Hi2].
      by rewrite (Hfr2 i Hi2), (Hfr1 i Hi1).
    + intros i r Hi Hin. rewrite fmap_app in Hin.
      destruct (decide (i ∈ req_index <$> new2)) as [Hin2|Hout2].
      * destruct (logged_row platform ext [cid_] (videos w) (videos w1) new1 i r)
          as (d & Hr1 & _); [by unfold logged|done|].
        destruct (Hfl2 i _ Hr1 Hin2) as (q & Hq & Hqi & Hr').
        exists q. split; [apply elem_of_app; by right|]. split; [done|].
        by rewrite Hr'.
      * apply elem_of_app in Hin as [Hin1|?]; [|done].
        destruct (Hfl1 i r Hi Hin1) as (q & Hq & Hqi & Hr').
        exists q. split; [apply elem_of_app; by left|]. split; [done|].
        by rewrite (Hfr2 i Hout2).
  - rewrite fmap_cons. intros [Hcid Hnd]%NoDup_cons. rewrite fmap_app.
    apply NoDup_app. split; [done|]. split; [|by apply Hnd2].
    intros i (q1 & Hqi1 & Hq1)%list_elem_of_fmap (q2 & Hqi2 & Hq2)%list_elem_of_fmap.
    destruct Hlog1 as (_ & Hn1 & _).
    destruct (Hn1 q1 Hq1) as (r & Hr & [Hc|[]%elem_of_nil]%elem_of_cons & _).
    destruct (Hnew2 q2 Hq2) as (r' & Hr' & Hc' & _).
    rewrite <- Hqi1, Hqi2, Hr' in Hr. injection Hr as ->. by rewrite Hc in Hc'.
  - intros Hc Hp i r Hi Hcls Hd. rewrite fmap_app. apply elem_of_app.
    destruct (decide (i ∈ req_index <$> new1)) as [?|Hout1]; [by left|right].
    apply (Hall2 Hc Hp i r).
    + destruct Hlog1 as (_ & _ & Hfr1 & _). by rewrite (Hfr1 i Hout1).
    + rewrite fmap_cons in Hcls. apply elem_of_cons in Hcls as [Hcid|?]; [|done].
      exfalso. apply Hout1. apply (Hall1 Hc Hp i r); [|done].
      apply by_class_spec. done.
    + done.
Qed.


Lemma download_videos_requests cap platform ext w :
  requests (download_videos yt bl cap platform ext w).2
  = requests (for_classes yt bl cap platform ext (classes_of (videos w)) []
                (makedirs_root w).2).2.
Proof.
  rewrite download_videos_eq.
  destruct (for_classes _ _ _ _ _ _ _ _) as [[tr|e] w']; [|done].
  destruct (0 <? total tr); [done|].
  destruct (rmdir_root_frame (print tr w')) as [Hreq _].
  by destruct (rmdir_root _) as [[[]|e] w''].
Qed.

Lemma download_videos_log cap platform ext w :
  let w' := (download_videos yt bl cap platform ext w).2 in
  ∃ new, requests w' = requests w ++ new
    ∧ logged platform ext (classes_of (videos w)).*1 (videos w) (videos w') new
    ∧ (NoDup (classes_of (videos w)).*1 → NoDup (req_index <$> new))
    ∧ (cap = None → supported platform →
       ∀ i r, videos w !! i = Some r → download r = false → i ∈ req_index <$> new).
Proof.
  cbv zeta. rewrite download_videos_requests, download_videos_videos.
  destruct (for_classes_log cap platform ext (classes_of (videos w)) []
              (makedirs_root w).2) as (new & Hreq & Hlog & Hnd & Hall).
  rewrite makedirs_root_videos in Hlog, Hall.
  assert (requests (makedirs_root w).2 = requests w) as Hr0.
  { unfold makedirs_root, modify. simpl. by destruct (output_root w). }
  rewrite Hr0 in Hreq. exists new. split_and!; [done..|].
  intros Hc Hp i r Hi Hd. apply (Hall Hc Hp i r Hi); [|done].
  apply classes_of_elem. by eapply list_elem_of_lookup_2.
Qed.

(** With one name per class id, the count recorded for a class is the
    number of its rows marked as downloaded when the loop ends. *)
Lemma for_classes_counts cap platform ext classes count_tracker w :
  supported platform → NoDup classes.*1 →
  ∃ w', for_classes yt bl cap platform ext classes count_tracker w
        = (Ok (count_tracker
               ++ ((λ cc, new_record cc.1 cc.2 (downloaded cc.1 (videos w'))) <$> classes)),
           w')
      ∧ stdout w' = stdout w.
Proof.
  intros Hp. revert count_tracker w.
  induction classes as [|[cid_ cls_] classes IH]; intros count_tracker w Hnd.
  { exists w. by rewrite app_nil_r. }
  rewrite fmap_cons in Hnd. apply NoDup_cons in Hnd as [Hcid Hnd].
  rewrite for_classes_cons. cbv zeta.
  destruct (pass_spec yt bl cap platform ext cid_ w (makedirs (pretty cid_) w).2 Hp
              (makedirs_videos _ _)) as (c' & w1 & Hrun & Hc' & _).
  pose proof (iterrows_stdout yt bl cap platform ext (pretty cid_)
                (by_class cid_ (videos w)) (sum_download (by_class cid_ (videos w)))
                (makedirs (pretty cid_) w).2) as Hout1.
  cbv zeta in Hrun. rewrite Hrun in Hout1 |- *. cbn [snd] in Hout1.
  set (w2 := (try_rmdir (pretty cid_) w1).2).
  destruct (IH (count_tracker ++ [new_record cid_ cls_ c']) w2 Hnd) as (w' & Hloop & Hout).
  exists w'. split.
  - enough (downloaded cid_ (videos w') = downloaded cid_ (videos w1)) as Hsame.
    { rewrite Hloop, <- app_assoc. simpl. by rewrite Hc', Hsame. }
    destruct (for_classes_log cap platform ext classes
                (count_tracker ++ [new_record cid_ cls_ c']) w2)
      as (new & _ & Hlog & _).
    rewrite Hloop in Hlog. cbn [snd] in Hlog.
    assert (videos w2 = videos w1) as Hw2 by apply try_rmdir_videos.
    rewrite Hw2 in Hlog. apply downloaded_agree.
    apply Forall2_same_length_lookup. split; [by destruct Hlog as [-> _]|].
    intros i r r' Hr Hr'.
    destruct (logged_row _ _ _ _ _ _ _ _ Hlog Hr) as (d & Hr'' & _).
    rewrite Hr' in Hr''. injection Hr'' as ->. split; [done|]. intros Hc.
    destruct Hlog as (_ & Hnew & Hframe & _).
    destruct (decide (i ∈ req_index <$> new)) as [(q & Hqi & Hq)%list_elem_of_fmap|Hout'].
    + destruct (Hnew q Hq) as (r0 & Hr0 & Hc0 & _).
      rewrite <- Hqi, Hr in Hr0. injection Hr0 as <-. by rewrite Hc in Hc0.
    + rewrite (Hframe i Hout'), Hr in Hr'. by injection Hr' as <-.
  - rewrite Hout. unfold w2. destruct (try_rmdir_frame (pretty cid_) w1) as [_ ->].
    rewrite Hout1. apply makedirs_frame.
Qed.

End Log.

(** A ledger of two classes, nothing fetched yet. *)
Definition plain_videos : list video :=
  [Video 0 "cat" 0 "t0" "https://www.youtube.com/watch?v=c0&t=1" "c0" false;
   Video 0 "cat" 1 "t1" "https://www.youtube.com/watch?v=gone&t=1" "gone" false;
   Video 1 "dog" 0 "t2" "https://www.youtube.com/watch?v=d0&t=1" "d0" false].

Definition plain_world : world :=
  World plain_videos None [] [] (Csv plain_videos true).

(** A ledger of two classes in which one class id carries two names. *)
Definition renamed_videos : list video :=
  [Video 0 "cat" 0 "t0" "https://www.youtube.com/watch?v=c0&t=1" "c0" false;
   Video 0 "cats" 1 "t1" "https://www.youtube.com/watch?v=c1&t=1" "c1" true;
   Video 1 "dog" 0 "t2" "https://www.youtube.com/watch?v=d0&t=1" "d0" false].

Definition renamed_world : world :=
  World renamed_videos None [] [] (Csv renamed_videos true).

(** X5: [download_videos] keeps the rows of the frame in place and
    changes no column of a row but [download]; a row marked as
    downloaded stays marked.  This holds for every platform name and
    however the run ends. *)
Theorem download_videos_only_marks yt bl (cap : option Z) (platform ext : string)
    (w : world) :
  let vs' := videos (download_videos yt bl cap platform ext w).2 in
  length vs' = length (videos w)
  ∧ ∀ i r, videos w !! i = Some r →
      ∃ d, vs' !! i = Some (set_download d r) ∧ (download r = true → d = true).
Proof.
  cbv zeta.
  destruct (download_videos_log yt bl cap platform ext w) as (new & _ & Hlog & _).
  split; [by destruct Hlog|]. intros i r Hi. by eapply logged_row.
Qed.

(** X6: every call of a download primitive that [download_videos]
    makes is made for a row that was not marked as downloaded when the
    run started, with the URL of that row, the directory named after
    its class id, and as file name its [video_name], followed by the
    extension on YouTube only. *)
Theorem download_videos_calls yt bl (cap : option Z) (platform ext : string)
    (w : world) :
  ∃ new, requests (download_videos yt bl cap platform ext w).2 = requests w ++ new
       ∧ ∀ q, q ∈ new →
           ∃ r, videos w !! req_index q = Some r
              ∧ download r = false
              ∧ req_url q = video_url r
              ∧ req_file q = video_file platform ext r
              ∧ req_dir q = pretty (class_id r).
Proof.
  destruct (download_videos_log yt bl cap platform ext w)
    as (new & Hreq & (_ & Hnew & _) & _).
  exists new. split; [done|]. intros q Hq.
  destruct (Hnew q Hq) as (r & Hr & _ & Hfor). by exists r.
Qed.

(** X7: the flag a row ends with is the answer of a call made for it,
    unless no call was made for it, and then the row is as it was. *)
Theorem download_videos_flags_follow_answers yt bl (cap : option Z)
    (platform ext : string) (w : world) :
  let w' := (download_videos yt bl cap platform ext w).2 in
  ∃ new, requests w' = requests w ++ new
       ∧ ∀ i r', videos w' !! i = Some r' →
           (¬ (∃ q, q ∈ new ∧ req_index q = i) ∧ videos w !! i = Some r')
           ∨ (∃ q, q ∈ new ∧ req_index q = i ∧ req_ok q = download r').
Proof.
  cbv zeta.
  destruct (download_videos_log yt bl cap platform ext w)
    as (new & Hreq & (Hlen & Hnew & Hframe & Hflag) & _).
  exists new. split; [done|]. intros i r' Hr'.
  destruct (decide (i ∈ req_index <$> new)) as [Hin|Hout].
  - right. destruct (lookup_lt_is_Some_2 (videos w) i) as [r Hr].
    { rewrite <- Hlen. by eapply lookup_lt_Some. }
    destruct (Hflag i r Hr Hin) as (q & Hq & Hqi & Hr'').
    rewrite Hr' in Hr''. injection Hr'' as ->. by exists q.
  - left. split; [|by rewrite <- (Hframe i Hout)].
    intros (q & Hq & Hqi). apply Hout, list_elem_of_fmap. by exists q.
Qed.



(** X9: when every class id of the frame goes with one class name, a
    run makes at most one call for a row. *)
Theorem download_videos_one_call_per_row yt bl (cap : option Z) (platform ext : string)
    (w : world) :
  NoDup (classes_of (videos w)).*1 →
  ∃ new, requests (download_videos yt bl cap platform ext w).2 = requests w ++ new
       ∧ NoDup (req_index <$> new).
Proof.
  intros Hnd.
  destruct (download_videos_log yt bl cap platform ext w) as (new & Hreq & _ & Hnd' & _).
  exists new. split; [done|]. by apply Hnd'.
Qed.

Lemma download_videos_one_call_per_row_witness :
  ∃ new, requests (download_videos give_way give_way None "youtube" ".mp4"
                     plain_world).2 = requests plain_world ++ new
       ∧ NoDup (req_index <$> new).
Proof.
  apply (download_videos_one_call_per_row give_way give_way None "youtube" ".mp4"
           plain_world).
  apply (bool_decide_unpack _). by vm_compute.
Defined.

(** A class id that goes with two names is passed over twice, and a
    row whose download fails is called for twice in one run. *)
Example download_videos_renamed_class :
  req_index <$> requests (download_videos give_way give_way None "youtube" ".mp4"
                            renamed_world).2
  = [0; 0; 2]%nat.
Proof. reflexivity. Qed.

(** The table printed is the table of the frame returned. *)
Lemma download_videos_prints_table yt bl (cap : option Z) (platform ext : string)
    (w : world) :
  supported platform → NoDup (classes_of (videos w)).*1 →
  let w' := (download_videos yt bl cap platform ext w).2 in
  stdout w' = stdout w ++ [table (videos w')].
Proof.
  intros Hp Hnd. cbv zeta.
  destruct (download_videos_spec yt bl cap platform ext w Hp) as (Hmarks & _).
  cbv zeta in Hmarks. unfold table. rewrite (classes_of_marks _ _ Hmarks).
  rewrite download_videos_videos, download_videos_eq.
  destruct (for_classes_counts yt bl cap platform ext (classes_of (videos w)) []
              (makedirs_root w).2 Hp Hnd) as (w1 & -> & Hout).
  assert (stdout (makedirs_root w).2 = stdout w) as Ho0.
  { unfold makedirs_root, modify. simpl. by destruct (output_root w). }
  rewrite Ho0 in Hout. cbn [snd app].
  destruct (0 <? total _); [simpl; by rewrite Hout|].
  match goal with |- context [rmdir_root ?x] =>
    destruct (rmdir_root_frame x) as [_ Hso]; destruct (rmdir_root x) as [[[]|e] w2]
  end; simpl in *; by rewrite Hso, Hout.
Qed.



(** *** The order of the calls *)

Lemma StronglySorted_sublist {A} (R : A → A → Prop) (l k : list A) :
  l `sublist_of` k → StronglySorted R k → StronglySorted R l.
Proof.
  induction 1 as [|x l k Hlk IH|x l k Hlk IH]; intros Hk; [done|..].
  - apply StronglySorted_cons in Hk as [Hx Hk]. constructor; [by apply IH|].
    apply Forall_forall. intros y Hy. apply (proj1 (Forall_forall _ _) Hx).
    by eapply elem_of_sublist.
  - apply StronglySorted_cons in Hk as [_ Hk]. by apply IH.
Qed.

Lemma seq_lt_sorted (a n : nat) : StronglySorted lt (seq a n).
Proof.
  revert a. induction n as [|n IH]; intros a; [constructor|].
  simpl. constructor; [apply IH|]. apply Forall_forall. intros k [Hk _]%elem_of_seq. lia.
Qed.

Lemma by_class_sorted cid vs : StronglySorted lt (by_class cid vs).*1.
Proof.
  assert ((imap pair vs).*1 = seq 0 (length vs)) as Hseq.
  { pose proof (imap_pair_fst id vs) as H. by rewrite list_fmap_id in H. }
  unfold by_class. apply (StronglySorted_sublist _ _ (imap pair vs).*1).
  - apply fmap_sublist, sublist_filter.
  - rewrite Hseq. apply seq_lt_sorted.
Qed.

Section Order.

Variable yt bl : string → string → string → list string → bool * list string.

(** The calls of a pass are made in the order of its rows. *)
Lemma iterrows_order cap platform ext dir rows c w :
  StronglySorted lt rows.*1 →
  ∃ new, requests (iterrows yt bl cap platform ext dir rows c w).2 = requests w ++ new
       ∧ Forall (λ q, req_dir q = dir ∧ req_index q ∈ rows.*1) new
       ∧ StronglySorted lt (req_index <$> new).
Proof.
  revert c w. induction rows as [|[i row] rows IH]; intros c w Hsorted.
  { exists []. rewrite app_nil_r. by repeat constructor. }
  rewrite fmap_cons in Hsorted. apply StronglySorted_cons in Hsorted as [Hi Hsorted].
  assert (∀ new : list request,
            Forall (λ q, req_dir q = dir ∧ req_index q ∈ rows.*1) new →
            Forall (λ q, req_dir q = dir ∧ req_index q ∈ ((i, row) :: rows).*1) new)
    as Hweaken.
  { intros new Hall. eapply Forall_impl; [exact Hall|].
    intros q [Hq Hin]. split; [done|]. rewrite fmap_cons. by right. }
  rewrite iterrows_cons.
  destruct (cap_reached cap c).
  { exists []. rewrite app_nil_r. by repeat constructor. }
  destruct (download row).
  { destruct (IH c w Hsorted) as (new & Hreq & Hall & Hord). exists new. auto. }
  rewrite attempt_eq. destruct (chosen yt bl platform ext row) as [[prim f]|].
  2:{ exists []. rewrite app_nil_r. by repeat constructor. }
  unfold call. destruct (prim _ _ _ _) as [d es'].
  match goal with |- context [iterrows _ _ _ _ _ _ _ ?c' ?w'] =>
    destruct (IH c' w' Hsorted) as (new & Hreq & Hall & Hord) end.
  exists (Request i (video_url row) f dir d :: new). split; [|split].
  - rewrite Hreq. simpl. by rewrite <- app_assoc.
  - constructor; [|auto]. split; [done|]. rewrite fmap_cons. by left.
  - rewrite fmap_cons. constructor; [done|]. apply Forall_fmap, Forall_forall.
    intros q Hq. apply (proj1 (Forall_forall _ _) Hall) in Hq as [_ Hq].
    by apply (proj1 (Forall_forall _ _) Hi).
Qed.

(** The calls of the loop over the classes: those of the first class,
    then those of the second, and so on. *)
Lemma for_classes_order cap platform ext classes count_tracker w :
  ∃ calls : list (list request),
    requests (for_classes yt bl cap platform ext classes count_tracker w).2
    = requests w ++ concat calls
    ∧ Forall2 (λ (cc : Z * string) new,
                 Forall (λ q, req_dir q = pretty cc.1) new
                 ∧ StronglySorted lt (req_index <$> new)) classes calls.
Proof.
  revert count_tracker w.
  induction classes as [|[cid_ cls_] classes IH]; intros count_tracker w.
  { exists []. rewrite app_nil_r. by split. }
  rewrite for_classes_cons. cbv zeta.
  destruct (iterrows_order cap platform ext (pretty cid_) (by_class cid_ (videos w))
              (sum_download (by_class cid_ (videos w))) (makedirs (pretty cid_) w).2
              (by_class_sorted _ _)) as (new1 & Hreq1 & Hall1 & Hord1).
  destruct (makedirs_frame (pretty cid_) w) as [Hr0 _]. rewrite Hr0 in Hreq1.
  assert (Forall (λ q, req_dir q = pretty cid_) new1) as Hdir1.
  { eapply Forall_impl; [exact Hall1|]. by intros q [? _]. }
  destruct (iterrows _ _ _ _ _ _ _ _ _) as [[c'|e] w1]; cbn [snd] in *.
  - destruct (IH (count_tracker ++ [new_record cid_ cls_ c'])
                (try_rmdir (pretty cid_) w1).2) as (calls & Hreq & Hcalls).
    destruct (try_rmdir_frame (pretty cid_) w1) as [Hr1 _]. rewrite Hr1, Hreq1 in Hreq.
    exists (new1 :: calls). split; [by rewrite Hreq; simpl; rewrite app_assoc|].
    by constructor.
  - exists (new1 :: replicate (length classes) []). split.
    + assert (∀ n, concat (replicate n ([] : list request)) = []) as Hnil.
      { induction n as [|n IHn]; [done | exact IHn]. }
      by rewrite Hreq1, concat_cons, Hnil, app_nil_r.
    + constructor; [done|]. clear. induction classes as [|cc classes IH]; simpl; [done|].
      constructor; [|done]. split; constructor.
Qed.

End Order.

(** X11: the calls that [download_videos] makes in a run are the calls
    for the first class of the frame, then those for the second, and
    so on in the order in which the classes first appear in the frame;
    the calls for a class go to the directory of that class and are
    made in the order of its rows. *)
Theorem download_videos_calls_in_order yt bl (cap : option Z) (platform ext : string)
    (w : world) :
  ∃ calls : list (list request),
    requests (download_videos yt bl cap platform ext w).2 = requests w ++ concat calls
    ∧ Forall2 (λ (cc : Z * string) new,
                 Forall (λ q, req_dir q = pretty cc.1) new
                 ∧ StronglySorted lt (req_index <$> new))
        (classes_of (videos w)) calls.
Proof.
  rewrite download_videos_requests.
  destruct (for_classes_order yt bl cap platform ext (classes_of (videos w)) []
              (makedirs_root w).2) as (calls & Hreq & Hcalls).
  assert (requests (makedirs_root w).2 = requests w) as Hr0.
  { unfold makedirs_root, modify. simpl. by destruct (output_root w). }
  rewrite Hr0 in Hreq. by exists calls.
Qed.

Example download_videos_calls_plain :
  (λ q, (req_dir q, req_index q))
    <$> requests (download_videos succeed succeed None "youtube" ".mp4" plain_world).2
  = [("0", 0%nat); ("0", 1%nat); ("1", 2%nat)].
Proof. reflexivity. Qed.

(** *** A class that has reached the cap *)

Section Capped.

Variable yt bl : string → string → string → list string → bool * list string.

Lemma iterrows_capped k platform ext dir rows c w :
  k ≤ c → iterrows yt bl (Some k) platform ext dir rows c w = (Ok c, w).
Proof.
  intros Hk. destruct rows as [|[i row] rows]; [done|].
  rewrite iterrows_cons. simpl. by destruct (Z.leb_spec k c); [|lia].
Qed.

Lemma for_classes_capped k platform ext cid classes count_tracker w :
  k ≤ downloaded cid (videos w) →
  let w' := (for_classes yt bl (Some k) platform ext classes count_tracker w).2 in
  ∃ new, requests w' = requests w ++ new
       ∧ ∀ q, q ∈ new → ∃ r, videos w !! req_index q = Some r ∧ class_id r ≠ cid.
Proof.
  revert count_tracker w.
  induction classes as [|[cid_ cls_] classes IH]; intros count_tracker w Hk; cbv zeta.
  { exists []. rewrite app_nil_r. split; [done|]. by intros q ?%elem_of_nil. }
  rewrite for_classes_cons. cbv zeta.
  set (rows := by_class cid_ (videos w)).
  set (w0 := (makedirs (pretty cid_) w).2).
  assert (videos w0 = videos w) as Hw0 by apply makedirs_videos.
  assert (requests w0 = requests w) as Hr0 by apply makedirs_frame.
  destruct (decide (cid_ = cid)) as [->|Hne].
  - rewrite iterrows_capped by done.
    destruct (IH (count_tracker ++ [new_record cid cls_ (sum_download rows)])
                (try_rmdir (pretty cid) w0).2) as (new & Hreq & Hnew).
    { by rewrite try_rmdir_videos, Hw0. }
    rewrite try_rmdir_videos, Hw0 in Hnew.
    destruct (try_rmdir_frame (pretty cid) w0) as [Hr1 _]. rewrite Hr1, Hr0 in Hreq.
    by exists new.
  - destruct (iterrows_log yt bl (Some k) platform ext (pretty cid_) rows
                (sum_download rows) w0)
      as (new1 & Hreq1 & _ & Hnew1 & Hframe1 & _).
    { apply by_class_NoDup. }
    { intros i row Hin%by_class_spec. rewrite Hw0. tauto. }
    pose proof (iterrows_other yt bl (Some k) platform ext (pretty cid_) cid_ cid rows
                  (sum_download rows) w0) as Hsame.
    pose proof (iterrows_length yt bl (Some k) platform ext (pretty cid_) rows
                  (sum_download rows) w0) as Hlen.
    rewrite Hw0 in Hsame, Hlen, Hframe1. rewrite Hr0 in Hreq1.
    assert (∀ q, q ∈ new1 → ∃ r, videos w !! req_index q = Some r ∧ class_id r ≠ cid)
      as Hnew1'.
    { intros q Hq. destruct (Hnew1 q Hq) as (row & [Hi Hc]%by_class_spec & _).
      exists row. split; [done|]. congruence. }
    destruct (iterrows _ _ _ _ _ _ _ _ _) as [[c'|e] w1]; cbn [snd] in *.
    2:{ by exists new1. }
    destruct (IH (count_tracker ++ [new_record cid_ cls_ c'])
                (try_rmdir (pretty cid_) w1).2) as (new2 & Hreq2 & Hnew2).
    { rewrite try_rmdir_videos, Hsame; [done|done|].
      intros i row [Hi Hc]%by_class_spec. by exists row. }
    rewrite try_rmdir_videos in Hnew2.
    destruct (try_rmdir_frame (pretty cid_) w1) as [Hr1 _]. rewrite Hr1, Hreq1 in Hreq2.
    exists (new1 ++ new2). split; [by rewrite Hreq2, app_assoc|].
    intros q [Hq|Hq]%elem_of_app; [by apply Hnew1'|].
    destruct (Hnew2 q Hq) as (r1 & Hr1' & Hc1).
    destruct (lookup_lt_is_Some_2 (videos w) (req_index q)) as [r Hr].
    { rewrite <- Hlen. by eapply lookup_lt_Some. }
    exists r. split; [done|].
    destruct (decide (req_index q ∈ req_index <$> new1))
      as [(q1 & Hqi & Hq1)%list_elem_of_fmap|Hout].
    + destruct (Hnew1' q1 Hq1) as (r' & Hr' & Hc'). rewrite <- Hqi, Hr in Hr'.
      by injection Hr' as <-.
    + rewrite (Hframe1 _ Hout), Hr in Hr1'. by injection Hr1' as <-.
Qed.

End Capped.

(** X12: with a cap, no download primitive is called for a row of a
    class that already had as many rows marked as downloaded as the
    cap allows when the run started. *)
Theorem download_videos_skips_capped_class yt bl (k : Z) (platform ext : string)
    (w : world) (cid : Z) :
  k ≤ downloaded cid (videos w) →
  ∃ new, requests (download_videos yt bl (Some k) platform ext w).2 = requests w ++ new
       ∧ ∀ q, q ∈ new → ∃ r, videos w !! req_index q = Some r ∧ class_id r ≠ cid.
Proof.
  intros Hk. rewrite download_videos_requests.
  destruct (for_classes_capped yt bl k platform ext cid (classes_of (videos w)) []
              (makedirs_root w).2) as (new & Hreq & Hnew).
  { by rewrite makedirs_root_videos. }
  rewrite makedirs_root_videos in Hnew.
  assert (requests (makedirs_root w).2 = requests w) as Hr0.
  { unfold makedirs_root, modify. simpl. by destruct (output_root w). }
  rewrite Hr0 in Hreq. by exists new.
Qed.

Lemma download_videos_skips_capped_class_witness :
  ∃ new, requests (download_videos succeed succeed (Some 1) "youtube" ".mp4"
                     renamed_world).2 = requests renamed_world ++ new
       ∧ ∀ q, q ∈ new → ∃ r, videos renamed_world !! req_index q = Some r
                            ∧ class_id r ≠ 0.
Proof.
  apply (download_videos_skips_capped_class succeed succeed 1 "youtube" ".mp4"
           renamed_world 0).
  by vm_compute.
Defined.

(** *** A platform without a primitive *)

Section Unsupported.

Variable yt bl : string → string → string → list string → bool * list string.

Lemma attempt_unsupported platform ext dir i row w :
  ¬ supported platform →
  attempt yt bl platform ext dir i row w = (Raise UnboundLocalError, w).
Proof.
  intros Hn. unfold attempt. rewrite !decide_False; [done|..];
    intros ->; apply Hn; unfold supported; auto.
Qed.

(** A pass returns without a call when the cap is reached or every row
    is marked, and raises at the first row that is not. *)
Lemma iterrows_unsupported cap platform ext dir rows c w :
  ¬ supported platform →
  iterrows yt bl cap platform ext dir rows c w
  = (if cap_reached cap c || forallb (λ ir, download ir.2) rows
     then Ok c else Raise UnboundLocalError, w).
Proof.
  intros Hn. induction rows as [|[i row] rows IH]; [by rewrite orb_true_r|].
  rewrite iterrows_cons. destruct (cap_reached cap c) eqn:Hcap; [done|].
  simpl. destruct (download row); simpl.
  - by rewrite IH.
  - by rewrite attempt_unsupported.
Qed.

Lemma fetch_classes_unsupported cap platform ext classes count_tracker w :
  ¬ supported platform →
  let run := for_classes yt bl cap platform ext classes count_tracker w in
  requests run.2 = requests w ∧ videos run.2 = videos w
  ∧ ((∃ cid r, cid ∈ classes.*1 ∧ r ∈ videos w ∧ class_id r = cid ∧ download r = false
             ∧ cap_reached cap (downloaded cid (videos w)) = false) →
     run.1 = Raise UnboundLocalError).
Proof.
  intros Hn. revert count_tracker w.
  induction classes as [|[cid_ cls_] classes IH]; intros count_tracker w; cbv zeta.
  { split; [done|]. split; [done|]. by intros (cid & r & ?%elem_of_nil & _). }
  rewrite for_classes_cons. cbv zeta. rewrite iterrows_unsupported by done.
  set (rows := by_class cid_ (videos w)).
  set (w0 := (makedirs (pretty cid_) w).2).
  assert (videos w0 = videos w) as Hw0 by apply makedirs_videos.
  assert (requests w0 = requests w) as Hr0 by apply makedirs_frame.
  destruct (cap_reached cap (sum_download rows) || forallb (λ ir, download ir.2) rows)
    eqn:Hpass.
  - destruct (IH (count_tracker ++ [new_record cid_ cls_ (sum_download rows)])
                (try_rmdir (pretty cid_) w0).2) as (Hreq & Hvs & Hraise).
    rewrite try_rmdir_videos, Hw0 in Hvs, Hraise.
    destruct (try_rmdir_frame (pretty cid_) w0) as [Hr1 _]. rewrite Hr1, Hr0 in Hreq.
    split; [done|]. split; [done|].
    intros (cid & r & Hcid & Hr & Hc & Hd & Hcap). apply Hraise.
    exists cid, r. split; [|done]. rewrite fmap_cons in Hcid.
    apply elem_of_cons in Hcid as [->|?]; [|done]. exfalso.
    apply orb_true_iff in Hpass as [Hpass|Hpass].
    + unfold rows in Hpass. simpl in Hcap. unfold downloaded in Hcap. congruence.
    + apply list_elem_of_lookup_1 in Hr as [i Hi].
      assert ((i, r) ∈ rows) as Hin by (by apply by_class_spec).
      rewrite forallb_forall in Hpass. apply list_elem_of_In in Hin.
      specialize (Hpass _ Hin). simpl in Hpass. congruence.
  - cbn [fst snd]. by rewrite Hw0, Hr0.
Qed.

End Unsupported.

(** X13: called with a platform name other than "youtube" and
    "bilibili", [download_videos] calls no primitive and leaves the
    frame as it is; when some row is not marked as downloaded, in a
    class whose marked rows do not reach the cap, it ends in
    [UnboundLocalError]. *)
Theorem download_videos_unsupported_platform yt bl (cap : option Z)
    (platform ext : string) (w : world) :
  ¬ supported platform →
  let run := download_videos yt bl cap platform ext w in
  requests run.2 = requests w
  ∧ videos run.2 = videos w
  ∧ ((∃ r, r ∈ videos w ∧ download r = false
         ∧ cap_reached cap (downloaded (class_id r) (videos w)) = false) →
     run.1 = Raise UnboundLocalError).
Proof.
  intros Hn. cbv zeta.
  destruct (fetch_classes_unsupported yt bl cap platform ext (classes_of (videos w)) []
              (makedirs_root w).2 Hn) as (Hreq & Hvs & Hraise).
  rewrite makedirs_root_videos in Hvs, Hraise.
  assert (requests (makedirs_root w).2 = requests w) as Hr0.
  { unfold makedirs_root, modify. simpl. by destruct (output_root w). }
  rewrite Hr0 in Hreq.
  split; [by rewrite download_videos_requests|].
  split; [by rewrite download_videos_videos|].
  intros (r & Hr & Hd & Hcap). rewrite download_videos_eq.
  rewrite (surjective_pairing (for_classes _ _ _ _ _ _ _ _)), Hraise; [done|].
  exists (class_id r), r. split; [by apply classes_of_elem|done].
Qed.

Lemma download_videos_unsupported_platform_witness :
  let run := download_videos succeed succeed None "vimeo" ".mp4" plain_world in
  requests run.2 = requests plain_world
  ∧ videos run.2 = videos plain_world
  ∧ run.1 = Raise UnboundLocalError.
Proof.
  destruct (download_videos_unsupported_platform succeed succeed None "vimeo" ".mp4"
              plain_world) as (Hreq & Hvs & Hraise).
  - by intros [?|?].
  - split; [done|]. split; [done|]. apply Hraise.
    eexists. split; [by left|]. by split.
Defined.

(** *** main, from the ledger file to the file it writes *)

Global Instance supported_dec platform : Decision (supported platform).
Proof. unfold supported. apply _. Defined.

(** The function that derives [video_name] for a platform. *)
Definition get_id (platform : string) : string → result string :=
  if decide (platform = "youtube") then _get_youtube_video_id
  else _get_bilibili_video_id.

Lemma apply_video_name_ok f g vs w :
  (∀ r, r ∈ vs → f (video_url r) = Ok (g r)) →
  apply_video_name f vs w = (Ok ((λ r, set_video_name (g r) r) <$> vs), w).
Proof.
  induction vs as [|r vs IH]; intros Hall; [done|].
  simpl. rewrite (Hall r) by (by left).
  unfold mbind, M_bind. rewrite IH; [done|]. intros r' Hr'. apply Hall. by right.
Qed.

Lemma apply_video_name_world f vs w : (apply_video_name f vs w).2 = w.
Proof.
  induction vs as [|r vs IH]; [done|]. simpl.
  destruct (f (video_url r)); [|done]. unfold mbind, M_bind.
  by destruct (apply_video_name f vs w) as [[named|e] w'].
Qed.

Lemma apply_video_name_named f vs w named :
  (apply_video_name f vs w).1 = Ok named →
  length named = length vs
  ∧ ∀ i r, vs !! i = Some r → ∃ s, named !! i = Some (set_video_name s r).
Proof.
  revert named; induction vs as [|r vs IH]; intros named.
  { intros [= <-]. split; [done|]. by intros i r' ?. }
  simpl. destruct (f (video_url r)) as [s|e]; [|done]. unfold mbind, M_bind.
  destruct (apply_video_name f vs w) as [[named'|e] w']; [|done].
  intros [= <-]. destruct (IH named' eq_refl) as [Hlen Hrows]. split.
  - simpl. by rewrite Hlen.
  - intros [|i] r'; simpl; [intros [= <-]; by exists s | apply Hrows].
Qed.

Lemma apply_video_name_raises f vs w r e :
  r ∈ vs → f (video_url r) = Raise e →
  (∀ u e', f u = Raise e' → e' = AssertionError) →
  apply_video_name f vs w = (Raise AssertionError, w).
Proof.
  intros Hr Hraise Honly. induction vs as [|r' vs IH]; [by apply elem_of_nil in Hr|].
  simpl. destruct (f (video_url r')) as [s|e'] eqn:Hf.
  - apply elem_of_cons in Hr as [->|Hr]; [congruence|].
    unfold mbind, M_bind. by rewrite IH.
  - by rewrite (Honly _ _ Hf).
Qed.

Lemma get_id_raises platform u e : get_id platform u = Raise e → e = AssertionError.
Proof.
  unfold get_id, _get_youtube_video_id, _get_bilibili_video_id.
  case_decide; destruct (negb _); congruence.
Qed.

Lemma main_eq yt bl platform cap w :
  main yt bl platform cap w
  = let w0 := set_videos (csv_rows (file w)) w in
    match (if has_video_name (file w) then (Ok true, w0)
           else if decide (supported platform) then
             match apply_video_name (get_id platform) (csv_rows (file w)) w0 with
             | (Ok vs, w1) => (Ok true, set_videos vs w1)
             | (Raise e, w1) => (Raise e, w1)
             end
           else (Ok false, w0)) with
    | (Raise e, w1) => (Raise e, w1)
    | (Ok has_name, w1) =>
        match check_downloaded has_name w1 with
        | (Raise e, w2) => (Raise e, w2)
        | (Ok _, w2) =>
            if decide (supported platform) then
              match download_videos yt bl cap platform ".mp4" w2 with
              | (Ok vs', w3) => (Ok tt, to_csv vs' w3)
              | (Raise e, w3) => (Raise e, w3)
              end
            else (Ok tt, w2)
        end
    end.
Proof.
  assert (∀ p, ¬ supported p → p ≠ "youtube" ∧ p ≠ "bilibili") as Hun.
  { intros p Hn. split; intros ->; apply Hn; unfold supported; auto. }
  unfold main, get_id, mbind, M_bind, gets, modify, mret, M_ret. cbv zeta. simpl.
  destruct (has_video_name (file w)).
  - destruct (check_downloaded true _) as [[[]|e] w2]; [|done].
    destruct (decide (supported platform)) as [[-> | ->]|[??]%Hun]; [done..|].
    by do 2 (case_decide; [done|]).
  - destruct (decide (supported platform)) as [[-> | ->]|[??]%Hun].
    + simpl. destruct (apply_video_name _ _ _) as [[vs|e] w1]; [|done].
      by destruct (check_downloaded true _) as [[[]|e] w2].
    + simpl. destruct (apply_video_name _ _ _) as [[vs|e] w1]; [|done].
      by destruct (check_downloaded true _) as [[[]|e] w2].
    + do 2 (case_decide; [done|]).
      by destruct (check_downloaded false _) as [[[]|e] w2].
Qed.


Lemma apply_video_name_only_asserts platform vs w e :
  (apply_video_name (get_id platform) vs w).1 = Raise e → e = AssertionError.
Proof.
  induction vs as [|r vs IH]; [done|]. simpl.
  destruct (get_id platform (video_url r)) as [s|e'] eqn:Hf.
  - unfold mbind, M_bind.
    destruct (apply_video_name _ vs w) as [[named|e'] w']; [done|].
    simpl in *. intros [= <-]. by apply IH.
  - simpl. intros [= <-]. by eapply get_id_raises.
Qed.

(** Two worlds that differ in the frame only. *)
Definition same_disk (w w' : world) : Prop :=
  output_root w' = output_root w ∧ requests w' = requests w
  ∧ stdout w' = stdout w ∧ file w' = file w.

Lemma same_disk_trans w1 w2 w3 : same_disk w1 w2 → same_disk w2 w3 → same_disk w1 w3.
Proof. unfold same_disk. intros (?&?&?&?) (?&?&?&?). split_and!; congruence. Qed.

Lemma for_files_disk b files w : same_disk w (for_files b files w).2.
Proof.
  destruct b; [by rewrite for_files_true|]. by destruct files.
Qed.

Lemma for_dirs_disk b dirs w : same_disk w (for_dirs b dirs w).2.
Proof.
  revert w; induction dirs as [|[d files] dirs IH]; intros w; [done|].
  simpl. unfold mbind, M_bind. pose proof (for_files_disk b files w) as Hf.
  destruct (for_files b files w) as [[[]|e] w1]; [|done].
  eapply same_disk_trans; [exact Hf | apply IH].
Qed.

Lemma check_downloaded_disk b w : same_disk w (check_downloaded b w).2.
Proof.
  unfold check_downloaded, mbind, M_bind, modify, gets. simpl.
  destruct (output_root w) as [t|]; [|done].
  set (w1 := set_videos _ w). change (same_disk w1 (for_dirs b (map_to_list t) w1).2).
  apply for_dirs_disk.
Qed.

Lemma check_downloaded_missing b w :
  output_root w = None →
  (check_downloaded b w).1 = Raise FileNotFoundError.
Proof.
  intros Hroot. unfold check_downloaded, mbind, M_bind, modify, gets. simpl.
  by rewrite Hroot.
Qed.

Lemma download_videos_returns yt bl cap platform ext w vs :
  (download_videos yt bl cap platform ext w).1 = Ok vs →
  vs = videos (download_videos yt bl cap platform ext w).2.
Proof.
  rewrite download_videos_eq.
  destruct (for_classes _ _ _ _ _ _ _ _) as [[tr|e] w']; [|done].
  destruct (0 <? total tr); [by intros [= <-]|].
  destruct (rmdir_root _) as [[[]|e] w'']; [by intros [= <-] | done].
Qed.

(** A ledger with its [video_name] column, and no output root. *)
Definition fresh_world : world :=
  World [] None [] [] (Csv plain_videos true).

(** X14: when the output path does not exist, [main] ends in the
    exception of [os.listdir], or before that in the assertion of the
    function that derives [video_name]: no download primitive is
    called, no directory is created and the ledger file is not
    written. *)
Theorem main_needs_output_root yt bl (platform : string) (cap : option Z) (w : world) :
  output_root w = None →
  let run := main yt bl platform cap w in
  (run.1 = Raise FileNotFoundError
   ∨ (has_video_name (file w) = false ∧ run.1 = Raise AssertionError))
  ∧ requests run.2 = requests w
  ∧ output_root run.2 = None
  ∧ file run.2 = file w.
Proof.
  intros Hroot. cbv zeta. rewrite main_eq. cbv zeta.
  set (w0 := set_videos (csv_rows (file w)) w).
  assert (∀ b w1 (k : world → result unit * world), same_disk w w1 →
            let run := match check_downloaded b w1 with
                       | (Ok _, w2) => k w2
                       | (Raise e, w2) => (Raise e, w2)
                       end in
            run.1 = Raise FileNotFoundError
            ∧ requests run.2 = requests w ∧ output_root run.2 = None
            ∧ file run.2 = file w) as Hscan.
  { intros b w1 k (Hr1 & Hq1 & _ & Hf1). cbv zeta.
    pose proof (check_downloaded_missing b w1) as Hmiss.
    pose proof (check_downloaded_disk b w1) as (Hr2 & Hq2 & _ & Hf2).
    rewrite Hr1 in Hmiss. specialize (Hmiss Hroot).
    destruct (check_downloaded b w1) as [[[]|e] w2]; simpl in *; [done|].
    rewrite Hmiss. split_and!; congruence. }
  destruct (has_video_name (file w)) eqn:Hname.
  - destruct (Hscan true w0
                (λ w2, if decide (supported platform) then
                         match download_videos yt bl cap platform ".mp4" w2 with
                         | (Ok vs', w3) => (Ok tt, to_csv vs' w3)
                         | (Raise e, w3) => (Raise e, w3)
                         end
                       else (Ok tt, w2))) as (H1 & H2); [done|].
    split; [by left|done].
  - destruct (decide (supported platform)) as [Hp|Hn].
    + pose proof (apply_video_name_only_asserts platform (csv_rows (file w)) w0) as Honly.
      pose proof (apply_video_name_world (get_id platform) (csv_rows (file w)) w0) as Hw.
      destruct (apply_video_name _ _ _) as [[vs|e] w1]; simpl in Hw, Honly; subst w1.
      * destruct (Hscan true (set_videos vs w0)
                    (λ w2, match download_videos yt bl cap platform ".mp4" w2 with
                           | (Ok vs', w3) => (Ok tt, to_csv vs' w3)
                           | (Raise e, w3) => (Raise e, w3)
                           end)) as (H1 & H2); [done|].
        split; [by left|done].
      * rewrite (Honly e eq_refl). split; [by right|done].
    + destruct (Hscan false w0 (λ w2, (Ok tt, w2))) as (H1 & H2); [done|].
      split; [by left|done].
Qed.

Lemma main_needs_output_root_witness :
  let run := main succeed succeed "youtube" None fresh_world in
  (run.1 = Raise FileNotFoundError
   ∨ (has_video_name (file fresh_world) = false ∧ run.1 = Raise AssertionError))
  ∧ requests run.2 = requests fresh_world
  ∧ output_root run.2 = None
  ∧ file run.2 = file fresh_world.
Proof.
  apply (main_needs_output_root succeed succeed "youtube" None fresh_world).
  reflexivity.
Defined.

Lemma check_downloaded_errors b w e :
  (check_downloaded b w).1 = Raise e → e = FileNotFoundError ∨ e = KeyError.
Proof.
  unfold check_downloaded, mbind, M_bind, modify, gets. simpl.
  destruct (output_root w) as [t|]; [|intros [= <-]; by left].
  destruct b; [by rewrite for_dirs_true|]. intros He. right. revert He.
  generalize (set_videos (set_download false <$> videos w) w).
  induction (map_to_list t) as [|[d files] dirs IH]; intros w1; [done|].
  simpl. unfold mbind, M_bind. destruct files as [|f files]; simpl; [apply IH|].
  by intros [= <-].
Qed.

(** X15: with a platform name other than "youtube" and "bilibili",
    compared as written, [main] calls no download primitive, leaves
    the directories as they are and does not write the ledger file;
    it ends normally, or in the exception of [os.listdir] on a missing
    output path, or in that of the comparison with a [video_name]
    column that is not there. *)
Theorem main_skips_other_platforms yt bl (platform : string) (cap : option Z)
    (w : world) :
  ¬ supported platform →
  let run := main yt bl platform cap w in
  requests run.2 = requests w
  ∧ output_root run.2 = output_root w
  ∧ file run.2 = file w
  ∧ stdout run.2 = stdout w
  ∧ (run.1 = Ok tt ∨ run.1 = Raise FileNotFoundError ∨ run.1 = Raise KeyError).
Proof.
  intros Hn. cbv zeta. rewrite main_eq. cbv zeta.
  set (w0 := set_videos (csv_rows (file w)) w).
  assert (∀ b, let run := match check_downloaded b w0 with
                          | (Ok _, w2) => (Ok tt, w2)
                          | (Raise e, w2) => (Raise e, w2)
                          end in
               requests run.2 = requests w ∧ output_root run.2 = output_root w
               ∧ file run.2 = file w ∧ stdout run.2 = stdout w
               ∧ (run.1 = Ok tt ∨ run.1 = Raise FileNotFoundError
                  ∨ run.1 = Raise KeyError)) as Hscan.
  { intros b. cbv zeta.
    pose proof (check_downloaded_disk b w0) as (Hr & Hq & Ho & Hf).
    pose proof (check_downloaded_errors b w0) as Herr.
    destruct (check_downloaded b w0) as [[[]|e] w2]; simpl in *.
    - split_and!; [done..|by left].
    - split_and!; [done..|]. right. destruct (Herr e eq_refl) as [-> | ->]; auto. }
  destruct (decide (supported platform)); [done|].
  destruct (has_video_name (file w)).
  - specialize (Hscan true). cbv zeta in Hscan.
    by destruct (check_downloaded true w0) as [[[]|e] w2].
  - specialize (Hscan false). cbv zeta in Hscan.
    by destruct (check_downloaded false w0) as [[[]|e] w2].
Qed.

Lemma main_skips_other_platforms_witness :
  let run := main succeed succeed "YouTube" None fresh_world in
  requests run.2 = requests fresh_world
  ∧ output_root run.2 = output_root fresh_world
  ∧ file run.2 = file fresh_world
  ∧ stdout run.2 = stdout fresh_world
  ∧ (run.1 = Ok tt ∨ run.1 = Raise FileNotFoundError ∨ run.1 = Raise KeyError).
Proof.
  apply (main_skips_other_platforms succeed succeed "YouTube" None fresh_world).
  by intros [?|?].
Defined.

(** A ledger without a [video_name] column, one of whose URLs is that
    of another site. *)
Definition foreign_world : world :=
  World [] (Some ∅) [] []
    (Csv [Video 0 "cat" 0 "t0" "https://www.youtube.com/watch?v=c0&t=1" "" false;
          Video 0 "cat" 1 "t1" "https://youtu.be/c1" "" false] false).

(** X16: when the ledger has no [video_name] column and the URL of
    some row does not hold the platform name, [main] ends in the
    assertion of the function that derives the name, whatever the
    other rows are: no download primitive is called, the directories
    are as they were and the ledger file is not written. *)
Theorem main_rejects_foreign_url yt bl (platform : string) (cap : option Z)
    (w : world) (r : video) :
  supported platform →
  has_video_name (file w) = false →
  r ∈ csv_rows (file w) →
  contains platform (video_url r) = false →
  let run := main yt bl platform cap w in
  run.1 = Raise AssertionError
  ∧ requests run.2 = requests w
  ∧ output_root run.2 = output_root w
  ∧ file run.2 = file w.
Proof.
  intros Hp Hname Hr Hurl. cbv zeta. rewrite main_eq. cbv zeta.
  rewrite Hname. destruct (decide (supported platform)); [|done].
  rewrite (apply_video_name_raises (get_id platform) _ _ r AssertionError); [done|done|..].
  - unfold get_id, _get_youtube_video_id, _get_bilibili_video_id.
    destruct Hp as [-> | ->]; simpl; by rewrite Hurl.
  - apply get_id_raises.
Qed.

Lemma main_rejects_foreign_url_witness :
  let run := main succeed succeed "youtube" None foreign_world in
  run.1 = Raise AssertionError
  ∧ requests run.2 = requests foreign_world
  ∧ output_root run.2 = output_root foreign_world
  ∧ file run.2 = file foreign_world.
Proof.
  apply (main_rejects_foreign_url succeed succeed "youtube" None foreign_world
           (Video 0 "cat" 1 "t1" "https://youtu.be/c1" "" false)).
  - by left.
  - reflexivity.
  - right. by left.
  - reflexivity.
Defined.





(** A frame in which every row is marked as downloaded is passed over
    without a call. *)
Lemma download_videos_all_marked yt bl cap platform ext w :
  (∀ r, r ∈ videos w → download r = true) →
  requests (download_videos yt bl cap platform ext w).2 = requests w
  ∧ videos (download_videos yt bl cap platform ext w).2 = videos w.
Proof.
  intros Hall.
  destruct (download_videos_log yt bl cap platform ext w)
    as (new & Hreq & (Hlen & Hnew & Hframe & _) & _).
  assert (new = []) as ->.
  { destruct new as [|q new]; [done|].
    destruct (Hnew q) as (r & Hr & _ & Hd & _); [by left|].
    apply list_elem_of_lookup_2 in Hr. by rewrite (Hall r Hr) in Hd. }
  rewrite app_nil_r in Hreq. split; [done|].
  apply list_eq. intros i. apply Hframe. by intros ?%elem_of_nil.
Qed.

(** A ledger without a [video_name] column, after a first run that
    fetched one video of its first class. *)
Definition nameless_world : world :=
  World [] (Some {[ "0" := [".mp4"] ]}) [] []
    (Csv [Video 0 "cat" 0 "t0" "https://www.youtube.com/watch?v=c0" "" false;
          Video 0 "cat" 1 "t1" "https://www.youtube.com/watch?v=c1" "" false;
          Video 1 "dog" 0 "t2" "https://www.youtube.com/watch?v=d0" "" false] false).

(** X18: on YouTube, for a ledger without a [video_name] column whose
    URLs hold no '&', every row is given the empty name, so that the
    file a download is asked to write is ".mp4" for each of them; and
    once a file of that name is in some class directory, the scan of
    [main] marks every row of every class as downloaded and no
    download primitive is called. *)
Theorem main_marks_every_nameless_row yt bl (cap : option Z) (w : world)
    (t : gmap string (list string)) (d : string) (files : list string) :
  has_video_name (file w) = false →
  (∀ r, r ∈ csv_rows (file w) →
     contains "youtube" (video_url r) = true ∧ contains "&" (video_url r) = false) →
  output_root w = Some t → t !! d = Some files → ".mp4" ∈ files →
  let run := main yt bl "youtube" cap w in
  requests run.2 = requests w
  ∧ videos run.2
    = (λ r, set_download true (set_video_name "" r)) <$> csv_rows (file w).
Proof.
  intros Hname Hurls Hroot Hd Hf. cbv zeta. rewrite main_eq. cbv zeta.
  rewrite Hname. destruct (decide (supported "youtube")) as [_|[]]; [|by left].
  rewrite (apply_video_name_ok (get_id "youtube") (λ _, "")).
  2:{ intros r Hr. destruct (Hurls r Hr). by apply youtube_id_empty. }
  rewrite (check_downloaded_true _ t) by done.
  set (vs := (λ r, set_download true (set_video_name "" r)) <$> csv_rows (file w)).
  match goal with |- context [download_videos _ _ _ _ _ ?x] => set (w2 := x) end.
  assert (videos w2 = vs) as Hvs.
  { unfold w2, vs. simpl. rewrite <- list_fmap_compose. apply list_fmap_ext.
    intros _ r _. simpl. f_equal. apply stem_among_entries. by exists d, files, ".mp4". }
  destruct (download_videos_all_marked yt bl cap "youtube" ".mp4" w2) as [Hreq Hframe].
  { rewrite Hvs. unfold vs. by intros r (r0 & -> & _)%list_elem_of_fmap. }
  rewrite Hvs in Hframe.
  destruct (download_videos yt bl cap "youtube" ".mp4" w2) as [[vs'|e] w3]; done.
Qed.

Lemma main_marks_every_nameless_row_witness :
  let run := main succeed succeed "youtube" None nameless_world in
  requests run.2 = requests nameless_world
  ∧ videos run.2
    = (λ r, set_download true (set_video_name "" r)) <$> csv_rows (file nameless_world).
Proof.
  apply (main_marks_every_nameless_row succeed succeed None nameless_world
           {[ "0" := [".mp4"] ]} "0" [".mp4"]).
  - reflexivity.
  - intros r Hr. repeat (apply elem_of_cons in Hr as [->|Hr]; [by split|]).
    by apply elem_of_nil in Hr.
  - reflexivity.
  - reflexivity.
  - by left.
Defined.

(** *** The output root after a run *)

Section Root.

Variable yt bl : string → string → string → list string → bool * list string.

Lemma iterrows_root cap platform ext dir rows c w :
  is_Some (output_root w) →
  is_Some (output_root (iterrows yt bl cap platform ext dir rows c w).2).
Proof.
  revert c w. induction rows as [|[i row] rows IH]; intros c w Hroot; [done|].
  rewrite iterrows_cons. destruct (cap_reached cap c); [done|].
  destruct (download row); [by apply IH|].
  rewrite attempt_eq. destruct (chosen yt bl platform ext row) as [[prim f]|]; [|done].
  unfold call. destruct (prim _ _ _ _) as [d es']. apply IH. by eexists.
Qed.

Lemma makedirs_keeps_root dir w : is_Some (output_root (makedirs dir w).2).
Proof.
  unfold makedirs, modify. simpl. destruct (output_root w) as [t|] eqn:Hroot; [|by eexists].
  destruct (t !! dir); [|by eexists]. rewrite Hroot. by eexists.
Qed.

Lemma try_rmdir_keeps_root dir w :
  is_Some (output_root w) → is_Some (output_root (try_rmdir dir w).2).
Proof.
  intros [t Hroot]. unfold try_rmdir, modify. simpl. rewrite Hroot.
  destruct (t !! dir) as [[|??]|]; simpl; rewrite ?Hroot; by eexists.
Qed.

Lemma for_classes_root cap platform ext classes count_tracker w :
  is_Some (output_root w) →
  is_Some (output_root (for_classes yt bl cap platform ext classes count_tracker w).2).
Proof.
  revert count_tracker w.
  induction classes as [|[cid_ cls_] classes IH]; intros count_tracker w Hroot; [done|].
  rewrite for_classes_cons. cbv zeta.
  pose proof (iterrows_root cap platform ext (pretty cid_) (by_class cid_ (videos w))
                (sum_download (by_class cid_ (videos w))) (makedirs (pretty cid_) w).2
                (makedirs_keeps_root _ _)) as Hpass.
  destruct (iterrows _ _ _ _ _ _ _ _ _) as [[c'|e] w1]; cbn [snd] in *; [|done].
  by apply IH, try_rmdir_keeps_root.
Qed.

End Root.

Lemma downloaded_nonneg cid vs : 0 ≤ downloaded cid vs.
Proof.
  rewrite downloaded_sum. induction vs as [|r vs IH]; simpl; [done|].
  pose proof (count_row_bounds cid r). lia.
Qed.

Lemma downloaded_cons cid r vs :
  downloaded cid (r :: vs) = count_row cid r + downloaded cid vs.
Proof. by rewrite !downloaded_sum. Qed.

Lemma downloaded_pos cid vs :
  0 < downloaded cid vs ↔ ∃ r, r ∈ vs ∧ class_id r = cid ∧ download r = true.
Proof.
  induction vs as [|r vs IH].
  { split; [by rewrite downloaded_sum|]. by intros (r & ?%elem_of_nil & _). }
  rewrite downloaded_cons. pose proof (count_row_bounds cid r) as Hb.
  pose proof (downloaded_nonneg cid vs) as Hnn. split.
  - intros Hpos. destruct (decide (count_row cid r = 0)) as [Hz|Hnz].
    + destruct (proj1 IH) as (r' & Hr' & Hrest); [lia|]. exists r'. split; [by right|done].
    + exists r. split; [by left|]. unfold count_row in Hnz.
      case_decide; [|done]. split; [done|]. by destruct (download r).
  - intros (r' & [->|Hr']%elem_of_cons & Hc & Hd).
    + assert (count_row cid r = 1); [|lia].
      unfold count_row. by rewrite decide_True, Hd.
    + assert (0 < downloaded cid vs); [|lia]. apply IH. by exists r'.
Qed.

Lemma total_cons ct count_tracker :
  total (ct :: count_tracker) = count ct + total count_tracker.
Proof. done. Qed.

(** The total printed is positive exactly when some row is marked. *)
Lemma total_table_pos vs :
  0 < total (table vs) ↔ ∃ r, r ∈ vs ∧ download r = true.
Proof.
  unfold table.
  assert (∀ classes : list (Z * string),
            0 ≤ total ((λ cc, new_record cc.1 cc.2 (downloaded cc.1 vs)) <$> classes)
            ∧ (0 < total ((λ cc, new_record cc.1 cc.2 (downloaded cc.1 vs)) <$> classes)
               ↔ ∃ cid, cid ∈ classes.*1 ∧ 0 < downloaded cid vs)) as Hsum.
  { induction classes as [|[cid cls_] classes [IHnn IH]].
    { split; [done|]. split; [done|]. by intros (cid & ?%elem_of_nil & _). }
    rewrite !fmap_cons, total_cons. cbn [count fst snd].
    pose proof (downloaded_nonneg cid vs) as Hnn. split; [lia|]. split.
    - intros Hpos. destruct (decide (0 < downloaded cid vs)) as [?|?].
      + exists cid. split; [by left|done].
      + destruct (proj1 IH) as (cid' & Hin & Hpos'); [lia|].
        exists cid'. split; [by right|done].
    - intros (cid' & [->|Hin]%elem_of_cons & Hpos); [lia|].
      assert (0 < total ((λ cc, new_record cc.1 cc.2 (downloaded cc.1 vs)) <$> classes));
        [|lia].
      apply IH. by exists cid'. }
  rewrite (proj2 (Hsum _)). split.
  - intros (cid & _ & (r & Hr & _ & Hd)%downloaded_pos). by exists r.
  - intros (r & Hr & Hd). exists (class_id r). split; [by apply classes_of_elem|].
    apply downloaded_pos. by exists r.
Qed.

(** X19: on a supported platform, when every class id of the frame goes
    with one class name, a run of [download_videos] that ends normally
    leaves the output root in place exactly when some row of the frame
    it returns is marked as downloaded, be it from this run or from
    before. *)
Theorem download_videos_keeps_root_iff_downloaded yt bl (cap : option Z)
    (platform ext : string) (w : world) (vs : list video) :
  supported platform → NoDup (classes_of (videos w)).*1 →
  let run := download_videos yt bl cap platform ext w in
  run.1 = Ok vs →
  (output_root run.2 ≠ None ↔ ∃ r, r ∈ vs ∧ download r = true).
Proof.
  intros Hp Hnd. cbv zeta.
  pose proof (download_videos_prints_table yt bl cap platform ext w Hp Hnd) as Hout.
  pose proof (download_videos_returns yt bl cap platform ext w vs) as Hret.
  cbv zeta in Hout. revert Hout Hret. rewrite download_videos_eq.
  pose proof (for_classes_root yt bl cap platform ext (classes_of (videos w)) []
                (makedirs_root w).2) as Hroot.
  destruct (for_classes _ _ _ _ _ _ _ _) as [[tr|e] w1]; [|done]. cbn [snd] in Hroot.
  destruct Hroot as [t Ht].
  { unfold makedirs_root, modify. simpl.
    destruct (output_root w) as [t0|] eqn:Hw; [rewrite Hw|]; by eexists. }
  destruct (Z.ltb_spec 0 (total tr)) as [Hpos|Hzero].
  - simpl. intros Hout Hret [= <-]. apply app_inj_tail in Hout as [_ ->].
    rewrite Ht. split; [intros _; by apply total_table_pos|done].
  - unfold rmdir_root. simpl. rewrite Ht. case_decide; [|done]. simpl.
    intros Hout Hret [= <-]. apply app_inj_tail in Hout as [_ ->]. split; [done|].
    intros Hrow%total_table_pos. lia.
Qed.

Lemma download_videos_keeps_root_iff_downloaded_witness :
  let run := download_videos give_way give_way None "youtube" ".mp4" plain_world in
  output_root run.2 ≠ None ↔ ∃ r, r ∈ plain_videos ∧ download r = true.
Proof.
  apply (download_videos_keeps_root_iff_downloaded give_way give_way None "youtube" ".mp4"
           plain_world plain_videos).
  - by left.
  - apply (bool_decide_unpack _). by vm_compute.
  - reflexivity.
Defined.

(** *** Resuming, continued *)




End FetcherFacts.

(** ** Facts about scrape_videos.py *)

Module CollectorFacts.
Import Collector.

(** *** The two search loops *)

(** Whether the Bilibili loop takes an element: its URL is there, holds
    "video", and its pair is not to be omitted. *)
Definition accepts (omit_videos : list (string * string)) (elem_ : element) : bool :=
  match href elem_ with
  | Some url_ => contains "video" url_ && bool_decide ((text elem_, url_) ∉ omit_videos)
  | None => false
  end.

Definition accepted (omit_videos : list (string * string)) (elements : list element) : Z :=
  Z.of_nat (length (filter (λ e, accepts omit_videos e = true) elements)).

Lemma accepted_cons omit_videos e elements :
  accepted omit_videos (e :: elements)
  = Z.b2z (accepts omit_videos e) + accepted omit_videos elements.
Proof.
  unfold accepted. rewrite filter_cons.
  case_decide as Ha; [rewrite Ha|apply not_true_is_false in Ha; rewrite Ha];
    simpl; lia.
Qed.

Lemma accepted_nonneg omit_videos elements : 0 ≤ accepted omit_videos elements.
Proof. unfold accepted. lia. Qed.

Lemma youtube_loop_fresh n omit_videos elements videos count v :
  v ∈ youtube_loop n omit_videos elements videos count → v ∈ videos ∨ v ∉ omit_videos.
Proof.
  revert videos count. induction elements as [|e elements IH]; intros videos count; simpl.
  { by left. }
  destruct (href e) as [url_|]; [|apply IH].
  case_decide as Hin; [apply IH|].
  assert (v ∈ videos ++ [(title e, url_)] → v ∈ videos ∨ v ∉ omit_videos) as Hnew.
  { intros [?|Hv%list_elem_of_singleton]%elem_of_app; [by left|subst; by right]. }
  destruct (n <=? count + 1); [done|].
  intros Hv. destruct (IH _ _ Hv) as [?|?]; [by apply Hnew|by right].
Qed.

(** The YouTube loop does with a list what it does with the list
    without its elements that have no URL. *)
Lemma youtube_loop_skips n omit_videos elements videos count :
  youtube_loop n omit_videos elements videos count
  = youtube_loop n omit_videos (filter (λ e, is_Some (href e)) elements) videos count.
Proof.
  revert videos count. induction elements as [|e elements IH]; intros videos count; [done|].
  rewrite filter_cons. destruct (decide (is_Some (href e))) as [[url_ He]|Hnone].
  - simpl. rewrite He.
    case_decide; [apply IH|]. destruct (n <=? count + 1); [done|apply IH].
  - simpl. destruct (href e) eqn:He; [destruct Hnone; by eexists|]. apply IH.
Qed.

Lemma bilibili_loop_fresh n omit_videos elements videos count videos' v :
  bilibili_loop n omit_videos elements videos count = Ok videos' →
  v ∈ videos' → v ∈ videos ∨ v ∉ omit_videos.
Proof.
  revert videos count. induction elements as [|e elements IH]; intros videos count; simpl.
  { intros [= <-]. by left. }
  destruct (href e) as [url_|]; [|done].
  destruct (negb (contains "video" url_)); [apply IH|].
  case_decide as Hin; [apply IH|].
  assert (v ∈ videos ++ [(text e, url_)] → v ∈ videos ∨ v ∉ omit_videos) as Hnew.
  { intros [?|Hv%list_elem_of_singleton]%elem_of_app; [by left|subst; by right]. }
  destruct (n <=? count + 1); [intros [= <-]; apply Hnew|].
  intros Hrun Hv. destruct (IH _ _ Hrun Hv) as [?|?]; [by apply Hnew|by right].
Qed.

(** The Bilibili loop raises at an element without a URL unless it has
    stopped before: it stops once [n] elements are taken, and not before
    one is. *)
Lemma bilibili_loop_raises n omit_videos pre e post videos count :
  href e = None →
  accepted omit_videos pre = 0 ∨ count + accepted omit_videos pre < n →
  bilibili_loop n omit_videos (pre ++ e :: post) videos count = Raise TypeError.
Proof.
  intros He. revert videos count. induction pre as [|x pre IH]; intros videos count Hpre; simpl.
  { by rewrite He. }
  rewrite accepted_cons in Hpre. pose proof (accepted_nonneg omit_videos pre).
  unfold accepts in Hpre.
  destruct (href x) as [url_|]; [|done].
  destruct (contains "video" url_); simpl in *; [|apply IH; lia].
  case_decide as Hin.
  - rewrite bool_decide_eq_false_2 in Hpre by (by intros ?). simpl in Hpre. apply IH. lia.
  - rewrite bool_decide_eq_true_2 in Hpre by done. simpl in Hpre.
    destruct (Z.leb_spec n (count + 1)); [lia|]. apply IH. lia.
Qed.

(** *** The two search functions *)

Section Searches.

Variable video_titles : string → list element.
Variable bili_video_cards : string → list (list element).

Lemma get_youtube_urls_eq keywords n omit_videos w :
  get_youtube_urls video_titles keywords n omit_videos w
  = (Ok (youtube_loop n omit_videos (video_titles (youtube_page keywords)) [] 0),
     visit (youtube_page keywords) w).
Proof. done. Qed.

Lemma get_bilibili_urls_eq keywords n omit_videos w :
  get_bilibili_urls bili_video_cards keywords n omit_videos w
  = (match second_anchors (bili_video_cards (bilibili_page keywords)) with
     | Ok elements => bilibili_loop n omit_videos elements [] 0
     | Raise e => Raise e
     end, visit (bilibili_page keywords) w).
Proof.
  unfold get_bilibili_urls, mbind, M_bind, modify, lift. simpl.
  by destruct (second_anchors _) as [elements|e]; [destruct (bilibili_loop _ _ _ _ _)|].
Qed.

End Searches.

(** C9 (as amended): when the list of scraped elements holds an element
    without a URL and fewer than [n] elements before it are taken (or
    none is), [get_bilibili_urls] raises [TypeError] instead of skipping
    it; [get_youtube_urls] returns what it would return for the list
    without such elements, and never raises. *)
Theorem missing_href_raises_on_bilibili_only video_titles bili_video_cards
    (keywords : string) (n : Z) (omit_videos : list (string * string)) (w : world) :
  (∀ pre e post,
     second_anchors (bili_video_cards (bilibili_page keywords)) = Ok (pre ++ e :: post) →
     href e = None →
     accepted omit_videos pre < Z.max n 1 →
     (get_bilibili_urls bili_video_cards keywords n omit_videos w).1 = Raise TypeError)
  ∧ (get_youtube_urls video_titles keywords n omit_videos w).1
    = Ok (youtube_loop n omit_videos
            (filter (λ e, is_Some (href e)) (video_titles (youtube_page keywords))) [] 0).
Proof.
  split.
  - intros pre e post Helems He Hpre. rewrite get_bilibili_urls_eq, Helems. simpl.
    apply bilibili_loop_raises; [done|].
    pose proof (accepted_nonneg omit_videos pre). lia.
  - rewrite get_youtube_urls_eq. simpl. by rewrite <- youtube_loop_skips.
Qed.

(** A Bilibili page of two cards: the second anchor of the first is a
    video, the second anchor of the other has no [href]. *)
Definition two_cards (_ : string) : list (list element) :=
  [[Element None "" "";
    Element (Some "https://www.bilibili.com/video/BV1xx411c7mD/") "" "a cat"];
   [Element None "" ""; Element None "" "an ad"]].

Definition two_titles (_ : string) : list element :=
  [Element None "an ad" ""; Element (Some "https://www.youtube.com/watch?v=c0") "a cat" ""].

Lemma missing_href_raises_on_bilibili_only_witness :
  (get_bilibili_urls two_cards "cat " 2 [] (World None [])).1 = Raise TypeError
  ∧ (get_youtube_urls two_titles "cat " 2 [] (World None [])).1
    = Ok [("a cat", "https://www.youtube.com/watch?v=c0")].
Proof.
  destruct (missing_href_raises_on_bilibili_only two_titles two_cards "cat " 2 []
              (World None [])) as [Hbili Hyt].
  split; [|exact Hyt].
  apply (Hbili [Element (Some "https://www.bilibili.com/video/BV1xx411c7mD/") "" "a cat"]
           (Element None "" "an ad") []); [reflexivity..|by vm_compute].
Defined.

(** C9 as stated fails: the list holds an element without a URL, one
    video is asked for, and [get_bilibili_urls] returns the element
    before it without raising. *)
Lemma get_bilibili_urls_stops_before_missing_href :
  second_anchors (two_cards (bilibili_page "cat "))
  = Ok [Element (Some "https://www.bilibili.com/video/BV1xx411c7mD/") "" "a cat";
        Element None "" "an ad"]
  ∧ (get_bilibili_urls two_cards "cat " 1 [] (World None [])).1
    = Ok [("a cat", "https://www.bilibili.com/video/BV1xx411c7mD/")].
Proof. split; reflexivity. Qed.

(** *** Rows of a class *)

(** The [video_id]s of the rows of class [cid], in the order of the
    frame. *)
Definition ids_of (cid : Z) (urls : list url_record) : list Z :=
  video_id <$> filter (λ r, class_id r = cid) urls.

(** Dense and zero-based: the ids of every class are the numbers 0, 1,
    2, ... below the number of its rows, each once. *)
Definition dense (urls : list url_record) : Prop :=
  ∀ cid, ids_of cid urls ≡ₚ Z.of_nat <$> seq 0 (length (ids_of cid urls)).

(** The same, and in the order of the frame. *)
Definition dense_in_order (urls : list url_record) : Prop :=
  ∀ cid, ids_of cid urls = Z.of_nat <$> seq 0 (length (ids_of cid urls)).

Lemma fmap_seq_shift (a n : nat) :
  (λ k, Z.of_nat a + Z.of_nat k) <$> seq 0 n = Z.of_nat <$> seq a n.
Proof.
  revert a. induction n as [|n IH]; intros a; [done|].
  rewrite <- !cons_seq, !fmap_cons. f_equal; [lia|].
  rewrite <- (fmap_S_seq 0 n), <- list_fmap_compose, <- (IH (S a)).
  apply list_fmap_ext. intros _ k _. simpl. lia.
Qed.

Lemma omit_of_app cid urls more :
  omit_of cid (urls ++ more) = omit_of cid urls ++ omit_of cid more.
Proof. unfold omit_of. by rewrite filter_app, fmap_app. Qed.

Lemma ids_of_app cid urls more :
  ids_of cid (urls ++ more) = ids_of cid urls ++ ids_of cid more.
Proof. unfold ids_of. by rewrite filter_app, fmap_app. Qed.

Lemma length_omit_of cid urls : length (omit_of cid urls) = length (ids_of cid urls).
Proof. unfold omit_of, ids_of. by rewrite !length_fmap. Qed.

Lemma new_rows_elem cid cls_ n_exg found r :
  r ∈ new_rows cid cls_ n_exg found →
  class_id r = cid ∧ (video_title r, video_url r) ∈ found.
Proof.
  unfold new_rows. intros (k & [t u] & -> & Hk)%elem_of_lookup_imap. simpl.
  split; [done|]. by eapply list_elem_of_lookup_2.
Qed.

Lemma ids_of_new_rows cid cid' cls_ n_exg found :
  ids_of cid' (new_rows cid cls_ n_exg found)
  = if decide (cid' = cid)
    then (λ k, n_exg + Z.of_nat k) <$> seq 0 (length found) else [].
Proof.
  unfold ids_of, new_rows.
  assert (∀ (g : nat → Z) (l : list (string * string)),
            video_id <$> filter (λ r, class_id r = cid')
                           (imap (λ k v, UrlRecord cid cls_ (g k) v.1 v.2) l)
            = if decide (cid' = cid) then g <$> seq 0 (length l) else []) as Hgen.
  { intros g l. revert g. induction l as [|v l IH]; intros g; [by case_decide|].
    rewrite imap_cons, filter_cons. simpl class_id. specialize (IH (g ∘ S)).
    destruct (decide (cid' = cid)) as [->|Hne].
    - rewrite decide_True by done. rewrite fmap_cons. simpl. f_equal.
      etrans; [exact IH|]. by rewrite <- fmap_S_seq, <- list_fmap_compose.
    - rewrite decide_False by congruence. exact IH. }
  apply (Hgen (λ k, n_exg + Z.of_nat k)).
Qed.

(** *** Sorting on (class_id, video_id) *)

Lemma key_le_total a b : key_le a b = false → key_le b a = true.
Proof.
  unfold key_le. intros H. apply orb_false_elim in H as [H1 H2].
  apply Z.ltb_ge in H1. apply andb_false_iff in H2.
  destruct (Z.ltb_spec (class_id b) (class_id a)); [done|]. simpl.
  assert (class_id a = class_id b) as Heq by lia.
  destruct H2 as [H2%Z.eqb_neq|H2%Z.leb_gt]; [done|].
  rewrite Heq, Z.eqb_refl. simpl. apply Z.leb_le. lia.
Qed.

Lemma key_le_trans a b c : key_le a b = true → key_le b c = true → key_le a c = true.
Proof.
  unfold key_le. intros Hab Hbc.
  apply orb_true_iff in Hab as [Hab%Z.ltb_lt|[Hab1%Z.eqb_eq Hab2%Z.leb_le]%andb_true_iff];
  apply orb_true_iff in Hbc as [Hbc%Z.ltb_lt|[Hbc1%Z.eqb_eq Hbc2%Z.leb_le]%andb_true_iff];
  apply orb_true_iff.
  - left. apply Z.ltb_lt. lia.
  - left. apply Z.ltb_lt. lia.
  - left. apply Z.ltb_lt. lia.
  - right. apply andb_true_iff. split; [apply Z.eqb_eq|apply Z.leb_le]; lia.
Qed.

Lemma elem_of_insert r l x : x ∈ insert r l ↔ x = r ∨ x ∈ l.
Proof.
  induction l as [|y l IH]; simpl.
  - rewrite list_elem_of_singleton. split; [by left|].
    by intros [?|[]%elem_of_nil].
  - destruct (key_le r y); rewrite !elem_of_cons; [done|]. rewrite IH. tauto.
Qed.

Lemma insert_sorted r l :
  StronglySorted (λ a b, key_le a b = true) l →
  StronglySorted (λ a b, key_le a b = true) (insert r l).
Proof.
  induction 1 as [|y l Hl IH Hy]; simpl; [by repeat constructor|].
  destruct (key_le r y) eqn:Hry.
  - constructor; [by constructor|]. constructor; [done|].
    eapply Forall_impl; [exact Hy|]. intros z Hz. by eapply key_le_trans.
  - constructor; [done|]. apply Forall_forall. intros z [->|Hz]%elem_of_insert.
    + by apply key_le_total.
    + by apply (proj1 (Forall_forall _ _) Hy).
Qed.

Lemma sort_values_sorted l : StronglySorted (λ a b, key_le a b = true) (sort_values l).
Proof. induction l as [|r l IH]; simpl; [constructor|by apply insert_sorted]. Qed.

(** Inserting into the rows of one class is what inserting into the
    whole frame does to them. *)
Lemma filter_insert cid r l :
  StronglySorted (λ a b, key_le a b = true) l →
  filter (λ x, class_id x = cid) (insert r l)
  = if decide (class_id r = cid) then insert r (filter (λ x, class_id x = cid) l)
    else filter (λ x, class_id x = cid) l.
Proof.
  induction 1 as [|y l Hl IH Hy]; simpl.
  { rewrite filter_cons, filter_nil. by case_decide. }
  destruct (key_le r y) eqn:Hry.
  - rewrite (filter_cons _ r). destruct (decide (class_id r = cid)) as [Hr|Hr]; [|done].
    destruct (filter (λ x, class_id x = cid) (y :: l)) as [|z m] eqn:Hm; [done|].
    simpl. assert (key_le r z = true) as ->; [|done].
    assert (z ∈ y :: l) as [->|Hz]%elem_of_cons; [|done|].
    { assert (z ∈ filter (λ x, class_id x = cid) (y :: l)) as Hin by (rewrite Hm; by left).
      by apply list_elem_of_filter in Hin as [_ ?]. }
    eapply key_le_trans; [exact Hry|]. by apply (proj1 (Forall_forall _ _) Hy).
  - rewrite !(filter_cons _ y), IH.
    destruct (decide (class_id y = cid)), (decide (class_id r = cid)); simpl; try done.
    by rewrite Hry.
Qed.

Lemma filter_sort_values cid l :
  filter (λ x, class_id x = cid) (sort_values l)
  = sort_values (filter (λ x, class_id x = cid) l).
Proof.
  induction l as [|r l IH]; [done|]. simpl.
  rewrite filter_insert by apply sort_values_sorted.
  rewrite filter_cons, IH. by case_decide.
Qed.

Lemma insert_Permutation r l : insert r l ≡ₚ r :: l.
Proof.
  induction l as [|x l IH]; simpl; [done|].
  destruct (key_le r x); [done|]. by rewrite IH, Permutation_swap.
Qed.

Lemma sort_values_Permutation l : sort_values l ≡ₚ l.
Proof.
  induction l as [|r l IH]; simpl; [done|]. by rewrite insert_Permutation, IH.
Qed.

Lemma ids_of_sort_values cid l : ids_of cid (sort_values l) ≡ₚ ids_of cid l.
Proof. unfold ids_of. by rewrite filter_sort_values, sort_values_Permutation. Qed.

(** Among rows of one class, the order of the keys is the order of the
    ids. *)
Lemma sorted_ids cid l :
  Forall (λ r, class_id r = cid) l →
  StronglySorted (λ a b, key_le a b = true) l →
  StronglySorted Z.le (video_id <$> l).
Proof.
  intros Hc. induction 1 as [|r l Hl IH Hr]; [constructor|].
  apply Forall_cons in Hc as [Hrc Hlc]. rewrite fmap_cons.
  constructor; [by apply IH|]. apply Forall_fmap, Forall_forall. intros x Hx.
  pose proof (proj1 (Forall_forall _ _) Hr x Hx) as Hle.
  pose proof (proj1 (Forall_forall _ _) Hlc x Hx) as Hxc.
  unfold key_le in Hle. simpl. rewrite Hrc, Hxc, Z.ltb_irrefl, Z.eqb_refl in Hle.
  simpl in Hle. by apply Z.leb_le.
Qed.

Lemma seq_sorted (a n : nat) : StronglySorted Z.le (Z.of_nat <$> seq a n).
Proof.
  revert a. induction n as [|n IH]; intros a; [constructor|].
  rewrite <- cons_seq, fmap_cons. constructor; [apply IH|].
  apply Forall_fmap, Forall_forall. intros k [Hk _]%elem_of_seq. simpl. lia.
Qed.

(** After the sort the ids of a class are in order: dense ids are then
    0, 1, 2, ... as they stand. *)
Lemma dense_sort_values l : dense l → dense_in_order (sort_values l).
Proof.
  intros Hdense cid.
  pose proof (ids_of_sort_values cid l) as Hperm.
  rewrite (Permutation_length Hperm).
  apply (StronglySorted_unique Z.le); [|apply seq_sorted|by rewrite Hperm].
  unfold ids_of. rewrite filter_sort_values.
  apply (sorted_ids cid); [|apply sort_values_sorted].
  apply Forall_forall. intros r Hr.
  rewrite sort_values_Permutation in Hr. by apply list_elem_of_filter in Hr as [? _].
Qed.

(** *** The loop over the classes *)

Section Classes.

Variable video_titles : string → list element.
Variable bili_video_cards : string → list (list element).

(** Lines 178-183: the search function the platform name selects. *)
Definition search (platform keywords : string) (n : Z)
    (omit_videos : list (string * string)) : M world (list (string * string)) :=
  if decide (lower platform = "youtube") then
    get_youtube_urls video_titles keywords n omit_videos
  else if decide (lower platform = "bilibili") then
    get_bilibili_urls bili_video_cards keywords n omit_videos
  else raise ValueError.

Definition unsupported (platform : string) : Prop :=
  lower platform ≠ "youtube" ∧ lower platform ≠ "bilibili".

Lemma search_unsupported platform keywords n omit_videos w :
  unsupported platform →
  search platform keywords n omit_videos w = (Raise ValueError, w).
Proof. intros [??]. unfold search. by rewrite !decide_False. Qed.

Lemma search_ledger platform keywords n omit_videos w :
  ledger (search platform keywords n omit_videos w).2 = ledger w.
Proof.
  unfold search. repeat case_decide; [| |done].
  - by rewrite get_youtube_urls_eq.
  - by rewrite get_bilibili_urls_eq.
Qed.

Lemma search_fresh platform keywords n omit_videos w found :
  (search platform keywords n omit_videos w).1 = Ok found →
  Forall (λ v, v ∉ omit_videos) found.
Proof.
  unfold search. repeat case_decide; [| |done].
  - rewrite get_youtube_urls_eq. simpl. intros [= <-]. apply Forall_forall.
    intros v [[]%elem_of_nil|?]%youtube_loop_fresh. done.
  - rewrite get_bilibili_urls_eq. simpl.
    destruct (second_anchors _) as [elements|e]; [|done].
    intros Hrun. apply Forall_forall. intros v Hv.
    by destruct (bilibili_loop_fresh _ _ _ _ _ _ _ Hrun Hv) as [[]%elem_of_nil|?].
Qed.

Lemma collect_classes_cons num_videos additional_keywords platform i cls_ classes urls w :
  for_classes video_titles bili_video_cards num_videos additional_keywords platform
    ((i, cls_) :: classes) urls w
  = match num_videos !! i with
    | None => (Raise IndexError, w)
    | Some n =>
        let omit_videos := omit_of (Z.of_nat i) urls in
        let n_exg := Z.of_nat (length omit_videos) in
        if n <=? n_exg then
          for_classes video_titles bili_video_cards num_videos additional_keywords
            platform classes urls w
        else
          match search platform (cls_ +:+ " " +:+ additional_keywords) (n - n_exg)
                  omit_videos w with
          | (Ok urls_by_cls, w') =>
              for_classes video_titles bili_video_cards num_videos additional_keywords
                platform classes
                (urls ++ new_rows (Z.of_nat i) cls_ n_exg urls_by_cls) w'
          | (Raise e, w') => (Raise e, w')
          end
    end.
Proof.
  simpl. destruct (num_videos !! i) as [n|]; [|done]. cbv zeta.
  destruct (n <=? _); [done|]. unfold mbind, M_bind at 1. by unfold search.
Qed.

Lemma for_classes_ledger num_videos additional_keywords platform classes urls w :
  ledger (for_classes video_titles bili_video_cards num_videos additional_keywords
            platform classes urls w).2 = ledger w.
Proof.
  revert urls w. induction classes as [|[i cls_] classes IH]; intros urls w; [done|].
  rewrite collect_classes_cons. destruct (num_videos !! i) as [n|]; [|done]. cbv zeta.
  destruct (n <=? _); [apply IH|].
  pose proof (search_ledger platform (cls_ +:+ " " +:+ additional_keywords)
                (n - Z.of_nat (length (omit_of (Z.of_nat i) urls)))
                (omit_of (Z.of_nat i) urls) w) as Hs.
  destruct (search _ _ _ _ _) as [[found|e] w']; simpl in Hs; [|done].
  by rewrite IH.
Qed.

(** What the loop returns is what it was given followed by rows whose
    pair was not in the frame for their class, and whose ids go on from
    the number of rows their class had. *)
Lemma for_classes_appends num_videos additional_keywords platform classes urls w urls' :
  (for_classes video_titles bili_video_cards num_videos additional_keywords
     platform classes urls w).1 = Ok urls' →
  (∃ new, urls' = urls ++ new
        ∧ Forall (λ r, (video_title r, video_url r) ∉ omit_of (class_id r) urls) new)
  ∧ ∀ cid, ∃ k, ids_of cid urls'
               = ids_of cid urls ++ (Z.of_nat <$> seq (length (ids_of cid urls)) k).
Proof.
  revert urls w. induction classes as [|[i cls_] classes IH]; intros urls w.
  { simpl. intros [= <-]. split.
    - exists []. by rewrite app_nil_r.
    - intros cid. exists 0%nat. by rewrite app_nil_r. }
  rewrite collect_classes_cons. destruct (num_videos !! i) as [n|]; [|done]. cbv zeta.
  destruct (n <=? _); [apply IH|].
  set (cid_ := Z.of_nat i). set (omit_videos := omit_of cid_ urls).
  pose proof (search_fresh platform (cls_ +:+ " " +:+ additional_keywords)
                (n - Z.of_nat (length omit_videos)) omit_videos w) as Hfresh.
  destruct (search _ _ _ _ _) as [[found|e] w']; [|done].
  specialize (Hfresh found eq_refl). intros Hrun.
  destruct (IH _ _ Hrun) as [(new & -> & Hnew) Hids]. split.
  - exists (new_rows cid_ cls_ (Z.of_nat (length omit_videos)) found ++ new).
    split; [by rewrite app_assoc|]. apply Forall_app. split.
    + apply Forall_forall. intros r [-> Hr]%new_rows_elem.
      by apply (proj1 (Forall_forall _ _) Hfresh).
    + eapply Forall_impl; [exact Hnew|]. intros r Hr Hin. apply Hr.
      rewrite omit_of_app. apply elem_of_app. by left.
  - intros cid. destruct (Hids cid) as [k Hk]. rewrite Hk.
    rewrite !ids_of_app, ids_of_new_rows. subst omit_videos.
    rewrite length_omit_of.
    destruct (decide (cid = cid_)) as [->|Hne].
    + exists (length found + k)%nat. rewrite <- app_assoc. f_equal.
      rewrite length_app, length_fmap, length_seq, seq_app, fmap_app. f_equal.
      apply fmap_seq_shift.
    + exists k. by rewrite !app_nil_r.
Qed.

(** **** get_urls *)

(** The world once the ledger file is there: created empty when it was
    missing. *)
Definition opened (w : world) : world :=
  match ledger w with
  | Some _ => w
  | None => set_ledger [] w
  end.

(** Lines 155-160. *)
Definition checked (classes : list string) (num_videos : num) : result (list Z) :=
  match num_videos with
  | NumInt n => Ok (replicate (length classes) n)
  | NumList l => if decide (length l = length classes) then Ok l else Raise AssertionError
  | NumOther => Raise TypeError
  end.

Lemma ledger_opened w : ledger (opened w) = Some (default [] (ledger w)).
Proof. unfold opened. by destruct (ledger w) eqn:H; simpl; [rewrite H|]. Qed.

Lemma visited_opened w : visited (opened w) = visited w.
Proof. unfold opened. by destruct (ledger w). Qed.

Lemma get_urls_eq classes num_videos additional_keywords platform w :
  get_urls video_titles bili_video_cards classes num_videos additional_keywords platform w
  = match checked classes num_videos with
    | Raise e => (Raise e, opened w)
    | Ok nums =>
        match for_classes video_titles bili_video_cards nums additional_keywords platform
                (imap pair classes) (default [] (ledger w)) (opened w) with
        | (Ok urls, w') => (Ok tt, set_ledger (sort_values urls) w')
        | (Raise e, w') => (Raise e, w')
        end
    end.
Proof.
  unfold get_urls, opened, checked, mbind, M_bind, gets, modify, mret, M_ret, raise.
  destruct (ledger w) as [rows|] eqn:Hfile; simpl.
  - destruct num_videos as [n|l|]; [|case_decide|]; try done;
      by destruct (for_classes _ _ _ _ _ _ _ _) as [[urls|e] w'].
  - destruct num_videos as [n|l|]; [|case_decide|]; try done;
      by destruct (for_classes _ _ _ _ _ _ _ _) as [[urls|e] w'].
Qed.

(** With a platform that is not supported the loop raises at the first
    class that has fewer rows than asked for, and has changed nothing by
    then. *)
Lemma for_classes_unsupported num_videos additional_keywords platform classes urls w :
  unsupported platform →
  (∀ i cls_, (i, cls_) ∈ classes → is_Some (num_videos !! i)) →
  (∃ i cls_ n, (i, cls_) ∈ classes ∧ num_videos !! i = Some n
             ∧ Z.of_nat (length (omit_of (Z.of_nat i) urls)) < n) →
  for_classes video_titles bili_video_cards num_videos additional_keywords platform
    classes urls w = (Raise ValueError, w).
Proof.
  intros Hp. induction classes as [|[i cls_] classes IH]; intros Hvalid Hneed.
  { by destruct Hneed as (? & ? & ? & []%elem_of_nil & _). }
  rewrite collect_classes_cons. destruct (Hvalid i cls_) as [n Hn]; [by left|].
  rewrite Hn. cbv zeta.
  destruct (Z.leb_spec n (Z.of_nat (length (omit_of (Z.of_nat i) urls)))) as [Hle|Hlt].
  - apply IH.
    + intros j c Hj. apply (Hvalid j c). by right.
    + destruct Hneed as (j & c & m & [[= -> ->]|Hin]%elem_of_cons & Hm & Hlt).
      * rewrite Hn in Hm. injection Hm as <-. lia.
      * by exists j, c, m.
  - by rewrite search_unsupported.
Qed.

Lemma checked_length classes num_videos nums :
  checked classes num_videos = Ok nums → length nums = length classes.
Proof.
  unfold checked. destruct num_videos as [n|l|]; [|case_decide|]; intros [= <-]; [|done].
  by rewrite length_replicate.
Qed.

End Classes.

(** C5 (as amended): when [num_videos] is a list whose length is not that
    of [classes], [get_urls] raises [AssertionError]; when the platform
    is not supported and some class has fewer rows than asked for, it
    raises [ValueError].  In both cases no page has been requested, and
    the ledger file holds the rows it held: a file that was missing has
    been created, without rows. *)
Theorem get_urls_configuration_errors video_titles bili_video_cards
    (classes : list string) (num_videos : num) (additional_keywords platform : string)
    (w : world) :
  let run := get_urls video_titles bili_video_cards classes num_videos
               additional_keywords platform w in
  (∀ l, num_videos = NumList l → length l ≠ length classes →
        run.1 = Raise AssertionError
        ∧ visited run.2 = visited w
        ∧ ledger run.2 = Some (default [] (ledger w)))
  ∧ (∀ nums, checked classes num_videos = Ok nums → unsupported platform →
       (∃ i cls_ n, classes !! i = Some cls_ ∧ nums !! i = Some n
                  ∧ Z.of_nat (length (omit_of (Z.of_nat i) (default [] (ledger w)))) < n) →
       run.1 = Raise ValueError
       ∧ visited run.2 = visited w
       ∧ ledger run.2 = Some (default [] (ledger w))).
Proof.
  cbv zeta. rewrite get_urls_eq. split.
  - intros l -> Hlen. simpl. rewrite decide_False by done. simpl.
    by rewrite visited_opened, ledger_opened.
  - intros nums Hnums Hp (i & cls_ & n & Hi & Hn & Hlt). rewrite Hnums.
    rewrite (for_classes_unsupported video_titles bili_video_cards); simpl.
    + by rewrite visited_opened, ledger_opened.
    + done.
    + intros j c (k & y & [= -> ->] & Hk)%elem_of_lookup_imap.
      apply lookup_lt_is_Some. rewrite (checked_length _ _ _ Hnums).
      by eapply lookup_lt_Some.
    + exists i, cls_, n. split; [|done]. apply elem_of_lookup_imap. by exists i, cls_.
Qed.

Lemma get_urls_configuration_errors_witness :
  (let run := get_urls two_titles two_cards ["cat"; "dog"] (NumList [5]) "" "youtube"
                (World None []) in
   run.1 = Raise AssertionError ∧ visited run.2 = [] ∧ ledger run.2 = Some [])
  ∧ (let run := get_urls two_titles two_cards ["cat"; "dog"] (NumInt 5) "" "vimeo"
                  (World None []) in
     run.1 = Raise ValueError ∧ visited run.2 = [] ∧ ledger run.2 = Some []).
Proof.
  split.
  - apply (proj1 (get_urls_configuration_errors two_titles two_cards ["cat"; "dog"]
                    (NumList [5]) "" "youtube" (World None [])) [5]).
    + reflexivity.
    + by vm_compute.
  - apply (proj2 (get_urls_configuration_errors two_titles two_cards ["cat"; "dog"]
                    (NumInt 5) "" "vimeo" (World None [])) [5; 5]).
    + reflexivity.
    + by split; vm_compute.
    + exists 0%nat, "cat", 5. by vm_compute.
Defined.

(** C5 as stated fails: [get_urls] has created the ledger file when it
    raises, for a list of the wrong length as for a platform that is not
    supported; and it raises nothing for such a platform when no class
    needs a search. *)
Lemma get_urls_creates_ledger_before_raising :
  get_urls two_titles two_cards ["cat"; "dog"] (NumList [5]) "" "youtube" (World None [])
  = (Raise AssertionError, World (Some []) [])
  ∧ get_urls two_titles two_cards ["cat"; "dog"] (NumInt 5) "" "vimeo" (World None [])
    = (Raise ValueError, World (Some []) [])
  ∧ get_urls two_titles two_cards [] (NumInt 5) "" "vimeo" (World None [])
    = (Ok tt, World (Some []) []).
Proof. repeat split. Qed.


(** C7: when the ids of every class of the ledger are dense and
    zero-based, they still are after a run of [get_urls], whether it
    ends normally or raises; the ids of a class after the run are those
    before it and the next numbers, one for each row appended; and
    after a run that ends normally they stand in the file in the order
    0, 1, 2, ... *)
Theorem get_urls_keeps_video_ids_dense video_titles bili_video_cards
    (classes : list string) (num_videos : num) (additional_keywords platform : string)
    (w : world) :
  dense (default [] (ledger w)) →
  let run := get_urls video_titles bili_video_cards classes num_videos
               additional_keywords platform w in
  let rows := default [] (ledger w) in
  let rows' := default [] (ledger run.2) in
  dense rows'
  ∧ (∀ cid, ∃ k, ids_of cid rows'
                ≡ₚ ids_of cid rows ++ (Z.of_nat <$> seq (length (ids_of cid rows)) k))
  ∧ match run.1 with
    | Ok _ => dense_in_order rows'
    | Raise _ => rows' = rows
    end.
Proof.
  intros Hdense. cbv zeta. set (rows := default [] (ledger w)) in *.
  assert (∀ rows', (∀ cid, ∃ k, ids_of cid rows'
                     ≡ₚ ids_of cid rows ++ (Z.of_nat <$> seq (length (ids_of cid rows)) k)) →
            dense rows') as Hcont.
  { intros rows' Hids cid. destruct (Hids cid) as [k Hk].
    rewrite (Permutation_length Hk), Hk.
    rewrite length_app, length_fmap, length_seq, seq_app, fmap_app.
    apply Permutation_app_tail, (Hdense cid). }
  assert (∀ cid, ∃ k, ids_of cid rows
            ≡ₚ ids_of cid rows ++ (Z.of_nat <$> seq (length (ids_of cid rows)) k)) as Hsame.
  { intros cid. exists 0%nat. by rewrite app_nil_r. }
  rewrite get_urls_eq.
  destruct (checked classes num_videos) as [nums|e];
    [|simpl; rewrite ledger_opened; by split; [apply Hcont|]].
  pose proof (for_classes_ledger video_titles bili_video_cards nums additional_keywords
                platform (imap pair classes) rows (opened w)) as Hl.
  pose proof (for_classes_appends video_titles bili_video_cards nums additional_keywords
                platform (imap pair classes) rows (opened w)) as Happ.
  destruct (for_classes _ _ _ _ _ _ _ _) as [[urls|e] w']; simpl in *.
  - destruct (Happ urls eq_refl) as [_ Hids].
    assert (∀ cid, ∃ k, ids_of cid urls
              ≡ₚ ids_of cid rows ++ (Z.of_nat <$> seq (length (ids_of cid rows)) k))
      as Hids'.
    { intros cid. destruct (Hids cid) as [k ->]. by exists k. }
    split; [|split].
    + apply Hcont. intros cid. setoid_rewrite ids_of_sort_values. apply Hids'.
    + intros cid. setoid_rewrite ids_of_sort_values. apply Hids'.
    + by apply dense_sort_values, Hcont.
  - rewrite Hl, ledger_opened. simpl. by split; [apply Hcont|].
Qed.

(** A ledger of one class with two rows, and a page with two more
    videos. *)
Definition cat_ledger : list url_record :=
  [UrlRecord 0 "cat" 0 "a cat" "https://www.youtube.com/watch?v=c0";
   UrlRecord 0 "cat" 1 "two cats" "https://www.youtube.com/watch?v=c1"].

Definition cat_titles (_ : string) : list element :=
  [Element (Some "https://www.youtube.com/watch?v=c0") "a cat" "";
   Element (Some "https://www.youtube.com/watch?v=c2") "three cats" "";
   Element (Some "https://www.youtube.com/watch?v=c3") "four cats" ""].

Lemma get_urls_keeps_video_ids_dense_witness :
  let run := get_urls cat_titles two_cards ["cat"] (NumInt 4) "" "youtube"
               (World (Some cat_ledger) []) in
  let rows' := default [] (ledger run.2) in
  dense rows'
  ∧ (∀ cid, ∃ k, ids_of cid rows'
                ≡ₚ ids_of cid cat_ledger
                   ++ (Z.of_nat <$> seq (length (ids_of cid cat_ledger)) k))
  ∧ match run.1 with
    | Ok _ => dense_in_order rows'
    | Raise _ => rows' = cat_ledger
    end.
Proof.
  apply (get_urls_keeps_video_ids_dense cat_titles two_cards ["cat"] (NumInt 4) ""
           "youtube" (World (Some cat_ledger) [])).
  change (dense cat_ledger).
  intros cid. unfold ids_of, cat_ledger. rewrite !filter_cons, filter_nil. simpl.
  by case_decide.
Defined.

Example get_urls_cat_ids :
  video_id <$> default [] (ledger (get_urls cat_titles two_cards ["cat"] (NumInt 4) ""
                                     "youtube" (World (Some cat_ledger) [])).2)
  = [0; 1; 2; 3].
Proof. reflexivity. Qed.

(** *** What the searches return *)

(** The (title, url) pairs a YouTube page lists, and those a Bilibili
    page lists: the elements that have a URL, which on Bilibili must
    hold "video". *)
Definition youtube_pairs (elements : list element) : list (string * string) :=
  omap (λ e, (λ url_, (title e, url_)) <$> href e) elements.

Definition bilibili_pairs (elements : list element) : list (string * string) :=
  omap (λ e, match href e with
             | Some url_ => if contains "video" url_ then Some (text e, url_) else None
             | None => None
             end) elements.

(** The pairs of a list that are not to be omitted. *)
Definition fresh (omit_videos l : list (string * string)) : list (string * string) :=
  filter (λ v, v ∉ omit_videos) l.

(** The number of pairs a search for [n] returns at most: the loop
    tests its count after it has taken a pair. *)
Definition wanted (n : Z) : nat := Z.to_nat (Z.max n 1).

Lemma take_wanted_cons {A} n count (v : A) (l : list A) :
  take (wanted (n - count)) (v :: l)
  = v :: (if n <=? count + 1 then [] else take (wanted (n - (count + 1))) l).
Proof.
  unfold wanted. destruct (Z.leb_spec n (count + 1)) as [Hle|Hgt].
  - replace (Z.to_nat (Z.max (n - count) 1)) with 1%nat by lia. simpl. by rewrite take_0.
  - replace (Z.to_nat (Z.max (n - count) 1))
      with (S (Z.to_nat (Z.max (n - (count + 1)) 1))) by lia.
    done.
Qed.

Lemma youtube_loop_takes n omit_videos elements videos count :
  youtube_loop n omit_videos elements videos count
  = videos ++ take (wanted (n - count)) (fresh omit_videos (youtube_pairs elements)).
Proof.
  revert videos count. induction elements as [|e elements IH]; intros videos count.
  { simpl. unfold fresh. rewrite filter_nil, take_nil. by rewrite app_nil_r. }
  simpl. unfold fresh, youtube_pairs. simpl. destruct (href e) as [url_|]; simpl; [|apply IH].
  rewrite filter_cons. case_decide as Hin.
  - rewrite decide_False by (by intros ?). apply IH.
  - rewrite decide_True by done.
    fold (youtube_pairs elements). fold (fresh omit_videos (youtube_pairs elements)).
    rewrite take_wanted_cons. destruct (n <=? count + 1); [done|].
    rewrite IH. by rewrite <- app_assoc.
Qed.

Lemma bilibili_loop_takes n omit_videos elements videos count videos' :
  bilibili_loop n omit_videos elements videos count = Ok videos' →
  videos' = videos ++ take (wanted (n - count)) (fresh omit_videos (bilibili_pairs elements)).
Proof.
  revert videos count. induction elements as [|e elements IH]; intros videos count.
  { simpl. intros [= <-]. unfold fresh. rewrite filter_nil, take_nil. by rewrite app_nil_r. }
  simpl. unfold fresh, bilibili_pairs. simpl. destruct (href e) as [url_|]; [|done].
  destruct (contains "video" url_); simpl; [|apply IH].
  rewrite filter_cons. case_decide as Hin.
  - rewrite decide_False by (by intros ?). apply IH.
  - rewrite decide_True by done.
    fold (bilibili_pairs elements). fold (fresh omit_videos (bilibili_pairs elements)).
    rewrite take_wanted_cons. destruct (n <=? count + 1).
    + by intros [= <-].
    + intros Hrun. rewrite (IH _ _ Hrun). by rewrite <- app_assoc.
Qed.

(** When no element lacks its URL the Bilibili loop returns. *)
Lemma bilibili_loop_returns n omit_videos elements videos count :
  Forall (λ e, is_Some (href e)) elements →
  ∃ videos', bilibili_loop n omit_videos elements videos count = Ok videos'.
Proof.
  intros Hall. revert videos count.
  induction Hall as [|e elements [url_ He] _ IH]; intros videos count; simpl; [by eexists|].
  rewrite He. destruct (negb _); [apply IH|]. case_decide; [apply IH|].
  destruct (n <=? count + 1); [by eexists|apply IH].
Qed.

(** X21: a search returns the first pairs of the page that are not in
    its omit list, in the order of the page, as many as asked for and
    one when fewer than one is asked for.  [get_youtube_urls] always
    returns; [get_bilibili_urls] returns in this way whenever every
    card has its second anchor and every such anchor has a URL. *)
Theorem searches_take_first_fresh_pairs video_titles bili_video_cards
    (keywords : string) (n : Z) (omit_videos : list (string * string)) (w : world) :
  get_youtube_urls video_titles keywords n omit_videos w
  = (Ok (take (wanted n)
           (fresh omit_videos (youtube_pairs (video_titles (youtube_page keywords))))),
     visit (youtube_page keywords) w)
  ∧ ∀ elements,
      second_anchors (bili_video_cards (bilibili_page keywords)) = Ok elements →
      Forall (λ e, is_Some (href e)) elements →
      get_bilibili_urls bili_video_cards keywords n omit_videos w
      = (Ok (take (wanted n) (fresh omit_videos (bilibili_pairs elements))),
         visit (bilibili_page keywords) w).
Proof.
  split.
  - rewrite get_youtube_urls_eq, youtube_loop_takes. by rewrite Z.sub_0_r.
  - intros elements Hanchors Hall. rewrite get_bilibili_urls_eq, Hanchors.
    destruct (bilibili_loop_returns n omit_videos elements [] 0 Hall) as [videos' Hrun].
    rewrite Hrun. apply bilibili_loop_takes in Hrun. rewrite Z.sub_0_r in Hrun.
    by rewrite Hrun.
Qed.

Lemma second_anchors_short cards card :
  card ∈ cards → (length card < 2)%nat → second_anchors cards = Raise IndexError.
Proof.
  intros Hin Hlen. induction cards as [|anchors cards IH]; [by apply elem_of_nil in Hin|].
  simpl. destruct (anchors !! 1%nat) as [a|] eqn:Ha.
  - apply elem_of_cons in Hin as [->|Hin].
    + apply lookup_lt_Some in Ha. lia.
    + by rewrite IH.
  - done.
Qed.

(** X22: when a card of the Bilibili page has fewer than two anchors,
    [get_bilibili_urls] ends in [IndexError], once the page has been
    requested, whatever the other cards hold. *)
Theorem get_bilibili_urls_needs_second_anchor bili_video_cards
    (keywords : string) (n : Z) (omit_videos : list (string * string)) (w : world)
    (card : list element) :
  card ∈ bili_video_cards (bilibili_page keywords) → (length card < 2)%nat →
  get_bilibili_urls bili_video_cards keywords n omit_videos w
  = (Raise IndexError, visit (bilibili_page keywords) w).
Proof.
  intros Hin Hlen. rewrite get_bilibili_urls_eq.
  by rewrite (second_anchors_short _ card).
Qed.

(** A page whose second card has its title anchor only. *)
Definition short_cards (_ : string) : list (list element) :=
  [[Element (Some "https://www.bilibili.com/video/BV1") "" "cover";
    Element (Some "https://www.bilibili.com/video/BV1") "" "a cat"];
   [Element (Some "https://www.bilibili.com/video/BV2") "" "two cats"]].

Lemma get_bilibili_urls_needs_second_anchor_witness :
  get_bilibili_urls short_cards "cat" 1 [] (World None [])
  = (Raise IndexError, visit (bilibili_page "cat") (World None [])).
Proof.
  apply (get_bilibili_urls_needs_second_anchor short_cards "cat" 1 [] (World None [])
           [Element (Some "https://www.bilibili.com/video/BV2") "" "two cats"]).
  - right. by left.
  - simpl. lia.
Defined.

(** X23: the address of the page a search requests holds no space,
    whatever the keywords are. *)
Theorem search_pages_hold_no_space (keywords : string) :
  contains " " (youtube_page keywords) = false
  ∧ contains " " (bilibili_page keywords) = false.
Proof.
  unfold youtube_page, bilibili_page.
  split; rewrite PyFacts.contains_char_app, PyFacts.replace_space_no_space by done; done.
Qed.

(** *** A run in closed form *)

Section Runs.

Variable video_titles : string → list element.
Variable bili_video_cards : string → list (list element).

(** The pairs that the page for [keywords] lists on a platform, and
    that page. *)
Definition listed (platform keywords : string) : list (string * string) :=
  if decide (lower platform = "youtube") then
    youtube_pairs (video_titles (youtube_page keywords))
  else
    match second_anchors (bili_video_cards (bilibili_page keywords)) with
    | Ok elements => bilibili_pairs elements
    | Raise _ => []
    end.

Definition page (platform keywords : string) : string :=
  if decide (lower platform = "youtube") then youtube_page keywords
  else bilibili_page keywords.

(** Whether the class [ic] has fewer rows in [urls] than are asked
    for. *)
Definition lacking (num_videos : list Z) (urls : list url_record)
    (ic : nat * string) : bool :=
  match num_videos !! ic.1 with
  | Some n => negb (n <=? Z.of_nat (length (omit_of (Z.of_nat ic.1) urls)))
  | None => false
  end.

(** The rows a run adds for the class [ic] to a frame [urls]. *)
Definition batch (num_videos : list Z) (additional_keywords platform : string)
    (urls : list url_record) (ic : nat * string) : list url_record :=
  let omit_videos := omit_of (Z.of_nat ic.1) urls in
  let n_exg := Z.of_nat (length omit_videos) in
  match num_videos !! ic.1 with
  | Some n =>
      if n <=? n_exg then []
      else new_rows (Z.of_nat ic.1) ic.2 n_exg
             (take (wanted (n - n_exg))
                (fresh omit_videos
                   (listed platform (ic.2 +:+ " " +:+ additional_keywords))))
  | None => []
  end.

Lemma search_takes platform keywords n omit_videos w found w' :
  search video_titles bili_video_cards platform keywords n omit_videos w = (Ok found, w') →
  found = take (wanted n) (fresh omit_videos (listed platform keywords))
  ∧ w' = visit (page platform keywords) w.
Proof.
  unfold search, listed, page. case_decide.
  - rewrite get_youtube_urls_eq, youtube_loop_takes, Z.sub_0_r. by intros [= <- <-].
  - case_decide; [|done]. rewrite get_bilibili_urls_eq.
    destruct (second_anchors _) as [elements|e]; [|done].
    destruct (bilibili_loop _ _ _ _ _) as [videos|e] eqn:Hrun; [|done].
    apply bilibili_loop_takes in Hrun. rewrite Z.sub_0_r in Hrun. by intros [= <- <-].
Qed.

Lemma search_youtube platform keywords n omit_videos w :
  lower platform = "youtube" →
  ∃ found, search video_titles bili_video_cards platform keywords n omit_videos w
           = (Ok found, visit (page platform keywords) w).
Proof.
  intros Hp. unfold search, page. rewrite !decide_True by done.
  rewrite get_youtube_urls_eq. by eexists.
Qed.

Lemma omit_of_new_rows cid cid' cls_ n_exg found :
  omit_of cid' (new_rows cid cls_ n_exg found) = if decide (cid' = cid) then found else [].
Proof.
  unfold omit_of, new_rows.
  assert (∀ (g : nat → Z) (l : list (string * string)),
            (λ r, (video_title r, video_url r))
              <$> filter (λ r, class_id r = cid')
                    (imap (λ k v, UrlRecord cid cls_ (g k) v.1 v.2) l)
            = if decide (cid' = cid) then l else []) as Hgen.
  { intros g l. revert g. induction l as [|[t u] l IH]; intros g; [by case_decide|].
    rewrite imap_cons, filter_cons. simpl class_id. specialize (IH (g ∘ S)).
    destruct (decide (cid' = cid)) as [->|Hne].
    - rewrite decide_True by done. rewrite fmap_cons. simpl. f_equal. exact IH.
    - rewrite decide_False by congruence. exact IH. }
  apply (Hgen (λ k, n_exg + Z.of_nat k)).
Qed.


Lemma batch_ext num_videos additional_keywords platform urls urls' ic :
  omit_of (Z.of_nat ic.1) urls' = omit_of (Z.of_nat ic.1) urls →
  batch num_videos additional_keywords platform urls' ic
  = batch num_videos additional_keywords platform urls ic
  ∧ lacking num_videos urls' ic = lacking num_videos urls ic.
Proof. unfold batch, lacking. by intros ->. Qed.

(** The loop over the classes, when it ends normally: the frame it was
    given, followed class by class by the rows added, and one page
    visited for every class that lacked rows. *)
Lemma for_classes_closed num_videos additional_keywords platform classes urls w urls' w' :
  NoDup classes.*1 →
  for_classes video_titles bili_video_cards num_videos additional_keywords platform
    classes urls w = (Ok urls', w') →
  urls' = urls ++ (classes ≫= batch num_videos additional_keywords platform urls)
  ∧ visited w'
    = visited w ++ ((λ ic, page platform (ic.2 +:+ " " +:+ additional_keywords))
                      <$> filter (λ ic, lacking num_videos urls ic = true) classes)
  ∧ ledger w' = ledger w.
Proof.
  revert urls w. induction classes as [|[i cls_] classes IH]; intros urls w Hnd.
  { simpl. intros [= <- <-]. by rewrite !app_nil_r. }
  rewrite fmap_cons in Hnd. apply NoDup_cons in Hnd as [Hi Hnd].
  rewrite collect_classes_cons.
  destruct (num_videos !! i) as [n|] eqn:Hn; [|done]. cbv zeta.
  rewrite bind_cons, filter_cons.
  assert (lacking num_videos urls (i, cls_)
          = negb (n <=? Z.of_nat (length (omit_of (Z.of_nat i) urls)))) as ->.
  { unfold lacking. simpl. by rewrite Hn. }
  assert (batch num_videos additional_keywords platform urls (i, cls_)
          = if n <=? Z.of_nat (length (omit_of (Z.of_nat i) urls)) then []
            else new_rows (Z.of_nat i) cls_ (Z.of_nat (length (omit_of (Z.of_nat i) urls)))
                   (take (wanted (n - Z.of_nat (length (omit_of (Z.of_nat i) urls))))
                      (fresh (omit_of (Z.of_nat i) urls)
                         (listed platform (cls_ +:+ " " +:+ additional_keywords))))) as ->.
  { unfold batch. simpl. by rewrite Hn. }
  destruct (n <=? Z.of_nat (length (omit_of (Z.of_nat i) urls))) eqn:Hle.
  { simpl negb. rewrite decide_False by done. intros Hrun. by apply IH. }
  simpl negb. rewrite decide_True by done.
  destruct (search _ _ _ _ _ _ _) as [[found|e] w1] eqn:Hsearch; [|done].
  apply search_takes in Hsearch as [-> ->]. intros Hrun.
  destruct (IH _ _ Hnd Hrun) as (-> & Hvis & Hled).
  remember (new_rows (Z.of_nat i) cls_ (Z.of_nat (length (omit_of (Z.of_nat i) urls)))
              (take (wanted (n - Z.of_nat (length (omit_of (Z.of_nat i) urls))))
                 (fresh (omit_of (Z.of_nat i) urls)
                    (listed platform (cls_ +:+ " " +:+ additional_keywords)))))
    as more eqn:Hmore.
  assert (∀ jc, jc ∈ classes →
            batch num_videos additional_keywords platform (urls ++ more) jc
            = batch num_videos additional_keywords platform urls jc
            ∧ lacking num_videos (urls ++ more) jc = lacking num_videos urls jc) as Hext.
  { intros [j c] Hjc. apply batch_ext. rewrite omit_of_app, Hmore.
    rewrite omit_of_new_rows, decide_False; [by rewrite app_nil_r|].
    intros Hji. apply Nat2Z.inj in Hji. simpl in Hji. subst j.
    apply Hi. apply list_elem_of_fmap. by exists (i, c). }
  split; [|split].
  - rewrite <- app_assoc. do 2 f_equal. clear -Hext.
    induction classes as [|jc classes IH]; [done|]. simpl.
    rewrite (proj1 (Hext jc ltac:(by left))). f_equal. apply IH.
    intros jc' Hjc'. apply Hext. by right.
  - rewrite Hvis. simpl. rewrite <- app_assoc. simpl. do 3 f_equal. clear -Hext.
    induction classes as [|jc classes IH]; [done|]. rewrite !filter_cons.
    rewrite (proj2 (Hext jc ltac:(by left))).
    rewrite IH by (intros jc' Hjc'; apply Hext; by right). done.
  - by rewrite Hled.
Qed.

(** On YouTube the loop ends normally when every class has its
    number. *)
Lemma for_classes_youtube num_videos additional_keywords platform classes urls w :
  lower platform = "youtube" →
  (∀ i cls_, (i, cls_) ∈ classes → is_Some (num_videos !! i)) →
  ∃ urls' w',
    for_classes video_titles bili_video_cards num_videos additional_keywords platform
      classes urls w = (Ok urls', w').
Proof.
  intros Hp. revert urls w. induction classes as [|[i cls_] classes IH]; intros urls w Hnum.
  { by eexists _, _. }
  rewrite collect_classes_cons. destruct (Hnum i cls_) as [n ->]; [by left|]. cbv zeta.
  assert (∀ j c, (j, c) ∈ classes → is_Some (num_videos !! j)) as Hnum'.
  { intros j c Hjc. apply (Hnum j c). by right. }
  destruct (n <=? _); [by apply IH|].
  match goal with |- context [search _ _ _ ?k ?m ?o ?x] =>
    destruct (search_youtube platform k m o x Hp) as [found ->] end.
  by apply IH.
Qed.

Lemma imap_pair_NoDup {A} (l : list A) : NoDup (imap pair l).*1.
Proof.
  assert ((imap pair l).*1 = seq 0 (length l)) as ->; [|apply NoDup_seq].
  assert (∀ (g : nat → nat) (l : list A),
            (imap (λ i x, (g i, x)) l).*1 = g <$> seq 0 (length l)) as Hgen.
  { clear. intros g l. revert g; induction l as [|x l IH]; intros g; [done|].
    simpl. f_equal. etrans; [exact (IH (g ∘ S))|].
    by rewrite <- fmap_S_seq, <- list_fmap_compose. }
  pose proof (Hgen id l) as H. by rewrite list_fmap_id in H.
Qed.

(** A run of [get_urls] that ends normally. *)
Lemma get_urls_closed classes num_videos additional_keywords platform w nums :
  checked classes num_videos = Ok nums →
  let run := get_urls video_titles bili_video_cards classes num_videos
               additional_keywords platform w in
  let rows := default [] (ledger w) in
  run.1 = Ok tt →
  ledger run.2
  = Some (sort_values
            (rows ++ (imap pair classes ≫= batch nums additional_keywords platform rows)))
  ∧ visited run.2
    = visited w ++ ((λ ic, page platform (ic.2 +:+ " " +:+ additional_keywords))
                      <$> filter (λ ic, lacking nums rows ic = true) (imap pair classes)).
Proof.
  intros Hnums. cbv zeta. rewrite get_urls_eq, Hnums.
  destruct (for_classes _ _ _ _ _ _ _ _) as [[urls|e] w'] eqn:Hrun; [|done].
  apply for_classes_closed in Hrun as (-> & Hvis & _); [|apply imap_pair_NoDup].
  intros _. simpl. by rewrite Hvis, visited_opened.
Qed.

End Runs.

Section Ledger.

Variable video_titles : string → list element.
Variable bili_video_cards : string → list (list element).






End Ledger.

(** A page that lists a pair twice, among others. *)
Definition dog_titles (_ : string) : list element :=
  [Element (Some "https://www.youtube.com/watch?v=d0") "a dog" "";
   Element None "an advertisement" "";
   Element (Some "https://www.youtube.com/watch?v=d1") "two dogs" "";
   Element (Some "https://www.youtube.com/watch?v=d0") "a dog" "";
   Element (Some "https://www.youtube.com/watch?v=d2") "three dogs" ""].

(** X24: on YouTube, with a number of videos for every class,
    [get_urls] ends normally, and the pages it has requested are those
    of the classes that had fewer rows in the ledger than asked for,
    one each, in the order of the classes. *)
Theorem get_urls_youtube_queries video_titles bili_video_cards
    (classes : list string) (num_videos : num) (additional_keywords platform : string)
    (w : world) (nums : list Z) :
  lower platform = "youtube" →
  checked classes num_videos = Ok nums →
  let run := get_urls video_titles bili_video_cards classes num_videos
               additional_keywords platform w in
  run.1 = Ok tt
  ∧ visited run.2
    = visited w
      ++ ((λ ic, youtube_page (ic.2 +:+ " " +:+ additional_keywords))
            <$> filter (λ ic, lacking nums (default [] (ledger w)) ic = true)
                  (imap pair classes)).
Proof.
  intros Hp Hnums. cbv zeta.
  assert ((get_urls video_titles bili_video_cards classes num_videos additional_keywords
             platform w).1 = Ok tt) as Hok.
  { rewrite get_urls_eq, Hnums.
    destruct (for_classes_youtube video_titles bili_video_cards nums additional_keywords
                platform (imap pair classes) (default [] (ledger w)) (opened w) Hp)
      as (urls' & w' & ->); [|done].
    intros i cls_ (k & y & [= -> ->] & Hk)%elem_of_lookup_imap.
    apply lookup_lt_is_Some. rewrite (checked_length _ _ _ Hnums).
    by eapply lookup_lt_Some. }
  split; [done|].
  destruct (get_urls_closed video_titles bili_video_cards classes num_videos
              additional_keywords platform w nums Hnums Hok) as [_ ->].
  f_equal. apply list_fmap_ext. intros _ ic _. unfold page. by rewrite decide_True.
Qed.

Lemma get_urls_youtube_queries_witness :
  let run := get_urls dog_titles two_cards ["cat"; "dog"] (NumInt 2) "playing" "YouTube"
               (World (Some cat_ledger) []) in
  run.1 = Ok tt
  ∧ visited run.2
    = [] ++ ((λ ic, youtube_page (ic.2 +:+ " " +:+ "playing"))
               <$> filter (λ ic, lacking [2; 2] cat_ledger ic = true)
                     (imap pair ["cat"; "dog"])).
Proof.
  apply (get_urls_youtube_queries dog_titles two_cards ["cat"; "dog"] (NumInt 2)
           "playing" "YouTube" (World (Some cat_ledger) []) [2; 2]); reflexivity.
Defined.

Example get_urls_dog_query :
  visited (get_urls dog_titles two_cards ["cat"; "dog"] (NumInt 2) "playing" "YouTube"
             (World (Some cat_ledger) [])).2
  = ["https://www.youtube.com/results?search_query=dog+playing"].
Proof. reflexivity. Qed.





(** The loop does not compare the pairs it takes with one another: a
    pair listed twice is recorded twice. *)
Example get_urls_records_listed_twice :
  omit_of 1 (default [] (ledger (get_urls dog_titles two_cards ["cat"; "dog"] (NumInt 4) ""
                                   "youtube" (World (Some cat_ledger) [])).2))
  = [("a dog", "https://www.youtube.com/watch?v=d0");
     ("two dogs", "https://www.youtube.com/watch?v=d1");
     ("a dog", "https://www.youtube.com/watch?v=d0");
     ("three dogs", "https://www.youtube.com/watch?v=d2")].
Proof. reflexivity. Qed.

(** *** Runs that need no search *)




Section Satisfied.

Variable video_titles : string → list element.
Variable bili_video_cards : string → list (list element).


End Satisfied.



(** *** The script *)

Example strip_space_examples :
  strip_space "  a cat " = "a cat" ∧ strip_space "   " = "" ∧ strip_space "dog" = "dog".
Proof. by repeat split. Qed.

Example sort_example :
  sort ["dog"; "cat"; "Cat"; "bird"] = ["Cat"; "bird"; "cat"; "dog"].
Proof. reflexivity. Qed.

Lemma insert_class_Permutation c l : insert_class c l ≡ₚ c :: l.
Proof.
  induction l as [|x l IH]; simpl; [done|].
  destruct (String.leb c x); [done|]. by rewrite IH, Permutation_swap.
Qed.

Lemma sort_Permutation l : sort l ≡ₚ l.
Proof.
  induction l as [|c l IH]; simpl; [done|]. by rewrite insert_class_Permutation, IH.
Qed.

Lemma insert_class_sorted c l :
  StronglySorted String.le l → StronglySorted String.le (insert_class c l).
Proof.
  induction 1 as [|x l Hl IH Hx]; simpl; [by repeat constructor|].
  destruct (String.leb c x) eqn:Hcx.
  - constructor; [by constructor|]. constructor; [unfold String.le; by rewrite Hcx|].
    eapply Forall_impl; [exact Hx|]. intros z Hz. etrans; [|exact Hz].
    unfold String.le. by rewrite Hcx.
  - constructor; [done|]. apply Forall_forall. intros z Hz.
    rewrite insert_class_Permutation in Hz. apply elem_of_cons in Hz as [->|Hz].
    + destruct (total String.le x c) as [?|Hle]; [done|].
      unfold String.le in Hle. by rewrite Hcx in Hle.
    + by apply (proj1 (Forall_forall _ _) Hx).
Qed.

Lemma sort_sorted l : StronglySorted String.le (sort l).
Proof. induction l as [|c l IH]; simpl; [constructor|by apply insert_class_sorted]. Qed.

Lemma sort_of_Permutation l l' : l ≡ₚ l' → sort l = sort l'.
Proof.
  intros Hperm. apply (StronglySorted_unique String.le); [apply sort_sorted..|].
  by rewrite !sort_Permutation.
Qed.

(** X28: given more than one number of videos, the script ends in
    [AssertionError] when there are not as many numbers as classes,
    and in [NameError] when there are: [get_urls] is not called, no
    page is requested and the ledger is not touched. *)
Theorem script_rejects_number_lists video_titles bili_video_cards
    (lines : list string) (args_num_videos : list Z)
    (args_additional_keywords args_platform : string) (w : world) :
  length args_num_videos ≠ 1%nat →
  __main__ video_titles bili_video_cards lines args_num_videos
    args_additional_keywords args_platform w
  = (if decide (length args_num_videos = length lines) then NameError
     else Uncaught AssertionError, w).
Proof.
  intros Hlen. unfold __main__.
  assert (length (sort (strip_space <$> lines)) = length lines) as ->.
  { by rewrite (Permutation_length (sort_Permutation _)), length_fmap. }
  destruct args_num_videos as [|n [|m l]]; [|done|]; by case_decide.
Qed.

Lemma script_rejects_number_lists_witness :
  __main__ cat_titles two_cards ["cat"; "dog"] [3; 4] "" "youtube" (World None [])
  = (NameError, World None []).
Proof.
  apply (script_rejects_number_lists cat_titles two_cards ["cat"; "dog"] [3; 4] ""
           "youtube" (World None [])).
  by vm_compute.
Defined.

(** X29: the script gives the class ids in the order of the sorted
    class names: the order of the lines of the classes file plays no
    role in what the run does. *)
Theorem script_ignores_line_order video_titles bili_video_cards
    (lines lines' : list string) (args_num_videos : list Z)
    (args_additional_keywords args_platform : string) (w : world) :
  lines ≡ₚ lines' →
  __main__ video_titles bili_video_cards lines args_num_videos
    args_additional_keywords args_platform w
  = __main__ video_titles bili_video_cards lines' args_num_videos
      args_additional_keywords args_platform w.
Proof.
  intros Hperm. unfold __main__.
  by rewrite (sort_of_Permutation (strip_space <$> lines) (strip_space <$> lines'))
    by (by rewrite Hperm).
Qed.

Lemma script_ignores_line_order_witness :
  __main__ cat_titles two_cards ["dog"; " cat"] [2] "" "youtube" (World None [])
  = __main__ cat_titles two_cards [" cat"; "dog"] [2] "" "youtube" (World None []).
Proof.
  apply (script_ignores_line_order cat_titles two_cards ["dog"; " cat"] [" cat"; "dog"]).
  apply Permutation_swap.
Defined.

End CollectorFacts.
